(** * scrapingGoogle: a shallow embedding of Google100.py and GoogleNews100.py

    The two scripts collect URLs for a list of keywords (Custom Search API,
    or the Google News RSS feed), fetch every page, extract its text and
    write one flat text file.  This development embeds the functions of both
    scripts and proves the properties their specification states.

    Python [str] values are lists of Unicode code points; integers are [Z];
    the network, the feed parser, the HTML parser and the browser are
    parameters of the pipeline sections, and every effect is threaded through
    an explicit state that also records the trace of external calls. *)

From Stdlib Require Import ZArith Lia Bool List String Ascii.
From stdpp Require Import base tactics option list gmap.
Import ListNotations.

Local Open Scope Z_scope.
Local Open Scope nat_scope.
Local Open Scope list_scope.

(** ** Python strings *)

Module Py.

(** A [str] is a sequence of code points. *)
Definition str := list N.

(** ASCII literal to [str]. *)
Definition lit (s : string) : str :=
  List.map N_of_ascii (list_ascii_of_string s).

Definition chr_eqb (a b : N) : bool := N.eqb a b.

(** Code points of the characters the regular expressions name. *)
Definition TAB : N := 9%N.
Definition LF : N := 10%N.
Definition CR : N := 13%N.
Definition SP : N := 32%N.

(** [str.isspace] on one code point: the characters CPython's
    [_PyUnicode_IsWhitespace] accepts. *)
Definition isspace (c : N) : bool :=
  ((9 <=? c) && (c <=? 13) || (28 <=? c) && (c <=? 32)
   || (c =? 133) || (c =? 160) || (c =? 5760)
   || (8192 <=? c) && (c <=? 8202)
   || (c =? 8232) || (c =? 8233) || (c =? 8239) || (c =? 8287)
   || (c =? 12288))%N.

Fixpoint dropwhile (p : N -> bool) (s : str) : str :=
  match s with
  | [] => []
  | c :: s' => if p c then dropwhile p s' else s
  end.

(** [s.lstrip()], [s.rstrip()], [s.strip()] with no argument. *)
Definition lstrip (s : str) : str := dropwhile isspace s.
Definition rstrip (s : str) : str := rev (dropwhile isspace (rev s)).
Definition strip (s : str) : str := rstrip (lstrip s).

(** [s.startswith(p)] *)
Fixpoint startswith (s p : str) : bool :=
  match p, s with
  | [], _ => true
  | _ :: _, [] => false
  | a :: p', b :: s' => chr_eqb a b && startswith s' p'
  end.

(** [p in s] for strings: [p] occurs as a contiguous substring of [s]. *)
Fixpoint contains (p s : str) : bool :=
  startswith s p ||
  match s with
  | [] => false
  | _ :: s' => contains p s'
  end.

(** Truthiness of a string: [if s:] holds for the non-empty ones. *)
Definition truthy (s : str) : bool :=
  match s with [] => false | _ => true end.

(** ASCII part of [str.lower]: used to run the examples; the pipelines take
    the full Unicode [str.lower] as a parameter. *)
Definition ascii_lower (s : str) : str :=
  List.map (fun c => if ((65 <=? c) && (c <=? 90))%N then (c + 32)%N else c) s.

(** [str(n)] for an integer: decimal digits, with a minus sign. *)
Fixpoint digits (fuel : nat) (n : N) (acc : str) : str :=
  match fuel with
  | O => acc
  | S fuel' =>
      let acc' := (48 + n mod 10)%N :: acc in
      if (n <? 10)%N then acc' else digits fuel' (n / 10)%N acc'
  end.

Definition str_of_N (n : N) : str := digits (S (N.to_nat (N.log2 n))) n [].

Definition str_of_Z (z : Z) : str :=
  match z with
  | Z0 => lit "0"
  | Zpos p => str_of_N (Npos p)
  | Zneg p => lit "-" ++ str_of_N (Npos p)
  end.

End Py.

Abbreviation str := Py.str.

(** ** The fragment of [re] the scripts use

    Every pattern of the scripts is a sequence of greedy repetitions of one
    character class: [\r\n?], [[ \t]+\n], [\n{3,}], [[ \t]{2,}]. *)

Module Re.

Record atom := Atom {
  cls : N -> bool;        (* the character class *)
  rmin : nat;             (* least number of repetitions *)
  rmax : option nat       (* greatest number, None when unbounded *)
}.

Definition regex := list atom.

(** Number of leading characters of [s] in class [p], at most [bound]. *)
Fixpoint run_length (p : N -> bool) (bound : option nat) (s : str) : nat :=
  match s with
  | [] => 0
  | c :: s' =>
      match bound with
      | Some O => 0
      | Some (S b) => if p c then S (run_length p (Some b) s') else 0
      | None => if p c then S (run_length p None s') else 0
      end
  end.

(** Greedy repetition with backtracking: try [k], [k-1], ..., [mn]
    repetitions and keep the first count for which the rest of the pattern
    matches. *)
Fixpoint try_counts (k mn : nat) (cont : str -> option nat) (s : str)
  : option nat :=
  if k <? mn then None
  else match cont (drop k s) with
       | Some m => Some (k + m)
       | None => match k with
                 | O => None
                 | S k' => try_counts k' mn cont s
                 end
       end.

(** [match_here re s]: length of the match of [re] anchored at the start of
    [s], as the backtracking matcher finds it. *)
Fixpoint match_here (re : regex) (s : str) : option nat :=
  match re with
  | [] => Some 0
  | a :: re' =>
      try_counts (run_length (cls a) (rmax a) s) (rmin a) (match_here re') s
  end.

(** [re.sub(re, repl, s)] for a replacement without group references:
    scan left to right, replace every non-overlapping match; [skip] counts
    the characters of the current match still to be consumed.  An empty
    match is replaced too and the scan advances by one character. *)
Fixpoint sub_from (re : regex) (repl : str) (s : str) (skip : nat) : str :=
  match s with
  | [] =>
      match skip with
      | O => match match_here re [] with Some _ => repl | None => [] end
      | S _ => []
      end
  | c :: s' =>
      match skip with
      | S k => sub_from re repl s' k
      | O =>
          match match_here re s with
          | Some O => repl ++ c :: sub_from re repl s' 0
          | Some (S k) => repl ++ sub_from re repl s' k
          | None => c :: sub_from re repl s' 0
          end
      end
  end.

Definition sub (re : regex) (repl : str) (s : str) : str :=
  sub_from re repl s 0.

Definition is_cr (c : N) : bool := Py.chr_eqb c Py.CR.
Definition is_lf (c : N) : bool := Py.chr_eqb c Py.LF.
(** the class [[ \t]] *)
Definition is_blank (c : N) : bool := Py.chr_eqb c Py.SP || Py.chr_eqb c Py.TAB.

(** [\r\n?] *)
Definition pat_crlf : regex := [Atom is_cr 1 (Some 1); Atom is_lf 0 (Some 1)].
(** [[ \t]+\n] *)
Definition pat_trail : regex := [Atom is_blank 1 None; Atom is_lf 1 (Some 1)].
(** [\n{3,}] *)
Definition pat_lf3 : regex := [Atom is_lf 3 None].
(** [[ \t]{2,}] *)
Definition pat_blank2 : regex := [Atom is_blank 2 None].

End Re.

(** ** clean_text (the same function in both scripts) *)

Definition clean_text (text : str) : str :=
  let text := Re.sub Re.pat_crlf [Py.LF] text in
  let text := Re.sub Re.pat_trail [Py.LF] text in
  let text := Re.sub Re.pat_lf3 [Py.LF; Py.LF] text in
  let text := Re.sub Re.pat_blank2 [Py.SP] text in
  Py.strip text.


(** ** Removing duplicates and truncating (the tail of both result sources)

    [seen = set(); out = []; for u in urls: if u not in seen: ...] *)

Fixpoint dedup_loop (urls : list str) (seen : gset str) (out : list str)
  : list str :=
  match urls with
  | [] => out
  | u :: rest =>
      if decide (u ∈ seen) then dedup_loop rest seen out
      else dedup_loop rest ({[u]} ∪ seen) (out ++ [u])
  end.

Definition dedup (urls : list str) : list str := dedup_loop urls ∅ [].

(** The slice [l[:n]]: a negative [n] counts from the end. *)
Definition slice_to {A} (l : list A) (n : Z) : list A :=
  if (n <? 0)%Z then take (Z.to_nat (Z.of_nat (length l) + n)) l
  else take (Z.to_nat n) l.

(** [unique_urls[:max_results]] after the loop above. *)
Definition dedup_truncate (urls : list str) (max_results : Z) : list str :=
  slice_to (dedup urls) max_results.

(** ** write_results (the same function in both scripts)

    The file is opened with mode "w", so it starts empty; every [f.write]
    appends to it. *)

Definition page_result : Type := str * bool * str.

Definition f_write (f data : str) : str := f ++ data.

Fixpoint write_loop (results : list page_result) (f : str) : str :=
  match results with
  | [] => f
  | (url, ok, content) :: rest =>
      let f := f_write f (Py.strip url ++ [Py.LF]) in
      let f := f_write f (Py.strip content ++ [Py.LF; Py.LF]) in
      write_loop rest f
  end.

(** The text [write_results] leaves in the output file. *)
Definition write_results_text (results : list page_result) : str :=
  write_loop results [].

(** Reading the file back, following the specification's words: the content
    is split on blank-line-separated blocks, and every block is a URL line
    followed by the content.  This reader is not part of the scripts. *)
Module Reader.

Fixpoint split_blocks (s cur : str) : list str :=
  match s with
  | [] => [cur]
  | c :: s' =>
      match s' with
      | c' :: s'' =>
          if Re.is_lf c && Re.is_lf c' then cur :: split_blocks s'' []
          else split_blocks s' (cur ++ [c])
      | [] => [cur ++ [c]]
      end
  end.

Fixpoint first_line (b line : str) : str * str :=
  match b with
  | [] => (line, [])
  | c :: b' => if Re.is_lf c then (line, b') else first_line b' (line ++ [c])
  end.

Definition read_blocks (text : str) : list (str * str) :=
  List.map (fun b => first_line b [])
           (List.filter Py.truthy (split_blocks text [])).

End Reader.

(** ** Values exchanged with the outside world *)

(** Exceptions the scripts raise or meet. *)
Inductive exn :=
| RuntimeError (msg : str)
| RequestException (msg : str)      (* requests.exceptions.RequestException *)
| JSONDecodeError (msg : str)       (* raised by r.json() *)
| OtherException (msg : str).       (* any other subclass of Exception *)

(** [str(e)] *)
Definition exn_text (e : exn) : str :=
  match e with
  | RuntimeError m | RequestException m | JSONDecodeError m
  | OtherException m => m
  end.

(** Response of [requests.get] on a page. *)
Record response := Response {
  status_code : Z;
  content_type : option str;     (* resp.headers.get("Content-Type") *)
  text : str
}.

Inductive http_outcome :=
| HttpResponse (r : response)
| HttpError (msg : str)            (* requests.get raised RequestException *)
| HttpCrash (msg : str).           (* requests.get raised another exception,
                                      as urllib3's LocationParseError on a
                                      malformed URL *)

(** One element of [items] in the JSON answer of the search API. *)
Record item := Item { item_link : option str }.   (* it.get("link") *)

Record api_response := ApiResponse {
  api_status : Z;
  api_text : str;
  (* r.json() and data.get("items", []): the exception raised when the body
     does not decode to an object, else its "items" when it has this key *)
  api_json : exn + option (list item)
}.

Inductive api_outcome :=
| ApiAnswer (r : api_response)
| ApiError (msg : str).            (* requests.get raised RequestException *)

Record search_params := SearchParams {
  p_key : str; p_cx : str; p_q : str; p_num : Z; p_start : Z
}.

(** Entries of a parsed feed, as [feedparser] exposes them. *)
Record feed_link := FeedLink {
  l_href : option str;           (* l.get("href") *)
  l_rel : option str             (* l.get("rel") *)
}.

Record feed_source := FeedSource { s_href : option str }.

Record entry := Entry {
  e_source : option feed_source; (* entry.get("source") *)
  e_summary : option str;        (* entry.get("summary") *)
  e_links : option (list feed_link);
  e_link : option str
}.

(** External calls, with what they returned. *)
Inductive event :=
| EvSearch (p : search_params) (r : api_outcome)
| EvGet (url : str) (r : http_outcome)
| EvFeed (rss_url : str) (entries : list entry)
| EvGoto (url : str) (err : option exn)
| EvClickRole (name : str) (clicked : bool)
| EvClickText (txt : str) (clicked : bool)
| EvContent (r : exn + str)
| EvSleep (ms : Z)
| EvWrite (path : str) (data : str) (err : option exn).

(** The environment of a run: the state of the outside world with the calls
    that act on it, and the library functions the scripts apply to data. *)
Record Env := {
  World : Type;
  (* requests.get on the Custom Search endpoint *)
  api_get : World -> search_params -> api_outcome * World;
  (* requests.get(url, headers=..., timeout=..., allow_redirects=True) *)
  http_get : World -> str -> http_outcome * World;
  (* with open(path, "w", encoding="utf-8") as f: f.write(...) ..., given the
     path and the text of the writes; the exception raised by open or by a
     write, if any (what the file holds after a failure is left to the
     world) *)
  fs_write : World -> str -> str -> option exn * World;
  (* feedparser.parse(rss_url).entries *)
  feed_parse : World -> str -> list entry * World;
  (* sync_playwright, chromium.launch, new_page, page.goto *)
  pw_goto : World -> str -> option exn * World;
  (* page.get_by_role("button", name=txt).click(timeout=1500) *)
  pw_click_role : World -> str -> bool * World;
  (* page.get_by_text(txt, exact=False).first.click(timeout=1500) *)
  pw_click_text : World -> str -> bool * World;
  (* page.content() followed by browser.close() *)
  pw_content : World -> (exn + str) * World;
  (* BeautifulSoup(html, "html.parser"), decompose the listed tags,
     get_text(separator="\n") *)
  bs4_text : list str -> str -> exn + str;
  (* BeautifulSoup(summary, "html.parser").find("a", href=True).get("href") *)
  bs4_first_href : str -> option str;
  (* readability.Document(html).summary(html_partial=True) *)
  readability_summary : str -> exn + str;
  (* str.lower and urllib.parse.quote *)
  str_lower : str -> str;
  url_quote : str -> str
}.
Existing Class Env.

(** ** A monad for the scripts: world state, trace, exceptions *)

Inductive outcome (A : Type) :=
| Ret (a : A)
| Raise (e : exn)
| OutOfFuel.
Arguments Ret {A} a.
Arguments Raise {A} e.
Arguments OutOfFuel {A}.

Record run (W A : Type) := Run {
  res : outcome A;
  final : W;
  events : list event
}.
Arguments Run {W A} res final events.
Arguments res {W A} r.
Arguments final {W A} r.
Arguments events {W A} r.

Section Monad.
Context {E : Env}.

Definition M (A : Type) : Type := World E -> run (World E) A.

Definition ret {A} (a : A) : M A := fun w => Run (Ret a) w [].
Definition raise {A} (e : exn) : M A := fun w => Run (Raise e) w [].
Definition out_of_fuel {A} : M A := fun w => Run OutOfFuel w [].

Definition bind {A B} (m : M A) (k : A -> M B) : M B := fun w =>
  let r := m w in
  match res r with
  | Ret a => let r2 := k a (final r) in
             Run (res r2) (final r2) (events r ++ events r2)
  | Raise e => Run (Raise e) (final r) (events r)
  | OutOfFuel => Run OutOfFuel (final r) (events r)
  end.

(** [try: m except <class> as e: h e]; [h] returns [None] on the
    exceptions the clause does not catch. *)
Definition try_except {A} (m : M A) (h : exn -> option (M A)) : M A :=
  fun w =>
  let r := m w in
  match res r with
  | Raise e =>
      match h e with
      | Some k => let r2 := k (final r) in
                  Run (res r2) (final r2) (events r ++ events r2)
      | None => r
      end
  | _ => r
  end.

(** A call to the outside world, recorded in the trace. *)
Definition call {A} (f : World E -> A * World E) (ev : A -> event) : M A :=
  fun w => let (a, w') := f w in Run (Ret a) w' [ev a].

(** A library function that returns or raises. *)
Definition lift {A} (r : exn + A) : M A :=
  match r with inl e => raise e | inr a => ret a end.

Definition emit (ev : event) : M unit := fun w => Run (Ret tt) w [ev].

(** [time.sleep(seconds)], in milliseconds *)
Definition sleep (ms : Z) : M unit := emit (EvSleep ms).
End Monad.

Notation "'let!' x ':=' m 'in' k" := (bind m (fun x => k))
  (at level 10, x pattern, m at level 100, k at level 200).

(** The fixed marker of an inaccessible page. *)
Definition INACCESSIBLE : str := Eval cbv in Py.lit "[INACCESSIBLE]".

Definition msg_http : str := Eval cbv in Py.lit "[INACCESSIBLE] HTTP ".
Definition msg_ctype : str :=
  Eval cbv in Py.lit "[INACCESSIBLE] Content-Type non HTML: ".
Definition msg_empty : str :=
  Eval cbv in Py.lit "[INACCESSIBLE] Contenu vide ou non extractible".
(** "[INACCESSIBLE] Erreur réseau: " *)
Definition msg_network : str :=
  Eval cbv in Py.lit "[INACCESSIBLE] Erreur r" ++ [233%N] ++ Py.lit "seau: ".
Definition msg_extraction : str :=
  Eval cbv in Py.lit "[INACCESSIBLE] Erreur extraction: ".
Definition msg_playwright : str :=
  Eval cbv in Py.lit "[INACCESSIBLE] Playwright: ".
(** "[INACCESSIBLE] Lien Google/consentement ignoré" *)
Definition msg_ignored : str :=
  Eval cbv in Py.lit "[INACCESSIBLE] Lien Google/consentement ignor" ++ [233%N].

Definition TEXT_HTML : str := Eval cbv in Py.lit "text/html".
Definition XHTML : str := Eval cbv in Py.lit "application/xhtml+xml".
Definition HTTP : str := Eval cbv in Py.lit "http".
Definition NEWS_GOOGLE : str := Eval cbv in Py.lit "news.google.com".

(** [requests.get(url, ...)] on a page: returns the response or raises. *)
Definition requests_get {E : Env} (url : str) : M response :=
  let! o := call (fun w => http_get E w url) (EvGet url) in
  match o with
  | HttpResponse r => ret r
  | HttpError msg => raise (RequestException msg)
  | HttpCrash msg => raise (OtherException msg)
  end.

(** The classification of a response shared by [extract_page_text] of
    Google100.py and [fetch_html_requests] of GoogleNews100.py. *)
Definition not_html (ctype : str) : bool :=
  negb (Py.contains TEXT_HTML ctype) && negb (Py.contains XHTML ctype).

(** ** Google100.py *)

Module Google100.

Definition KEYWORDS : list str :=
  Eval cbv in [Py.lit "pneumologie"; Py.lit "pneumologue"].
Definition OUTPUT_FILE : str :=
  Eval cbv in Py.lit "C:/PYTHON/.data/Google_recherche_resultat.txt".
Definition RESULTS_PER_KEYWORD : Z := 100.
(** SLEEP_BETWEEN_REQUESTS_SEC = 1.0 *)
Definition SLEEP_BETWEEN_REQUESTS_MS : Z := 1000.

Definition TAGS : list str :=
  Eval cbv in List.map Py.lit
    ["script"; "style"; "noscript"; "header"; "footer"; "nav"; "aside"]%string.

(** f"Erreur API Google (status {r.status_code}) pour '{query}': {r.text}" *)
Definition api_error_message (query : str) (r : api_response) : str :=
  Py.lit "Erreur API Google (status " ++ Py.str_of_Z (api_status r)
  ++ Py.lit ") pour '" ++ query ++ Py.lit "': " ++ api_text r.

(** [for it in items: ...] inside the pagination loop *)
Fixpoint collect_links (items : list item) (urls : list str) (max_results : Z)
  : list str :=
  match items with
  | [] => urls
  | it :: rest =>
      match item_link it with
      | Some link =>
          if Py.truthy link then
            let urls := urls ++ [link] in
            if (Z.of_nat (length urls) >=? max_results)%Z then urls
            else collect_links rest urls max_results
          else collect_links rest urls max_results
      | None => collect_links rest urls max_results
      end
  end.

Section Pipeline.
Context {E : Env}.

(** The [while len(urls) < max_results] loop of [google_custom_search];
    [fuel] bounds the number of iterations of the model. *)
Fixpoint search_loop (fuel : nat) (query api_key cx : str) (max_results : Z)
    (urls : list str) (start : Z) : M (list str) :=
  match fuel with
  | O => out_of_fuel
  | S fuel' =>
      if (Z.of_nat (length urls) <? max_results)%Z then
        let params := SearchParams api_key cx query 10 start in
        let! o := call (fun w => api_get E w params) (EvSearch params) in
        match o with
        | ApiError msg => raise (RequestException msg)
        | ApiAnswer r =>
            if negb (api_status r =? 200)%Z then
              raise (RuntimeError (api_error_message query r))
            else
              let! data := lift (api_json r) in
              match default [] data with
              | [] => ret urls
              | items =>
                  let urls := collect_links items urls max_results in
                  let start := (start + 10)%Z in
                  if (start >? 91)%Z then ret urls
                  else
                    let! _ := sleep SLEEP_BETWEEN_REQUESTS_MS in
                    search_loop fuel' query api_key cx max_results urls start
              end
        end
      else ret urls
  end.

Definition google_custom_search (fuel : nat) (query api_key cx : str)
    (max_results : Z) : M (list str) :=
  let! urls := search_loop fuel query api_key cx max_results [] 1%Z in
  ret (dedup_truncate urls max_results).

Definition extract_page_text (url : str) : M (bool * str) :=
  try_except
    (let! resp := requests_get url in
     if (status_code resp >=? 400)%Z then
       ret (false, msg_http ++ Py.str_of_Z (status_code resp))
     else
       let ctype := default [] (content_type resp) in
       if not_html ctype then ret (false, msg_ctype ++ ctype)
       else
         let! text := lift (bs4_text E TAGS (text resp)) in
         let text := clean_text text in
         if negb (Py.truthy text) then ret (false, msg_empty)
         else ret (true, text))
    (fun e =>
       match e with
       | RequestException msg => Some (ret (false, msg_network ++ msg))
       | _ => None
       end).

(** [write_results]: the file receives the text of [write_loop], unless
    [open] or a write raises, which [write_results] lets through. *)
Definition write_results (output_file : str) (results : list page_result)
  : M unit :=
  let data := write_results_text results in
  let! err := call (fun w => fs_write E w output_file data)
                (EvWrite output_file data) in
  match err with
  | Some e => raise e
  | None => ret tt
  end.

(** [for i, url in enumerate(urls, start=1): ...] of [main] *)
Fixpoint main_urls (urls : list str) (all_results : list page_result)
    (already_done : gset str) : M (list page_result * gset str) :=
  match urls with
  | [] => ret (all_results, already_done)
  | url :: rest =>
      if decide (url ∈ already_done) then
        main_urls rest all_results already_done
      else
        let already_done := {[url]} ∪ already_done in
        let! (ok, content) := extract_page_text url in
        let all_results := all_results ++ [(url, ok, content)] in
        let! _ := sleep SLEEP_BETWEEN_REQUESTS_MS in
        main_urls rest all_results already_done
  end.

(** [for kw in KEYWORDS: ...] of [main] *)
Fixpoint main_keywords (fuel : nat) (keywords : list str) (api_key cx : str)
    (max_results : Z) (all_results : list page_result)
    (already_done : gset str) : M (list page_result * gset str) :=
  match keywords with
  | [] => ret (all_results, already_done)
  | kw :: rest =>
      let! urls := google_custom_search fuel kw api_key cx max_results in
      let! (all_results, already_done) :=
        main_urls urls all_results already_done in
      main_keywords fuel rest api_key cx max_results all_results already_done
  end.

(** [main], with the module constants passed as arguments; it returns
    [all_results]. *)
Definition main (fuel : nat) (keywords : list str) (api_key cx : str)
    (max_results : Z) (output_file : str) : M (list page_result) :=
  let! (all_results, _) :=
    main_keywords fuel keywords api_key cx max_results [] ∅ in
  let! _ := write_results output_file all_results in
  ret all_results.
End Pipeline.

End Google100.

(** ** GoogleNews100.py *)

Module GoogleNews100.

Definition KEYWORDS : list str := Eval cbv in [Py.lit "pneumologie"].
Definition OUTPUT_FILE : str :=
  Eval cbv in Py.lit "C:/PYTHON/.data/Google_news_resultat.txt".
Definition RESULTS_PER_KEYWORD : Z := 10.
Definition SLEEP_BETWEEN_REQUESTS_MS : Z := 1000.
Definition NEWS_HL : str := Eval cbv in Py.lit "fr".
Definition NEWS_GL : str := Eval cbv in Py.lit "FR".
Definition NEWS_CEID : str := Eval cbv in Py.lit "FR:fr".

Definition TAGS : list str :=
  Eval cbv in List.map Py.lit ["script"; "style"; "noscript"]%string.

Definition ALTERNATE : str := Eval cbv in Py.lit "alternate".

Definition URL_MARKS : list str :=
  Eval cbv in List.map Py.lit
    ["news.google.com"; "consent.google"; "accounts.google.com";
     "google.com/sorry"]%string.

(** The last trigger is "paramètres de confidentialité". *)
Definition TRIGGERS : list str :=
  Eval cbv in
    List.map Py.lit
      ["before you continue"; "we use cookies"; "cookies and data";
       "consent"; "privacy"; "reject all"; "accept all"; "tout accepter";
       "tout refuser"; "j'accepte"; "accepter"; "refuser"]%string
    ++ [Py.lit "param" ++ [232%N] ++ Py.lit "tres de confidentialit"
        ++ [233%N]].

Definition BUTTON_TEXTS : list str :=
  Eval cbv in List.map Py.lit
    ["Accept all"; "Reject all"; "Tout accepter"; "Tout refuser";
     "J'accepte"; "Je refuse"; "Accepter"; "Refuser"; "I agree"; "I accept";
     "Agree"; "Accept"]%string.

Definition FALLBACK_TEXTS : list str :=
  Eval cbv in List.map Py.lit
    ["Accept"; "Accepter"; "Tout accepter"; "I agree"; "J'accepte"]%string.

(** [href and href.startswith("http")] *)
Definition well_formed (href : option str) : bool :=
  match href with
  | Some h => Py.truthy h && Py.startswith h HTTP
  | None => false
  end.

(** [for l in links: ...] of [extract_real_article_url] *)
Fixpoint first_alternate (links : list feed_link) : option str :=
  match links with
  | [] => None
  | l :: rest =>
      if bool_decide (l_rel l = Some ALTERNATE) && well_formed (l_href l) then
        match l_href l with
        | Some href =>
            if negb (Py.contains NEWS_GOOGLE href) then Some href
            else first_alternate rest
        | None => first_alternate rest
        end
      else first_alternate rest
  end.

Section Pipeline.
Context {E : Env}.

Definition is_google_or_consent_url (url : str) : bool :=
  let u := str_lower E url in
  existsb (fun m => Py.contains m u) URL_MARKS.

Definition looks_like_cookie_consent_page (text_or_html : str) : bool :=
  let t := str_lower E text_or_html in
  existsb (fun x => Py.contains x t) TRIGGERS.

Definition rss_url (query : str) : str :=
  Py.lit "https://news.google.com/rss/search?q=" ++ url_quote E query
  ++ Py.lit "&hl=" ++ NEWS_HL ++ Py.lit "&gl=" ++ NEWS_GL
  ++ Py.lit "&ceid=" ++ NEWS_CEID.

(** [google_news_rss(query).entries] *)
Definition google_news_rss (query : str) : M (list entry) :=
  let u := rss_url query in
  call (fun w => feed_parse E w u) (EvFeed u).

Definition extract_publisher_url_from_summary (e : entry) : option str :=
  let summary := default [] (e_summary e) in
  if negb (Py.truthy summary) then None
  else
    match bs4_first_href E summary with
    | Some href =>
        if Py.startswith href HTTP && negb (Py.contains NEWS_GOOGLE href)
        then Some href
        else None
    | None => None
    end.

Definition extract_real_article_url (e : entry) : option str :=
  let step1 :=
    match e_source e with
    | Some src => if well_formed (s_href src) then s_href src else None
    | None => None
    end in
  match step1 with
  | Some href => Some href
  | None =>
      match extract_publisher_url_from_summary e with
      | Some u => Some u
      | None =>
          match first_alternate (default [] (e_links e)) with
          | Some href => Some href
          | None =>
              if well_formed (e_link e) then e_link e else None
          end
      end
  end.

(** [for entry in feed.entries: ...] of [search_google_news_urls] *)
Fixpoint feed_loop (entries : list entry) (urls : list str) (max_results : Z)
  : list str :=
  match entries with
  | [] => urls
  | e :: rest =>
      let urls :=
        match extract_real_article_url e with
        | Some u => if Py.truthy u then urls ++ [u] else urls
        | None => urls
        end in
      if (Z.of_nat (length urls) >=? max_results)%Z then urls
      else feed_loop rest urls max_results
  end.

Definition search_google_news_urls (query : str) (max_results : Z)
  : M (list str) :=
  let! entries := google_news_rss query in
  let urls := feed_loop entries [] max_results in
  ret (dedup_truncate urls max_results).

Definition html_to_text (html : str) : M str :=
  let! t := lift (bs4_text E TAGS html) in
  ret (clean_text t).

Definition extract_text_from_html (html : str) : M (bool * str) :=
  try_except
    (let! article_html := lift (readability_summary E html) in
     let! text := html_to_text article_html in
     if negb (Py.truthy text) then ret (false, msg_empty)
     else ret (true, text))
    (fun e => Some (ret (false, msg_extraction ++ exn_text e))).

Definition fetch_html_requests (url : str) : M (bool * str) :=
  try_except
    (let! resp := requests_get url in
     if (status_code resp >=? 400)%Z then
       ret (false, msg_http ++ Py.str_of_Z (status_code resp))
     else
       let ctype := default [] (content_type resp) in
       if not_html ctype then ret (false, msg_ctype ++ ctype)
       else ret (true, text resp))
    (fun e =>
       match e with
       | RequestException msg => Some (ret (false, msg_network ++ msg))
       | _ => None
       end).

(** [for txt in button_texts: try: click; sleep(1.0); break
    except Exception: pass] *)
Fixpoint click_buttons (texts : list str) : M unit :=
  match texts with
  | [] => ret tt
  | txt :: rest =>
      let! clicked :=
        call (fun w => pw_click_role E w txt) (EvClickRole txt) in
      if clicked then sleep 1000 else click_buttons rest
  end.

Fixpoint click_texts (texts : list str) : M unit :=
  match texts with
  | [] => ret tt
  | txt :: rest =>
      let! clicked :=
        call (fun w => pw_click_text E w txt) (EvClickText txt) in
      if clicked then sleep 1000 else click_texts rest
  end.

Definition fetch_html_playwright (url : str) : M (bool * str) :=
  try_except
    (let! err := call (fun w => pw_goto E w url) (EvGoto url) in
     match err with
     | Some e => raise e
     | None =>
         let! _ := click_buttons BUTTON_TEXTS in
         let! _ := click_texts FALLBACK_TEXTS in
         let! r := call (pw_content E) EvContent in
         let! html := lift r in
         ret (true, html)
     end)
    (fun e => Some (ret (false, msg_playwright ++ exn_text e))).

Definition extract_page_text (url : str) : M (bool * str) :=
  let! (ok_html, html_or_err) := fetch_html_requests url in
  if negb ok_html then ret (false, html_or_err)
  else if looks_like_cookie_consent_page html_or_err then
    let! (ok_pw, html_pw_or_err) := fetch_html_playwright url in
    if negb ok_pw then ret (false, html_pw_or_err)
    else extract_text_from_html html_pw_or_err
  else extract_text_from_html html_or_err.

Definition write_results (output_file : str) (results : list page_result)
  : M unit :=
  let data := write_results_text results in
  let! err := call (fun w => fs_write E w output_file data)
                (EvWrite output_file data) in
  match err with
  | Some e => raise e
  | None => ret tt
  end.

(** [for i, url in enumerate(urls, start=1): ...] of [main] *)
Fixpoint main_urls (urls : list str) (all_results : list page_result)
    (already_done : gset str) : M (list page_result * gset str) :=
  match urls with
  | [] => ret (all_results, already_done)
  | url :: rest =>
      if decide (url ∈ already_done) then
        main_urls rest all_results already_done
      else
        let already_done := {[url]} ∪ already_done in
        if is_google_or_consent_url url then
          let all_results := all_results ++ [(url, false, msg_ignored)] in
          main_urls rest all_results already_done
        else
          let! (ok, content) := extract_page_text url in
          let all_results := all_results ++ [(url, ok, content)] in
          let! _ := sleep SLEEP_BETWEEN_REQUESTS_MS in
          main_urls rest all_results already_done
  end.

(** [for kw in KEYWORDS: ...] of [main] *)
Fixpoint main_keywords (keywords : list str) (max_results : Z)
    (all_results : list page_result) (already_done : gset str)
  : M (list page_result * gset str) :=
  match keywords with
  | [] => ret (all_results, already_done)
  | kw :: rest =>
      let! urls := search_google_news_urls kw max_results in
      let! (all_results, already_done) :=
        main_urls urls all_results already_done in
      main_keywords rest max_results all_results already_done
  end.

Definition main (keywords : list str) (max_results : Z) (output_file : str)
  : M (list page_result) :=
  let! (all_results, _) := main_keywords keywords max_results [] ∅ in
  let! _ := write_results output_file all_results in
  ret all_results.
End Pipeline.

End GoogleNews100.

(** ** Predicates used to state the properties *)

(** [starts ps s]: the first characters of [s] are in the classes [ps], in
    this order; [occurs ps s]: this holds somewhere in [s]. *)
Fixpoint starts (ps : list (N -> bool)) (s : str) : bool :=
  match ps, s with
  | [], _ => true
  | _ :: _, [] => false
  | p :: ps', c :: s' => p c && starts ps' s'
  end.

Fixpoint occurs (ps : list (N -> bool)) (s : str) : bool :=
  starts ps s ||
  match s with
  | [] => false
  | _ :: s' => occurs ps s'
  end.

(** What the reader needs of a page to find it again. *)
Definition readable (r : page_result) : Prop :=
  Py.strip r.1.1 <> []
  /\ Forall (fun ch => Re.is_lf ch = false) (Py.strip r.1.1)
  /\ Py.strip r.2 <> []
  /\ occurs [Re.is_lf; Re.is_lf] (Py.strip r.2) = false.

Module ReSpec.
Import Re.

(** no suffix of [s], the empty one included, matches [re] *)
Fixpoint no_match (re : regex) (s : str) : Prop :=
  match_here re s = None /\
  match s with [] => True | _ :: s' => no_match re s' end.

(** The four substitutions of [clean_text]. *)
Definition sub_crlf := sub pat_crlf [Py.LF].
Definition sub_trail := sub pat_trail [Py.LF].
Definition sub_lf3 := sub pat_lf3 [Py.LF; Py.LF].
Definition sub_blank2 := sub pat_blank2 [Py.SP].

(** blank then newline; two blanks; three newlines *)
Definition BN := [is_blank; is_lf].
Definition BB := [is_blank; is_blank].
Definition NNN := [is_lf; is_lf; is_lf].

(** The text before [strip] in [clean_text]. *)
Definition normal (s : str) : Prop :=
  occurs [is_cr] s = false /\ occurs BN s = false /\
  occurs NNN s = false /\ occurs BB s = false.

(** A non-empty text without any whitespace character. *)
Definition word (x : str) : Prop :=
  x <> [] /\ Forall (fun c => Py.isspace c = false) x.

End ReSpec.

(** ** Predicates on runs *)

(** The invariant of a page result: a page that was read has a content, a
    page that was not carries the marker. *)
Definition page_ok (r : page_result) : Prop :=
  match r with
  | (_, true, content) => content <> []
  | (_, false, content) => Py.startswith content INACCESSIBLE = true
  end.

(** The result of a fetch is marked when it failed. *)
Definition fetch_ok (r : bool * str) : Prop :=
  r.1 = false -> Py.startswith r.2 INACCESSIBLE = true.

(** Every normal result of [m] satisfies [Q]. *)
Definition post {E : Env} {A} (m : M A) (Q : A -> Prop) : Prop :=
  forall w a, res (m w) = Ret a -> Q a.

(** [m] returns normally in every world, with a result in [Q]. *)
Definition returns {E : Env} {A} (m : M A) (Q : A -> Prop) : Prop :=
  forall w, exists a, res (m w) = Ret a /\ Q a.

(** An API request that did not come back as a decodable answer with
    status 200. *)
Definition api_failed (o : api_outcome) : bool :=
  match o with
  | ApiError _ => true
  | ApiAnswer r =>
      negb (api_status r =? 200)%Z
      || match api_json r with inl _ => true | inr _ => false end
  end.

(** An API page that came back with a status other than 200. *)
Definition api_bad_status (o : api_outcome) : bool :=
  match o with
  | ApiError _ => false
  | ApiAnswer r => negb (api_status r =? 200)%Z
  end.

(** An API page that came back without items. *)
Definition api_no_items (o : api_outcome) : bool :=
  match o with
  | ApiAnswer r =>
      match api_json r with
      | inr data => match default [] data with [] => true | _ => false end
      | inl _ => false
      end
  | ApiError _ => false
  end.

(** The API requests of a trace, in order. *)
Fixpoint searches (evs : list event) : list (search_params * api_outcome) :=
  match evs with
  | [] => []
  | EvSearch p r :: evs' => (p, r) :: searches evs'
  | _ :: evs' => searches evs'
  end.

(** The feeds of a trace, in order. *)
Fixpoint feeds (evs : list event) : list (list entry) :=
  match evs with
  | [] => []
  | EvFeed _ entries :: evs' => entries :: feeds evs'
  | _ :: evs' => feeds evs'
  end.

(** The offsets 1, 11, ..., 91 of the search API. *)
Definition OFFSETS : list Z := [1; 11; 21; 31; 41; 51; 61; 71; 81; 91]%Z.

(** ** Environments used in the examples

    A world without state; the HTML parser and readability return their
    input, and the browser cannot be started. *)
Module Demo.

Definition env (api : search_params -> api_outcome)
    (http : str -> http_outcome) (feed : str -> list entry) : Env :=
  {| World := unit;
     api_get := fun w p => (api p, w);
     http_get := fun w url => (http url, w);
     fs_write := fun w _ _ => (None, w);
     feed_parse := fun w u => (feed u, w);
     pw_goto := fun w _ => (Some (OtherException (Py.lit "no browser")), w);
     pw_click_role := fun w _ => (false, w);
     pw_click_text := fun w _ => (false, w);
     pw_content := fun w => (inr [], w);
     bs4_text := fun _ html => inr html;
     bs4_first_href := fun _ => None;
     readability_summary := fun html => inr html;
     str_lower := Py.ascii_lower;
     url_quote := fun q => q |}.

Definition A : str := Eval cbv in Py.lit "http://a".
Definition B : str := Eval cbv in Py.lit "http://b".
Definition C : str := Eval cbv in Py.lit "http://c".
Definition D : str := Eval cbv in Py.lit "http://d".
Definition BLANK : str := Eval cbv in Py.lit "http://blank".
Definition PDF : str := Eval cbv in Py.lit "application/pdf".

Definition page (body : string) : http_outcome :=
  HttpResponse (Response 200 (Some TEXT_HTML) (Py.lit body)).

(** http://a answers "hello", http://b answers 500, http://c is a PDF,
    http://d answers 404 with the content type of a PDF, http://blank
    answers a page that holds one space, any other request fails in
    transport. *)
Definition http (url : str) : http_outcome :=
  if bool_decide (url = A) then page "hello"
  else if bool_decide (url = B) then
    HttpResponse (Response 500 (Some TEXT_HTML) [])
  else if bool_decide (url = C) then
    HttpResponse (Response 200 (Some PDF) (Py.lit "%PDF"))
  else if bool_decide (url = D) then
    HttpResponse (Response 404 (Some PDF) [])
  else if bool_decide (url = BLANK) then page " "
  else HttpError (Py.lit "timeout").

Definition answer (links : list str) : api_outcome :=
  ApiAnswer (ApiResponse 200 []
    (inr (Some (List.map (fun l => Item (Some l)) links)))).

(** First page [a, a, b], then nothing. *)
Definition api_dup (p : search_params) : api_outcome :=
  if (p_start p =? 1)%Z then answer [A; A; B] else answer [].

(** Every page has ten links without a URL, so that the loop goes through
    all the offsets. *)
Definition api_blank (p : search_params) : api_outcome :=
  ApiAnswer (ApiResponse 200 [] (inr (Some (repeat (Item None) 10)))).

(** The API cannot be reached. *)
Definition api_down (p : search_params) : api_outcome :=
  ApiError (Py.lit "connection refused").

Definition entry_of (url : str) : entry :=
  Entry (Some (FeedSource (Some url))) None None None.

Definition feed_dup (u : str) : list entry := [entry_of A; entry_of A; entry_of B].

(** 150 distinct URLs followed by two of them again *)
Definition urls150 : list str :=
  List.map (fun n => Py.lit "http://u/" ++ Py.str_of_N (N.of_nat n)) (seq 0 150)
  ++ [Py.lit "http://u/0"; Py.lit "http://u/7"].

(** an entry with a source and a summary whose first anchor is http://c *)
Definition entry_both : entry :=
  Entry (Some (FeedSource (Some A))) (Some (Py.lit "<a href=http://c>c</a>"))
        None None.

(** The same environment with a summary parser that finds http://c. *)
Definition E_anchor : Env :=
  {| World := unit;
     api_get := fun w p => (api_dup p, w);
     http_get := fun w url => (http url, w);
     fs_write := fun w _ _ => (None, w);
     feed_parse := fun w u => ([entry_both], w);
     pw_goto := fun w _ => (Some (OtherException (Py.lit "no browser")), w);
     pw_click_role := fun w _ => (false, w);
     pw_click_text := fun w _ => (false, w);
     pw_content := fun w => (inr [], w);
     bs4_text := fun _ html => inr html;
     bs4_first_href := fun _ => Some C;
     readability_summary := fun html => inr html;
     str_lower := Py.ascii_lower;
     url_quote := fun q => q |}.

Definition pages : list page_result :=
  [(Py.lit " http://a ", true, Py.lit "hello");
   (Py.lit "http://b", false, Py.lit "[INACCESSIBLE] x")].

Definition E_dup : Env := env api_dup http feed_dup.
Definition E_blank : Env := env api_blank http feed_dup.
Definition E_down : Env := env api_down http feed_dup.

End Demo.

(** ** The four sources of an article URL, in the words of the
    specification *)
Module FeedSpec.

(** an absolute HTTP(S) URL, as the script tests it *)
Definition absolute (h : str) : Prop :=
  h <> [] /\ Py.startswith h HTTP = true.

Definition off_aggregator (h : str) : Prop :=
  Py.contains NEWS_GOOGLE h = false.

(** (1) the publisher-source link *)
Definition source_link (e : entry) (h : str) : Prop :=
  exists src, e_source e = Some src /\ s_href src = Some h /\ absolute h.

(** (2) the first anchor of the summary *)
Definition summary_link {E : Env} (e : entry) (a : str) : Prop :=
  exists s, e_summary e = Some s /\ s <> []
            /\ bs4_first_href E s = Some a
            /\ Py.startswith a HTTP = true /\ off_aggregator a.

Definition alternate_ok (l : feed_link) (h : str) : Prop :=
  l_rel l = Some GoogleNews100.ALTERNATE /\ l_href l = Some h
  /\ absolute h /\ off_aggregator h.

(** (3) the first alternate link that is accepted *)
Definition alternate_link (e : entry) (h : str) : Prop :=
  exists links pre l post,
    e_links e = Some links /\ links = pre ++ l :: post
    /\ alternate_ok l h
    /\ Forall (fun l' => forall h', ~ alternate_ok l' h') pre.

(** (4) the link of the entry itself *)
Definition own_link (e : entry) (h : str) : Prop :=
  e_link e = Some h /\ absolute h.

End FeedSpec.

(** The offsets requested in a trace. *)
Definition request_starts (evs : list event) : list Z :=
  List.map (fun x => p_start x.1) (searches evs).

(** [n] offsets from the [i]-th one: 1 + 10 i, 1 + 10 (i + 1), ... *)
Definition offsets_from (i n : nat) : list Z :=
  List.map (fun j => (1 + 10 * Z.of_nat j)%Z) (seq i n).

(** Some API request of the trace failed. *)
Definition some_api_failure (evs : list event) : bool :=
  existsb (fun x => api_failed x.2) (searches evs).

(** An API request that failed. *)
Definition is_api_failure (ev : event) : bool :=
  match ev with EvSearch _ o => api_failed o | _ => false end.

(** Some API page of the trace came back with a status other than 200. *)
Definition some_bad_status (evs : list event) : bool :=
  existsb (fun x => api_bad_status x.2) (searches evs).

(** The items of an API answer. *)
Definition answer_items (o : api_outcome) : list item :=
  match o with
  | ApiAnswer r =>
      match api_json r with
      | inr data => default [] data
      | inl _ => []
      end
  | ApiError _ => []
  end.

(** The list collected from [urls] once the answers of a trace have been
    gone through, page after page. *)
Definition collected (max_results : Z) (urls : list str) (evs : list event)
  : list str :=
  fold_left
    (fun urls x => Google100.collect_links (answer_items x.2) urls max_results)
    (searches evs) urls.

(** A page request on which [requests.get] raised an exception that is not
    a [RequestException]. *)
Definition is_crash (ev : event) : bool :=
  match ev with EvGet _ (HttpCrash _) => true | _ => false end.

Definition some_page_crash (evs : list event) : bool := existsb is_crash evs.

(** An attempt to write the output file that raised. *)
Definition is_write_failure (ev : event) : bool :=
  match ev with EvWrite _ _ (Some _) => true | _ => false end.

Definition write_failed (evs : list event) : bool :=
  existsb is_write_failure evs.

(** The last API page of the trace had no items. *)
Definition last_page_empty (evs : list event) : Prop :=
  exists x, last (searches evs) = Some x /\ api_no_items x.2 = true.

Definition raised {W A} (r : run W A) : Prop := exists e, res r = Raise e.

(** [m] never runs out of fuel. *)
Definition fuel_free {E : Env} {A} (m : M A) : Prop :=
  forall w, res (m w) <> OutOfFuel.

(** [m] does not read the feed. *)
Definition feedless {E : Env} {A} (m : M A) : Prop :=
  forall w, feeds (events (m w)) = [].

(** The URLs the feed source returned during a trace, keyword after
    keyword. *)
Definition feed_urls {E : Env} (max_results : Z) (evs : list event)
  : list str :=
  concat (List.map
    (fun entries =>
       dedup_truncate (GoogleNews100.feed_loop entries [] max_results)
         max_results)
    (feeds evs)).

Definition url_of (r : page_result) : str := r.1.1.

(** ** Further predicates on texts and traces *)

(** The characters of a text that are not whitespace, in order. *)
Definition visible (s : str) : str :=
  List.filter (fun c => negb (Py.isspace c)) s.

(** The links of the items of an API answer, in rank order. *)
Definition answer_links (o : api_outcome) : list str :=
  match o with
  | ApiAnswer r =>
      match api_json r with
      | inr data => omap item_link (default [] data)
      | inl _ => []
      end
  | ApiError _ => []
  end.

(** The links of all the API answers of a trace. *)
Definition trace_links (evs : list event) : list str :=
  concat (List.map (fun x => answer_links x.2) (searches evs)).

(** A trace of API requests in which every request but the last is followed
    by a pause of one second (the last one may be), and nothing else
    happens. *)
Fixpoint paced (evs : list event) : bool :=
  match evs with
  | [] => true
  | EvSearch _ _ :: rest =>
      match rest with
      | [] => true
      | EvSleep ms :: rest' => (ms =? 1000)%Z && paced rest'
      | _ => false
      end
  | _ => false
  end.

(** Kinds of events. *)
Definition is_get (ev : event) : bool :=
  match ev with EvGet _ _ => true | _ => false end.

Definition is_write (ev : event) : bool :=
  match ev with EvWrite _ _ _ => true | _ => false end.

Definition is_browser (ev : event) : bool :=
  match ev with
  | EvGoto _ _ | EvClickRole _ _ | EvClickText _ _ | EvContent _ => true
  | _ => false
  end.

(** The URLs of the page requests of a trace, in order. *)
Fixpoint gets (evs : list event) : list str :=
  match evs with
  | [] => []
  | EvGet url _ :: evs' => url :: gets evs'
  | _ :: evs' => gets evs'
  end.

(** No event of kind [K] happens during [m]. *)
Definition avoids {E : Env} {A} (K : event -> bool) (m : M A) : Prop :=
  forall w, List.filter K (events (m w)) = [].

(** One pass of clicks over [texts]: every attempt fails, or the attempts
    fail up to one that succeeds, which is followed by a pause of one second
    and ends the pass. *)
Definition click_pass (mk : str -> bool -> event) (texts : list str)
    (p : list event) : Prop :=
  p = List.map (fun t => mk t false) texts
  \/ exists pre t post,
       texts = pre ++ t :: post
       /\ p = List.map (fun t => mk t false) pre ++ [mk t true; EvSleep 1000].

(** The output file at the end of a run of [main]: no write is attempted
    and the run does not return, or the last event is the only attempt to
    write, with the text of a list of results; the run returns these results
    when the write succeeds and raises the exception of the write when it
    fails. *)
Definition written_at_end {W} (output_file : str)
    (r : run W (list page_result)) : Prop :=
  (List.filter is_write (events r) = [] /\ forall rs, res r <> Ret rs)
  \/ (exists pre results err,
        events r = pre ++ [EvWrite output_file (write_results_text results) err]
        /\ List.filter is_write pre = []
        /\ res r = match err with
                   | None => Ret results
                   | Some e => Raise e
                   end).

(** ** A world with a consent page

    The state of the world tells whether the consent was given.  Every page
    answers a consent notice to a plain request; the browser opens it, the
    button "Tout accepter" gives the consent, no text can be clicked, and the
    content is the article once the consent is given. *)
Module DemoConsent.

Definition NOTICE : str := Eval cbv in Py.lit "We use cookies".
Definition ARTICLE : str := Eval cbv in Py.lit "article".
Definition ACCEPT : str := Eval cbv in Py.lit "Tout accepter".

Definition E_consent : Env :=
  {| World := bool;
     api_get := fun w p => (Demo.api_dup p, w);
     http_get := fun w url =>
       (HttpResponse (Response 200 (Some TEXT_HTML) NOTICE), w);
     fs_write := fun w _ _ => (None, w);
     feed_parse := fun w u => (Demo.feed_dup u, w);
     pw_goto := fun w _ => (None, w);
     pw_click_role := fun w t =>
       if bool_decide (t = ACCEPT) then (true, true) else (false, w);
     pw_click_text := fun w _ => (false, w);
     pw_content := fun w => (inr (if w then ARTICLE else NOTICE), w);
     bs4_text := fun _ html => inr html;
     bs4_first_href := fun _ => None;
     readability_summary := fun html => inr html;
     str_lower := Py.ascii_lower;
     url_quote := fun q => q |}.

(** A parser that fails on every page. *)
Definition E_parser_down : Env :=
  {| World := unit;
     api_get := fun w p => (Demo.api_dup p, w);
     http_get := fun w url => (Demo.http url, w);
     fs_write := fun w _ _ => (None, w);
     feed_parse := fun w u => (Demo.feed_dup u, w);
     pw_goto := fun w _ => (Some (OtherException (Py.lit "no browser")), w);
     pw_click_role := fun w _ => (false, w);
     pw_click_text := fun w _ => (false, w);
     pw_content := fun w => (inr [], w);
     bs4_text := fun _ _ => inl (OtherException (Py.lit "parser"));
     bs4_first_href := fun _ => None;
     readability_summary := fun html => inr html;
     str_lower := Py.ascii_lower;
     url_quote := fun q => q |}.

End DemoConsent.

(** ** Worlds in which a request crashes or the file cannot be written *)
Module DemoFail.

Definition PARSE : str := Eval cbv in Py.lit "Failed to parse".
Definition NO_FILE : str := Eval cbv in Py.lit "No such file or directory".

(** [requests.get] on http://b raises an exception that is not a
    [RequestException]. *)
Definition http (url : str) : http_outcome :=
  if bool_decide (url = Demo.B) then HttpCrash PARSE else Demo.http url.

Definition E_crash : Env :=
  {| World := unit;
     api_get := fun w p => (Demo.api_dup p, w);
     http_get := fun w url => (http url, w);
     fs_write := fun w _ _ => (None, w);
     feed_parse := fun w u => (Demo.feed_dup u, w);
     pw_goto := fun w _ => (Some (OtherException (Py.lit "no browser")), w);
     pw_click_role := fun w _ => (false, w);
     pw_click_text := fun w _ => (false, w);
     pw_content := fun w => (inr [], w);
     bs4_text := fun _ html => inr html;
     bs4_first_href := fun _ => None;
     readability_summary := fun html => inr html;
     str_lower := Py.ascii_lower;
     url_quote := fun q => q |}.

(** The directory of the output file does not exist. *)
Definition E_no_file : Env :=
  {| World := unit;
     api_get := fun w p => (Demo.api_dup p, w);
     http_get := fun w url => (Demo.http url, w);
     fs_write := fun w _ _ => (Some (OtherException NO_FILE), w);
     feed_parse := fun w u => (Demo.feed_dup u, w);
     pw_goto := fun w _ => (Some (OtherException (Py.lit "no browser")), w);
     pw_click_role := fun w _ => (false, w);
     pw_click_text := fun w _ => (false, w);
     pw_content := fun w => (inr [], w);
     bs4_text := fun _ html => inr html;
     bs4_first_href := fun _ => None;
     readability_summary := fun html => inr html;
     str_lower := Py.ascii_lower;
     url_quote := fun q => q |}.

End DemoFail.

(** * Properties *)

(** ** Regular-expression substitution *)



Module ReFacts.
Import Re ReSpec.

Lemma run_length_le p b s : run_length p b s <= length s.
Proof.
  revert b. induction s as [|c s IH]; intros b; simpl; [lia|].
  destruct b as [[|b]|]; try lia; destruct (p c); simpl; try lia;
    specialize (IH (Some b)) || specialize (IH None); lia.
Qed.

Lemma try_counts_le k mn cont s m :
  (forall t n, cont t = Some n -> n <= length t) ->
  k <= length s ->
  try_counts k mn cont s = Some m -> m <= length s.
Proof.
  intros Hc. induction k as [|k IH]; intros Hk; simpl.
  - destruct (0 <? mn); [discriminate|].
    destruct (cont (drop 0 s)) as [n|] eqn:Hn; [|discriminate].
    intros [= <-]. apply Hc in Hn. rewrite drop_0 in Hn. lia.
  - destruct (S k <? mn); [discriminate|].
    destruct (cont (drop (S k) s)) as [n|] eqn:Hn.
    + intros [= <-]. apply Hc in Hn. rewrite length_drop in Hn. lia.
    + intros H. apply IH; [lia|exact H].
Qed.

Lemma match_here_le re : forall s m, match_here re s = Some m -> m <= length s.
Proof.
  induction re as [|a re IH]; intros s m; simpl.
  - intros [= <-]. lia.
  - apply try_counts_le; [exact IH|apply run_length_le].
Qed.

Lemma sub_from_drop re r s : forall k,
  k <= length s -> sub_from re r s k = sub re r (drop k s).
Proof.
  induction s as [|c s IH]; intros k Hk.
  - simpl in Hk. assert (k = 0) by lia. subst. reflexivity.
  - destruct k as [|k]; [reflexivity|].
    simpl. apply IH. simpl in Hk. lia.
Qed.

Lemma sub_cons_none re r c s :
  match_here re (c :: s) = None -> sub re r (c :: s) = c :: sub re r s.
Proof. unfold sub. simpl. intros ->. reflexivity. Qed.

Lemma sub_cons_some re r c s k :
  match_here re (c :: s) = Some (S k) ->
  sub re r (c :: s) = r ++ sub re r (drop k s).
Proof.
  intros H. unfold sub at 1. simpl. rewrite H.
  f_equal. apply sub_from_drop.
  apply match_here_le in H. simpl in H. lia.
Qed.


Lemma sub_no_match re r s : no_match re s -> sub re r s = s.
Proof.
  induction s as [|c s IH]; intros [H1 H2].
  - unfold sub. simpl. rewrite H1. reflexivity.
  - rewrite sub_cons_none by exact H1. f_equal. auto.
Qed.

Lemma sub_from_Forall (Q : N -> Prop) re r s : forall k,
  Forall Q r -> Forall Q s -> Forall Q (sub_from re r s k).
Proof.
  induction s as [|c s IH]; intros k Hr Hs; simpl.
  - destruct k; [|constructor]. destruct (match_here re []); [exact Hr|constructor].
  - inversion Hs; subst. destruct k as [|k]; [|auto].
    destruct (match_here re (c :: s)) as [[|m]|].
    + apply Forall_app; split; [exact Hr|]. constructor; auto.
    + apply Forall_app; split; auto.
    + constructor; auto.
Qed.


Lemma sub_nil re r : match_here re [] = None -> sub re r [] = [].
Proof. unfold sub. simpl. intros ->. reflexivity. Qed.

(** An induction principle for [sub] on patterns that match no empty
    string. *)
Lemma sub_ind re r (P : str -> str -> Prop) :
  (forall s, match_here re s <> Some 0) ->
  P [] [] ->
  (forall c s, match_here re (c :: s) = None ->
     P s (sub re r s) -> P (c :: s) (c :: sub re r s)) ->
  (forall c s k, match_here re (c :: s) = Some (S k) ->
     P (drop k s) (sub re r (drop k s)) ->
     P (c :: s) (r ++ sub re r (drop k s))) ->
  forall s, P s (sub re r s).
Proof.
  intros Hne Hnil Hnone Hsome s.
  remember (length s) as n eqn:Hn. revert s Hn.
  induction n as [n IH] using lt_wf_ind. intros s Hn.
  destruct s as [|c s].
  - rewrite sub_nil; [exact Hnil|].
    destruct (match_here re []) as [[|m]|] eqn:Hm; [| |reflexivity].
    + destruct (Hne _ Hm).
    + apply match_here_le in Hm. simpl in Hm. lia.
  - destruct (match_here re (c :: s)) as [[|k]|] eqn:Hm.
    + destruct (Hne _ Hm).
    + rewrite (sub_cons_some _ _ _ _ _ Hm). apply Hsome; [exact Hm|].
      apply (IH (length (drop k s))); [|reflexivity].
      subst n. rewrite length_drop. simpl. lia.
    + rewrite (sub_cons_none _ _ _ _ Hm). apply Hnone; [exact Hm|].
      apply (IH (length s)); [subst n; simpl; lia|reflexivity].
Qed.

(** *** Runs of one class *)

Lemma run_drop p s : starts [p] (drop (run_length p None s) s) = false.
Proof.
  induction s as [|c s IH]; simpl; [reflexivity|].
  destruct (p c) eqn:Hc; simpl; [exact IH|]. rewrite Hc. reflexivity.
Qed.

Lemma run_below p s k :
  k < run_length p None s -> starts [p] (drop k s) = true.
Proof.
  revert k. induction s as [|c s IH]; intros k; simpl; [lia|].
  destruct (p c) eqn:Hc; [|lia].
  destruct k as [|k]; simpl; [rewrite Hc; reflexivity|].
  intros H. apply IH. lia.
Qed.

Lemma run_starts p s k :
  k <= run_length p None s <-> starts (repeat p k) s = true.
Proof.
  revert k. induction s as [|c s IH]; intros [|k]; simpl.
  - split; [reflexivity|lia].
  - split; [lia|discriminate].
  - split; [reflexivity|lia].
  - destruct (p c); simpl.
    + rewrite <- IH. lia.
    + split; [lia|discriminate].
Qed.

Lemma starts_app_l ps a b : starts ps a = true -> starts ps (a ++ b) = true.
Proof.
  revert a. induction ps as [|p ps IH]; intros [|c a]; simpl; auto;
    try discriminate.
  intros H. apply andb_true_iff in H as [-> H]. simpl. auto.
Qed.

Lemma occurs_app ps a b :
  occurs ps (a ++ b) = false -> occurs ps a = false /\ occurs ps b = false.
Proof.
  induction a as [|c a IH]; simpl.
  - intros H. split; [|exact H].
    destruct ps; simpl in *; [|reflexivity].
    destruct b; discriminate.
  - intros H. apply orb_false_iff in H as [H1 H2].
    apply IH in H2 as [H2 H3]. split; [|exact H3].
    apply orb_false_iff. split; [|exact H2].
    destruct (starts ps (c :: a)) eqn:Hs; [|reflexivity].
    apply (starts_app_l _ _ b) in Hs. simpl in Hs. congruence.
Qed.

Lemma occurs_drop ps s k : occurs ps s = false -> occurs ps (drop k s) = false.
Proof.
  intros H. rewrite <- (take_drop k s) in H. apply occurs_app in H. tauto.
Qed.

Lemma occurs_starts ps s : starts ps s = true -> occurs ps s = true.
Proof. destruct s; simpl; intros ->; reflexivity. Qed.

Lemma occurs_cons ps c s : occurs ps s = true -> occurs ps (c :: s) = true.
Proof. simpl. intros ->. apply orb_true_r. Qed.

(** *** What each pattern matches *)

Lemma blank_not_lf c : is_blank c = true -> is_lf c = false.
Proof.
  unfold is_blank, is_lf, Py.chr_eqb, Py.SP, Py.TAB, Py.LF.
  intros H. apply orb_true_iff in H as [H|H]; apply N.eqb_eq in H; subst;
    reflexivity.
Qed.

Lemma run_length_zero p t : run_length p (Some 0) t = 0.
Proof. destruct t; reflexivity. Qed.

Lemma match_lf1 t :
  match_here [Atom is_lf 1 (Some 1)] t
  = if starts [is_lf] t then Some 1 else None.
Proof.
  destruct t as [|c t]; [reflexivity|].
  cbn [match_here cls rmin rmax run_length starts].
  rewrite run_length_zero, andb_true_r.
  destruct (is_lf c); reflexivity.
Qed.

Lemma try_counts_unfold k mn cont s :
  try_counts k mn cont s =
  if k <? mn then None
  else match cont (drop k s) with
       | Some m => Some (k + m)
       | None => match k with
                 | O => None
                 | S k' => try_counts k' mn cont s
                 end
       end.
Proof. destruct k; reflexivity. Qed.

Lemma try_trail_below s k :
  k < run_length is_blank None s ->
  try_counts k 1 (match_here [Atom is_lf 1 (Some 1)]) s = None.
Proof.
  induction k as [|k IH]; intros Hk; [reflexivity|].
  rewrite try_counts_unfold. simpl (S k <? 1).
  rewrite match_lf1.
  pose proof (run_below is_blank s (S k) Hk) as Hb.
  assert (starts [is_lf] (drop (S k) s) = false) as ->.
  { destruct (drop (S k) s) as [|c t]; [reflexivity|]. simpl in *.
    rewrite andb_true_r in *. apply blank_not_lf in Hb. rewrite Hb. reflexivity. }
  apply IH. lia.
Qed.

Lemma match_trail s :
  match_here pat_trail s =
  let n := run_length is_blank None s in
  if (1 <=? n) && starts [is_lf] (drop n s) then Some (n + 1) else None.
Proof.
  change (match_here pat_trail s) with
    (try_counts (run_length is_blank None s) 1
       (match_here [Atom is_lf 1 (Some 1)]) s).
  set (n := run_length is_blank None s). cbv zeta.
  assert (Hn : n = run_length is_blank None s) by reflexivity.
  destruct n as [|n]; [reflexivity|].
  rewrite try_counts_unfold. simpl (S n <? 1). simpl (1 <=? S n).
  rewrite match_lf1. cbn [andb].
  destruct (starts [is_lf] (drop (S n) s)); [reflexivity|].
  apply try_trail_below. lia.
Qed.

Lemma match_single p mn s :
  match_here [Atom p mn None] s =
  let n := run_length p None s in
  if n <? mn then None else Some n.
Proof.
  change (match_here [Atom p mn None] s) with
    (try_counts (run_length p None s) mn (fun _ => Some 0) s).
  cbv zeta.
  rewrite try_counts_unfold. destruct (_ <? mn); [reflexivity|].
  f_equal. lia.
Qed.

Lemma match_crlf s :
  match_here pat_crlf s =
  match s with
  | c :: s' =>
      if is_cr c then
        (if starts [is_lf] s' then Some 2 else Some 1)
      else None
  | [] => None
  end.
Proof.
  destruct s as [|c s]; [reflexivity|].
  change (match_here pat_crlf (c :: s)) with
    (try_counts (run_length is_cr (Some 1) (c :: s)) 1
       (match_here [Atom is_lf 0 (Some 1)]) (c :: s)).
  cbn [run_length].
  destruct (is_cr c); [|reflexivity].
  rewrite run_length_zero. rewrite try_counts_unfold. simpl (1 <? 1).
  change (drop 1 (c :: s)) with s.
  destruct s as [|d s]; [reflexivity|].
  cbn [match_here cls rmin rmax run_length starts].
  rewrite run_length_zero, andb_true_r.
  destruct (is_lf d); reflexivity.
Qed.



Lemma crlf_nonempty s : match_here pat_crlf s <> Some 0.
Proof.
  rewrite match_crlf. destruct s as [|c s]; [discriminate|].
  destruct (is_cr c); [destruct (starts _ s)|]; discriminate.
Qed.

Lemma trail_nonempty s : match_here pat_trail s <> Some 0.
Proof.
  rewrite match_trail. cbv zeta.
  destruct (_ && _); [|discriminate]. intros [= H]. lia.
Qed.

Lemma single_nonempty p mn s :
  0 < mn -> match_here [Atom p mn None] s <> Some 0.
Proof.
  intros Hmn. rewrite match_single. cbv zeta.
  destruct (_ <? mn) eqn:Hlt; [discriminate|].
  apply Nat.ltb_ge in Hlt. intros [= H]. lia.
Qed.

Lemma occurs1 p s :
  occurs [p] s = false <-> Forall (fun c => p c = false) s.
Proof.
  induction s as [|c s IH]; simpl.
  - split; [constructor|reflexivity].
  - rewrite andb_true_r, orb_false_iff, IH. split.
    + intros [H1 H2]. constructor; assumption.
    + intros H. inversion H; subst. tauto.
Qed.

(** First character of the result of a substitution. *)
Lemma sub_head re r q s :
  (forall t, match_here re t <> Some 0) ->
  (forall c t k, match_here re (c :: t) = Some (S k) -> starts [q] r = q c) ->
  r <> [] ->
  starts [q] (sub re r s) = starts [q] s.
Proof.
  intros Hne Hq Hr. destruct s as [|c s].
  - rewrite sub_nil; [reflexivity|].
    destruct (match_here re []) as [[|m]|] eqn:Hm; [| |reflexivity].
    + destruct (Hne _ Hm).
    + apply match_here_le in Hm. simpl in Hm. lia.
  - destruct (match_here re (c :: s)) as [[|k]|] eqn:Hm.
    + destruct (Hne _ Hm).
    + rewrite (sub_cons_some _ _ _ _ _ Hm).
      specialize (Hq _ _ _ Hm). destruct r as [|a r]; [congruence|].
      simpl in Hq. rewrite andb_true_r in Hq.
      simpl. rewrite !andb_true_r. exact Hq.
    + rewrite (sub_cons_none _ _ _ _ Hm). reflexivity.
Qed.

Lemma is_lf_eq c : is_lf c = true -> c = Py.LF.
Proof. unfold is_lf, Py.chr_eqb. apply N.eqb_eq. Qed.

Lemma run_pos p c s : 0 < run_length p None (c :: s) -> p c = true.
Proof. simpl. destruct (p c); [reflexivity|lia]. Qed.

Lemma single_match_head p mn c s k :
  0 < mn -> match_here [Atom p mn None] (c :: s) = Some k -> p c = true.
Proof.
  intros Hmn. rewrite match_single. cbv zeta.
  destruct (_ <? mn) eqn:Hlt; [discriminate|].
  apply Nat.ltb_ge in Hlt. intros _. apply (run_pos p c s). lia.
Qed.

Lemma single_match_len p mn s k :
  match_here [Atom p mn None] s = Some k ->
  k = run_length p None s /\ mn <= k.
Proof.
  rewrite match_single. cbv zeta.
  destruct (_ <? mn) eqn:Hlt; [discriminate|].
  apply Nat.ltb_ge in Hlt. intros [= <-]. split; [reflexivity|exact Hlt].
Qed.

Lemma single_match_rest p mn c s k :
  match_here [Atom p mn None] (c :: s) = Some (S k) ->
  starts [p] (drop k s) = false.
Proof.
  intros H. apply single_match_len in H as [H _].
  change (drop k s) with (drop (S k) (c :: s)). rewrite H. apply run_drop.
Qed.

Lemma lf3_head q s : starts [q] (sub_lf3 s) = starts [q] s.
Proof.
  apply sub_head; [intros t; apply single_nonempty; lia| |discriminate].
  intros c t k H. apply single_match_head in H; [|lia].
  apply is_lf_eq in H. subst. simpl. apply andb_true_r.
Qed.

Lemma blank2_head_blank s :
  starts [is_blank] (sub_blank2 s) = starts [is_blank] s.
Proof.
  apply sub_head; [intros t; apply single_nonempty; lia| |discriminate].
  intros c t k H. apply single_match_head in H; [|lia]. rewrite H. reflexivity.
Qed.

Lemma blank2_head_lf s : starts [is_lf] (sub_blank2 s) = starts [is_lf] s.
Proof.
  apply sub_head; [intros t; apply single_nonempty; lia| |discriminate].
  intros c t k H. apply single_match_head in H; [|lia].
  apply blank_not_lf in H. rewrite H. reflexivity.
Qed.


(** a run of blanks followed by a newline contains "blank, newline" *)
Lemma run_then_lf s :
  0 < run_length is_blank None s ->
  starts [is_lf] (drop (run_length is_blank None s) s) = true ->
  occurs BN s = true.
Proof.
  induction s as [|c s IH]; simpl; [lia|].
  destruct (is_blank c) eqn:Hc; [|lia]. intros _ H.
  change (drop (S (run_length is_blank None s)) (c :: s))
    with (drop (run_length is_blank None s) s) in H.
  destruct (run_length is_blank None s) as [|n] eqn:Hn.
  - rewrite drop_0 in H. destruct s as [|d s]; [discriminate|].
    simpl in *. rewrite H. reflexivity.
  - rewrite IH; [apply orb_true_r|lia|exact H].
Qed.

Lemma trail_match_occurs s k :
  match_here pat_trail s = Some k -> occurs BN s = true.
Proof.
  rewrite match_trail. cbv zeta.
  destruct (_ && _) eqn:H; [|discriminate]. intros _.
  apply andb_true_iff in H as [H1 H2]. apply Nat.leb_le in H1.
  apply run_then_lf; [lia|exact H2].
Qed.

Lemma no_match_crlf s : occurs [is_cr] s = false -> no_match pat_crlf s.
Proof.
  induction s as [|c s IH]; intros H.
  - split; [reflexivity|exact I].
  - simpl in H. rewrite andb_true_r in H.
    apply orb_false_iff in H as [H1 H2].
    split; [|auto]. rewrite match_crlf, H1. reflexivity.
Qed.

Lemma no_match_occurs re ps s :
  (forall t k, match_here re t = Some k -> occurs ps t = true) ->
  occurs ps s = false -> no_match re s.
Proof.
  intros Hm. induction s as [|c s IH]; intros H.
  - split; [|exact I]. destruct (match_here re []) eqn:E; [|reflexivity].
    apply Hm in E. congruence.
  - split.
    + destruct (match_here re (c :: s)) eqn:E; [|reflexivity].
      apply Hm in E. congruence.
    + apply IH. simpl in H. apply orb_false_iff in H. tauto.
Qed.

Lemma single_match_occurs p mn s k :
  match_here [Atom p mn None] s = Some k -> occurs (repeat p mn) s = true.
Proof.
  intros H. apply single_match_len in H as [-> H].
  apply occurs_starts. apply run_starts. exact H.
Qed.

(** *** What each substitution establishes and preserves *)

Lemma crlf_no_cr s : occurs [is_cr] (sub_crlf s) = false.
Proof.
  unfold sub_crlf.
  apply (sub_ind pat_crlf [Py.LF] (fun _ out => occurs [is_cr] out = false));
    [apply crlf_nonempty|reflexivity| |].
  - intros c t Hm IH. simpl. rewrite IH, andb_true_r, orb_false_r.
    rewrite match_crlf in Hm. destruct (is_cr c); [|reflexivity].
    destruct (starts _ t); discriminate.
  - intros c t k _ IH. simpl. exact IH.
Qed.

Lemma sub_keeps_no_cr re r s :
  occurs [is_cr] r = false -> occurs [is_cr] s = false ->
  occurs [is_cr] (sub re r s) = false.
Proof.
  rewrite !occurs1. intros Hr Hs.
  apply (sub_from_Forall (fun c => is_cr c = false)); assumption.
Qed.

Lemma trail_head_lf s :
  starts [is_lf] (sub_trail s) = true ->
  starts [is_lf] s = true \/ match_here pat_trail s <> None.
Proof.
  destruct s as [|c s].
  - unfold sub_trail. rewrite sub_nil; [discriminate|].
    rewrite match_trail. reflexivity.
  - destruct (match_here pat_trail (c :: s)) as [[|k]|] eqn:Hm.
    + destruct (trail_nonempty _ Hm).
    + intros _. right. discriminate.
    + unfold sub_trail. rewrite (sub_cons_none _ _ _ _ Hm). auto.
Qed.

Lemma trail_extend c s :
  is_blank c = true ->
  starts [is_lf] s = true \/ match_here pat_trail s <> None ->
  match_here pat_trail (c :: s) <> None.
Proof.
  intros Hc H. rewrite match_trail. cbv zeta.
  cbn [run_length]. rewrite Hc.
  change (drop (S (run_length is_blank None s)) (c :: s))
    with (drop (run_length is_blank None s) s).
  simpl (1 <=? S _). cbn [andb].
  destruct H as [H|H].
  - assert (run_length is_blank None s = 0) as ->.
    { destruct s as [|d s]; [reflexivity|]. simpl in *.
      rewrite andb_true_r in H.
      destruct (is_blank d) eqn:Hd; [|reflexivity].
      apply blank_not_lf in Hd. congruence. }
    rewrite drop_0, H. discriminate.
  - rewrite match_trail in H. cbv zeta in H.
    destruct (starts [is_lf] (drop (run_length is_blank None s) s));
      [discriminate|].
    rewrite andb_false_r in H. congruence.
Qed.

Lemma trail_no_bn s : occurs BN (sub_trail s) = false.
Proof.
  unfold sub_trail.
  apply (sub_ind pat_trail [Py.LF] (fun _ out => occurs BN out = false));
    [apply trail_nonempty|reflexivity| |].
  - intros c t Hm IH. simpl. rewrite IH, orb_false_r.
    destruct (is_blank c) eqn:Hc; [|reflexivity]. simpl.
    destruct (sub pat_trail [Py.LF] t) as [|d out] eqn:Ho; [reflexivity|].
    rewrite andb_true_r.
    destruct (is_lf d) eqn:Hd; [|reflexivity].
    exfalso. apply (trail_extend c t Hc); [|exact Hm].
    apply trail_head_lf. unfold sub_trail. rewrite Ho. simpl.
    rewrite Hd. reflexivity.
  - intros c t k _ IH. simpl. exact IH.
Qed.


Lemma starts2 p q c s : starts [p; q] (c :: s) = p c && starts [q] s.
Proof. destruct s; reflexivity. Qed.

Lemma starts3 p q r c s :
  starts [p; q; r] (c :: s) = p c && starts [q; r] s.
Proof. destruct s; reflexivity. Qed.

Lemma starts_head_false p ps s :
  starts [p] s = false -> starts (p :: ps) s = false.
Proof.
  destruct s as [|c s]; [reflexivity|]. simpl. rewrite andb_true_r.
  intros ->. reflexivity.
Qed.

Lemma lf3_head2 s :
  starts [is_lf; is_lf] (sub_lf3 s) = true ->
  starts [is_lf; is_lf] s = true.
Proof.
  destruct s as [|c s].
  - unfold sub_lf3. rewrite sub_nil; [discriminate|reflexivity].
  - destruct (match_here pat_lf3 (c :: s)) as [[|k]|] eqn:Hm.
    + apply single_nonempty in Hm; [destruct Hm|lia].
    + intros _. apply single_match_len in Hm as [Hk H3].
      apply (run_starts is_lf (c :: s) 2). lia.
    + unfold sub_lf3. rewrite (sub_cons_none _ _ _ _ Hm).
      rewrite !starts2. fold (sub_lf3 s). rewrite lf3_head. auto.
Qed.

Lemma lf3_no_nnn s : occurs NNN (sub_lf3 s) = false.
Proof.
  unfold sub_lf3.
  apply (sub_ind pat_lf3 [Py.LF; Py.LF]
           (fun _ out => occurs NNN out = false));
    [intros t; apply single_nonempty; lia|reflexivity| |].
  - intros c t Hm IH.
    change (occurs NNN (c :: ?o)) with (starts NNN (c :: o) || occurs NNN o).
    rewrite IH, orb_false_r. unfold NNN. rewrite starts3.
    destruct (is_lf c) eqn:Hc; [|reflexivity]. cbn [andb].
    destruct (starts [is_lf; is_lf] (sub pat_lf3 [Py.LF; Py.LF] t)) eqn:H2;
      [|reflexivity].
    apply lf3_head2 in H2.
    assert (3 <= run_length is_lf None (c :: t)) as H3.
    { apply run_starts. simpl repeat. rewrite starts3, Hc. exact H2. }
    unfold pat_lf3 in Hm. rewrite match_single in Hm. cbv zeta in Hm.
    apply Nat.ltb_ge in H3. rewrite H3 in Hm. discriminate.
  - intros c t k Hm IH.
    apply single_match_rest in Hm.
    pose proof (lf3_head is_lf (drop k t)) as Hh. unfold sub_lf3 in Hh.
    rewrite Hm in Hh.
    cbn [app].
    change (occurs NNN (?a :: ?b :: ?o))
      with (starts NNN (a :: b :: o) || (starts NNN (b :: o) || occurs NNN o)).
    rewrite IH. unfold NNN. rewrite !starts3, starts2, Hh.
    rewrite (starts_head_false _ [is_lf] _ Hh).
    rewrite !andb_false_r. reflexivity.
Qed.

Lemma blank2_no_bb s : occurs BB (sub_blank2 s) = false.
Proof.
  unfold sub_blank2.
  apply (sub_ind pat_blank2 [Py.SP] (fun _ out => occurs BB out = false));
    [intros t; apply single_nonempty; lia|reflexivity| |].
  - intros c t Hm IH.
    change (occurs BB (c :: ?o)) with (starts BB (c :: o) || occurs BB o).
    rewrite IH, orb_false_r. unfold BB. rewrite starts2.
    fold (sub_blank2 t). rewrite blank2_head_blank.
    destruct (is_blank c) eqn:Hc; [|reflexivity]. cbn [andb].
    destruct (starts [is_blank] t) eqn:H2; [|reflexivity].
    assert (2 <= run_length is_blank None (c :: t)) as H3.
    { apply run_starts. simpl repeat. rewrite starts2, Hc. exact H2. }
    unfold pat_blank2 in Hm. rewrite match_single in Hm. cbv zeta in Hm.
    apply Nat.ltb_ge in H3. rewrite H3 in Hm. discriminate.
  - intros c t k Hm IH.
    apply single_match_rest in Hm.
    pose proof (blank2_head_blank (drop k t)) as Hh. unfold sub_blank2 in Hh.
    rewrite Hm in Hh. cbn [app].
    change (occurs BB (?a :: ?o)) with (starts BB (a :: o) || occurs BB o).
    rewrite IH. unfold BB. rewrite starts2, Hh, andb_false_r. reflexivity.
Qed.

Lemma lf3_keeps_bn s : occurs BN s = false -> occurs BN (sub_lf3 s) = false.
Proof.
  unfold sub_lf3.
  apply (sub_ind pat_lf3 [Py.LF; Py.LF]
           (fun s out => occurs BN s = false -> occurs BN out = false));
    [intros t; apply single_nonempty; lia|reflexivity| |].
  - intros c t Hm IH H.
    change (occurs BN (c :: t)) with (starts BN (c :: t) || occurs BN t) in H.
    apply orb_false_iff in H as [H1 H2].
    change (occurs BN (c :: ?o)) with (starts BN (c :: o) || occurs BN o).
    rewrite (IH H2), orb_false_r. unfold BN in *. rewrite starts2 in *.
    fold (sub_lf3 t). rewrite lf3_head. exact H1.
  - intros c t k Hm IH H.
    apply (occurs_drop _ _ (S k)) in H.
    change (drop (S k) (c :: t)) with (drop k t) in H.
    cbn [app].
    change (occurs BN (?a :: ?b :: ?o))
      with (starts BN (a :: b :: o) || (starts BN (b :: o) || occurs BN o)).
    rewrite (IH H). unfold BN. rewrite !starts2. reflexivity.
Qed.

Lemma blank2_keeps_bn s :
  occurs BN s = false -> occurs BN (sub_blank2 s) = false.
Proof.
  unfold sub_blank2.
  apply (sub_ind pat_blank2 [Py.SP]
           (fun s out => occurs BN s = false -> occurs BN out = false));
    [intros t; apply single_nonempty; lia|reflexivity| |].
  - intros c t Hm IH H.
    change (occurs BN (c :: t)) with (starts BN (c :: t) || occurs BN t) in H.
    apply orb_false_iff in H as [H1 H2].
    change (occurs BN (c :: ?o)) with (starts BN (c :: o) || occurs BN o).
    rewrite (IH H2), orb_false_r. unfold BN in *. rewrite starts2 in *.
    fold (sub_blank2 t). rewrite blank2_head_lf. exact H1.
  - intros c t k Hm IH H.
    pose proof H as H0.
    apply (occurs_drop _ _ (S k)) in H.
    change (drop (S k) (c :: t)) with (drop k t) in H.
    cbn [app].
    change (occurs BN (?a :: ?o)) with (starts BN (a :: o) || occurs BN o).
    rewrite (IH H), orb_false_r. unfold BN. rewrite starts2.
    fold (sub_blank2 (drop k t)). rewrite blank2_head_lf.
    change (is_blank Py.SP) with true. cbn [andb].
    destruct (starts [is_lf] (drop k t)) eqn:Hl; [|reflexivity].
    apply single_match_len in Hm as [Hk H2].
    rewrite run_then_lf in H0; [discriminate|lia|].
    rewrite <- Hk. exact Hl.
Qed.

Lemma blank2_head2 s :
  starts [is_lf; is_lf] (sub_blank2 s) = starts [is_lf; is_lf] s.
Proof.
  destruct s as [|c s].
  - unfold sub_blank2. rewrite sub_nil; reflexivity.
  - destruct (match_here pat_blank2 (c :: s)) as [[|k]|] eqn:Hm.
    + apply single_nonempty in Hm; [destruct Hm|lia].
    + unfold sub_blank2. rewrite (sub_cons_some _ _ _ _ _ Hm).
      apply single_match_head in Hm; [|lia]. apply blank_not_lf in Hm.
      cbn [app]. rewrite !starts2, Hm. reflexivity.
    + unfold sub_blank2. rewrite (sub_cons_none _ _ _ _ Hm).
      rewrite !starts2. fold (sub_blank2 s). rewrite blank2_head_lf.
      reflexivity.
Qed.

Lemma blank2_keeps_nnn s :
  occurs NNN s = false -> occurs NNN (sub_blank2 s) = false.
Proof.
  unfold sub_blank2.
  apply (sub_ind pat_blank2 [Py.SP]
           (fun s out => occurs NNN s = false -> occurs NNN out = false));
    [intros t; apply single_nonempty; lia|reflexivity| |].
  - intros c t Hm IH H.
    change (occurs NNN (c :: t)) with (starts NNN (c :: t) || occurs NNN t) in H.
    apply orb_false_iff in H as [H1 H2].
    change (occurs NNN (c :: ?o)) with (starts NNN (c :: o) || occurs NNN o).
    rewrite (IH H2), orb_false_r. unfold NNN in *. rewrite starts3 in *.
    fold (sub_blank2 t). rewrite blank2_head2. exact H1.
  - intros c t k Hm IH H.
    apply (occurs_drop _ _ (S k)) in H.
    change (drop (S k) (c :: t)) with (drop k t) in H.
    cbn [app].
    change (occurs NNN (?a :: ?o)) with (starts NNN (a :: o) || occurs NNN o).
    rewrite (IH H). unfold NNN. rewrite starts3. reflexivity.
Qed.

End ReFacts.

Module StripFacts.
Import Py.

Lemma dropwhile_split p s :
  exists a, s = a ++ dropwhile p s /\ Forall (fun c => p c = true) a.
Proof.
  induction s as [|c s [a [Ha Hp]]]; simpl.
  - exists []. split; [reflexivity|constructor].
  - destruct (p c) eqn:Hc.
    + exists (c :: a). split; [simpl; congruence|constructor; assumption].
    + exists []. split; [reflexivity|constructor].
Qed.

Lemma dropwhile_head p s : starts [p] (dropwhile p s) = false.
Proof.
  induction s as [|c s IH]; simpl; [reflexivity|].
  destruct (p c) eqn:Hc; [exact IH|]. simpl. rewrite Hc. reflexivity.
Qed.

Lemma dropwhile_id p s : starts [p] s = false -> dropwhile p s = s.
Proof.
  destruct s as [|c s]; simpl; [reflexivity|].
  rewrite andb_true_r. intros ->. reflexivity.
Qed.

Lemma lstrip_split s :
  exists a, s = a ++ lstrip s /\ Forall (fun c => isspace c = true) a.
Proof. apply dropwhile_split. Qed.

Lemma rstrip_split s :
  exists b, s = rstrip s ++ b /\ Forall (fun c => isspace c = true) b.
Proof.
  unfold rstrip. destruct (dropwhile_split isspace (rev s)) as [a [Ha Hp]].
  exists (rev a). split.
  - rewrite <- rev_app_distr, <- Ha, rev_involutive. reflexivity.
  - apply Forall_rev. exact Hp.
Qed.

Lemma strip_split s : exists a b, s = a ++ strip s ++ b.
Proof.
  destruct (lstrip_split s) as [a [Ha _]].
  destruct (rstrip_split (lstrip s)) as [b [Hb _]].
  exists a, b. unfold strip. rewrite <- Hb. exact Ha.
Qed.

Lemma strip_last s : starts [isspace] (rev (strip s)) = false.
Proof.
  unfold strip, rstrip. rewrite rev_involutive. apply dropwhile_head.
Qed.

Lemma strip_first s : starts [isspace] (strip s) = false.
Proof.
  pose proof (dropwhile_head isspace s) as Hh. fold (lstrip s) in Hh.
  destruct (rstrip_split (lstrip s)) as [b [Hb _]]. fold (strip s) in Hb.
  destruct (strip s) as [|c u]; [reflexivity|].
  rewrite Hb in Hh. exact Hh.
Qed.

Lemma strip_fixed s :
  starts [isspace] s = false -> starts [isspace] (rev s) = false ->
  strip s = s.
Proof.
  intros H1 H2. unfold strip, lstrip, rstrip.
  rewrite (dropwhile_id _ _ H1), (dropwhile_id _ _ H2).
  apply rev_involutive.
Qed.

Lemma strip_idem s : strip (strip s) = strip s.
Proof. apply strip_fixed; [apply strip_first|apply strip_last]. Qed.

Lemma occurs_strip ps s : occurs ps s = false -> occurs ps (strip s) = false.
Proof.
  destruct (strip_split s) as [a [b Hs]]. intros H. rewrite Hs in H.
  apply ReFacts.occurs_app in H as [_ H].
  apply ReFacts.occurs_app in H as [H _]. exact H.
Qed.

End StripFacts.

Import Re ReSpec ReFacts StripFacts.


Lemma clean_text_unfold s :
  clean_text s = Py.strip (sub_blank2 (sub_lf3 (sub_trail (sub_crlf s)))).
Proof. reflexivity. Qed.

Lemma substituted_normal s :
  normal (sub_blank2 (sub_lf3 (sub_trail (sub_crlf s)))).
Proof.
  pose proof (crlf_no_cr s) as H1.
  pose proof (trail_no_bn (sub_crlf s)) as H2.
  pose proof (lf3_no_nnn (sub_trail (sub_crlf s))) as H3.
  pose proof (blank2_no_bb (sub_lf3 (sub_trail (sub_crlf s)))) as H4.
  repeat split.
  - unfold sub_blank2, sub_lf3, sub_trail.
    do 3 (apply sub_keeps_no_cr; [reflexivity|]). exact H1.
  - apply blank2_keeps_bn, lf3_keeps_bn, H2.
  - apply blank2_keeps_nnn, H3.
  - exact H4.
Qed.

Lemma clean_text_normal s : normal (clean_text s).
Proof.
  rewrite clean_text_unfold.
  destruct (substituted_normal s) as (H1 & H2 & H3 & H4).
  repeat split; apply occurs_strip; assumption.
Qed.

Lemma normal_fixed s :
  normal s -> sub_blank2 (sub_lf3 (sub_trail (sub_crlf s))) = s.
Proof.
  intros (H1 & H2 & H3 & H4).
  unfold sub_crlf. rewrite (sub_no_match _ _ s); [|apply no_match_crlf, H1].
  unfold sub_trail. rewrite (sub_no_match _ _ s);
    [|apply (no_match_occurs _ BN); [apply trail_match_occurs|exact H2]].
  unfold sub_lf3. rewrite (sub_no_match _ _ s);
    [|apply (no_match_occurs _ NNN);
      [intros t k; apply (single_match_occurs is_lf 3)|exact H3]].
  unfold sub_blank2. rewrite (sub_no_match _ _ s);
    [|apply (no_match_occurs _ BB);
      [intros t k; apply (single_match_occurs is_blank 2)|exact H4]].
  reflexivity.
Qed.


(** *** Substitution on texts built from words *)


Lemma match_first_false a re c t :
  0 < rmin a -> cls a c = false -> match_here (a :: re) (c :: t) = None.
Proof.
  intros Hmin Hc.
  change (match_here (a :: re) (c :: t)) with
    (try_counts (run_length (cls a) (rmax a) (c :: t)) (rmin a)
       (match_here re) (c :: t)).
  assert (run_length (cls a) (rmax a) (c :: t) = 0) as ->.
  { simpl. rewrite Hc. destruct (rmax a) as [[|b]|]; reflexivity. }
  rewrite try_counts_unfold.
  destruct (0 <? rmin a) eqn:H; [reflexivity|].
  apply Nat.ltb_ge in H. lia.
Qed.

Lemma sub_skip a re r x z :
  0 < rmin a -> Forall (fun c => cls a c = false) x ->
  sub (a :: re) r (x ++ z) = x ++ sub (a :: re) r z.
Proof.
  intros Hmin. induction 1 as [|c x Hc _ IH]; [reflexivity|].
  simpl. rewrite sub_cons_none by (apply match_first_false; assumption).
  rewrite IH. reflexivity.
Qed.

Lemma sub_skip_all a re r x :
  0 < rmin a -> Forall (fun c => cls a c = false) x ->
  sub (a :: re) r x = x.
Proof.
  intros Hmin Hx. rewrite <- (app_nil_r x) at 1.
  rewrite sub_skip by assumption.
  rewrite sub_nil; [apply app_nil_r|].
  change (match_here (a :: re) []) with
    (try_counts 0 (rmin a) (match_here re) []).
  rewrite try_counts_unfold.
  destruct (0 <? rmin a) eqn:H; [reflexivity|].
  apply Nat.ltb_ge in H. lia.
Qed.

Lemma run_app p ws z :
  Forall (fun c => p c = true) ws -> starts [p] z = false ->
  run_length p None (ws ++ z) = length ws.
Proof.
  intros Hws Hz. induction Hws as [|c ws Hc _ IH]; simpl.
  - destruct z as [|d z]; [reflexivity|]. simpl in *.
    rewrite andb_true_r in Hz. rewrite Hz. reflexivity.
  - rewrite Hc, IH. reflexivity.
Qed.

Lemma space_cr c : Py.isspace c = false -> is_cr c = false.
Proof.
  unfold is_cr, Py.chr_eqb, Py.CR. destruct (N.eqb_spec c 13); [|reflexivity].
  subst. discriminate.
Qed.

Lemma space_lf c : Py.isspace c = false -> is_lf c = false.
Proof.
  unfold is_lf, Py.chr_eqb, Py.LF. destruct (N.eqb_spec c 10); [|reflexivity].
  subst. discriminate.
Qed.

Lemma space_blank c : Py.isspace c = false -> is_blank c = false.
Proof.
  unfold is_blank, Py.chr_eqb, Py.SP, Py.TAB.
  destruct (N.eqb_spec c 32); [subst; discriminate|].
  destruct (N.eqb_spec c 9); [subst; discriminate|reflexivity].
Qed.

Lemma blank_space c : is_blank c = true -> Py.isspace c = true.
Proof.
  intros H. destruct (Py.isspace c) eqn:E; [reflexivity|].
  apply space_blank in E. congruence.
Qed.

Lemma blank_not_cr c : is_blank c = true -> is_cr c = false.
Proof.
  unfold is_blank, is_cr, Py.chr_eqb, Py.SP, Py.TAB, Py.CR.
  intros H. apply orb_true_iff in H as [H|H]; apply N.eqb_eq in H; subst;
    reflexivity.
Qed.

Lemma word_cls (p : N -> bool) x :
  (forall c, Py.isspace c = false -> p c = false) ->
  word x -> Forall (fun c => p c = false) x.
Proof. intros Hp [_ Hx]. eapply Forall_impl; [exact Hx|exact Hp]. Qed.

Lemma word_head p x z :
  (forall c, Py.isspace c = false -> p c = false) ->
  word x -> starts [p] (x ++ z) = false.
Proof.
  intros Hp [Hne Hx]. destruct x as [|c x]; [congruence|].
  inversion Hx; subst. simpl. rewrite Hp by assumption. reflexivity.
Qed.

Lemma strip_words x m y : word x -> word y -> Py.strip (x ++ m ++ y) = x ++ m ++ y.
Proof.
  intros Hx Hy. apply strip_fixed.
  - apply word_head; [auto|exact Hx].
  - rewrite !rev_app_distr. rewrite <- app_assoc.
    apply word_head; [auto|]. destruct Hy as [Hne Hy]. split.
    + intros H. apply Hne. rewrite <- (rev_involutive y), H. reflexivity.
    + apply Forall_rev. exact Hy.
Qed.

(** One step of [clean_text] on [x ++ m ++ y], for words [x] and [y]. *)
Lemma step_crlf x m y m' :
  word x -> word y ->
  sub_crlf (m ++ y) = m' ++ y -> sub_crlf (x ++ m ++ y) = x ++ m' ++ y.
Proof.
  intros Hx Hy H. unfold sub_crlf in *. unfold pat_crlf in *.
  rewrite sub_skip; [rewrite H; reflexivity|simpl; lia|].
  apply (word_cls is_cr); [apply space_cr|exact Hx].
Qed.

Lemma step_trail x m y m' :
  word x -> word y ->
  sub_trail (m ++ y) = m' ++ y -> sub_trail (x ++ m ++ y) = x ++ m' ++ y.
Proof.
  intros Hx Hy H. unfold sub_trail in *. unfold pat_trail in *.
  rewrite sub_skip; [rewrite H; reflexivity|simpl; lia|].
  apply (word_cls is_blank); [apply space_blank|exact Hx].
Qed.

Lemma step_lf3 x m y m' :
  word x -> word y ->
  sub_lf3 (m ++ y) = m' ++ y -> sub_lf3 (x ++ m ++ y) = x ++ m' ++ y.
Proof.
  intros Hx Hy H. unfold sub_lf3 in *. unfold pat_lf3 in *.
  rewrite sub_skip; [rewrite H; reflexivity|simpl; lia|].
  apply (word_cls is_lf); [apply space_lf|exact Hx].
Qed.

Lemma step_blank2 x m y m' :
  word x -> word y ->
  sub_blank2 (m ++ y) = m' ++ y -> sub_blank2 (x ++ m ++ y) = x ++ m' ++ y.
Proof.
  intros Hx Hy H. unfold sub_blank2 in *. unfold pat_blank2 in *.
  rewrite sub_skip; [rewrite H; reflexivity|simpl; lia|].
  apply (word_cls is_blank); [apply space_blank|exact Hx].
Qed.

(** A stretch [m] none of whose characters can start a match is kept. *)
Lemma keep_stretch a re r m y :
  0 < rmin a ->
  Forall (fun c => cls a c = false) m ->
  Forall (fun c => cls a c = false) y ->
  sub (a :: re) r (m ++ y) = m ++ y.
Proof.
  intros Hmin Hm Hy. apply sub_skip_all; [exact Hmin|].
  apply Forall_app. split; assumption.
Qed.

Lemma Forall_repeat_cls (p : N -> bool) b c n :
  p c = b -> Forall (fun d => p d = b) (repeat c n).
Proof. intros H. induction n; simpl; constructor; assumption. Qed.

Lemma crlf_word y : word y -> sub pat_crlf [Py.LF] y = y.
Proof.
  intros Hy. apply sub_skip_all; [simpl; lia|].
  apply (word_cls is_cr); [apply space_cr|exact Hy].
Qed.

Lemma trail_word y : word y -> sub pat_trail [Py.LF] y = y.
Proof.
  intros Hy. apply sub_skip_all; [simpl; lia|].
  apply (word_cls is_blank); [apply space_blank|exact Hy].
Qed.

Lemma lf3_word y : word y -> sub pat_lf3 [Py.LF; Py.LF] y = y.
Proof.
  intros Hy. apply sub_skip_all; [simpl; lia|].
  apply (word_cls is_lf); [apply space_lf|exact Hy].
Qed.

Lemma blank2_word y : word y -> sub pat_blank2 [Py.SP] y = y.
Proof.
  intros Hy. apply sub_skip_all; [simpl; lia|].
  apply (word_cls is_blank); [apply space_blank|exact Hy].
Qed.

Lemma lf3_single y : word y -> sub_lf3 (Py.LF :: y) = Py.LF :: y.
Proof.
  intros Hy. unfold sub_lf3. rewrite sub_cons_none.
  - rewrite lf3_word by exact Hy. reflexivity.
  - unfold pat_lf3. rewrite match_single. cbv zeta.
    change (Py.LF :: y) with ([Py.LF] ++ y).
    rewrite run_app; [reflexivity|repeat constructor|].
    rewrite <- (app_nil_r y). apply word_head; [apply space_lf|exact Hy].
Qed.

Lemma lf3_run n y :
  word y -> 3 <= n -> sub_lf3 (repeat Py.LF n ++ y) = [Py.LF; Py.LF] ++ y.
Proof.
  intros Hy Hn. destruct n as [|n]; [lia|].
  assert (Hrun : run_length is_lf None (repeat Py.LF (S n) ++ y) = S n).
  { rewrite run_app; [apply repeat_length| |].
    - apply Forall_repeat_cls. reflexivity.
    - rewrite <- (app_nil_r y). apply word_head; [apply space_lf|exact Hy]. }
  unfold sub_lf3. cbn [repeat app].
  rewrite (sub_cons_some _ _ _ _ n).
  - rewrite drop_app_length'; [|symmetry; apply repeat_length].
    rewrite lf3_word by exact Hy. reflexivity.
  - unfold pat_lf3. rewrite match_single. cbv zeta.
    change (Py.LF :: repeat Py.LF n ++ y) with (repeat Py.LF (S n) ++ y).
    rewrite Hrun. destruct (S n <? 3) eqn:E; [|reflexivity].
    apply Nat.ltb_lt in E. lia.
Qed.

Lemma blank2_run ws y :
  word y -> Forall (fun c => is_blank c = true) ws -> 2 <= length ws ->
  sub_blank2 (ws ++ y) = [Py.SP] ++ y.
Proof.
  intros Hy Hws Hn.
  assert (Hrun : run_length is_blank None (ws ++ y) = length ws).
  { apply run_app; [exact Hws|].
    rewrite <- (app_nil_r y). apply word_head; [apply space_blank|exact Hy]. }
  destruct ws as [|c ws]; [simpl in Hn; lia|].
  unfold sub_blank2. cbn [app].
  rewrite (sub_cons_some _ _ _ _ (length ws)).
  - rewrite drop_app_length. rewrite blank2_word by exact Hy. reflexivity.
  - unfold pat_blank2. rewrite match_single. cbv zeta.
    change (c :: ws ++ y) with ((c :: ws) ++ y). rewrite Hrun.
    destruct (length (c :: ws) <? 2) eqn:E; [|reflexivity].
    apply Nat.ltb_lt in E. lia.
Qed.

Lemma trail_blanks ws y :
  word y -> Forall (fun c => is_blank c = true) ws ->
  sub_trail (ws ++ y) = ws ++ y.
Proof.
  intros Hy. induction 1 as [|c ws Hc Hws IH]; cbn [app].
  - apply trail_word. exact Hy.
  - unfold sub_trail. rewrite sub_cons_none; [f_equal; exact IH|].
    rewrite match_trail. cbv zeta.
    change (c :: ws ++ y) with ((c :: ws) ++ y).
    rewrite run_app; [|constructor; assumption|].
    + rewrite drop_app_length.
      assert (starts [is_lf] y = false) as ->;
        [|rewrite andb_false_r; reflexivity].
      rewrite <- (app_nil_r y). apply word_head; [apply space_lf|exact Hy].
    + rewrite <- (app_nil_r y). apply word_head; [apply space_blank|exact Hy].
Qed.

Lemma trail_run ws y :
  word y -> Forall (fun c => is_blank c = true) ws -> ws <> [] ->
  sub_trail ((ws ++ [Py.LF]) ++ y) = [Py.LF] ++ y.
Proof.
  intros Hy Hws Hne. rewrite <- app_assoc. cbn [app].
  assert (Hrun : run_length is_blank None (ws ++ Py.LF :: y) = length ws).
  { apply run_app; [exact Hws|reflexivity]. }
  destruct ws as [|c ws]; [congruence|].
  unfold sub_trail. cbn [app].
  rewrite (sub_cons_some _ _ _ _ (length ws + 1)).
  - rewrite Nat.add_1_r.
    change (Py.LF :: y) with ([Py.LF] ++ y). rewrite app_assoc.
    rewrite drop_app_length'; [|rewrite length_app; simpl; lia].
    rewrite trail_word by exact Hy. reflexivity.
  - rewrite match_trail. cbv zeta.
    change (c :: ws ++ Py.LF :: y) with ((c :: ws) ++ Py.LF :: y).
    rewrite Hrun. rewrite drop_app_length. reflexivity.
Qed.

Lemma crlf_pair y : word y -> sub_crlf ([Py.CR; Py.LF] ++ y) = [Py.LF] ++ y.
Proof.
  intros Hy. unfold sub_crlf. cbn [app].
  rewrite (sub_cons_some _ _ _ _ 1); [|rewrite match_crlf; reflexivity].
  change (drop 1 (Py.LF :: y)) with y.
  rewrite crlf_word by exact Hy. reflexivity.
Qed.

Lemma crlf_lone y : word y -> sub_crlf ([Py.CR] ++ y) = [Py.LF] ++ y.
Proof.
  intros Hy. unfold sub_crlf. cbn [app].
  rewrite (sub_cons_some _ _ _ _ 0).
  - rewrite drop_0. rewrite crlf_word by exact Hy. reflexivity.
  - rewrite match_crlf. change (is_cr Py.CR) with true. cbv iota.
    assert (starts [is_lf] y = false) as ->; [|reflexivity].
    rewrite <- (app_nil_r y). apply word_head; [apply space_lf|exact Hy].
Qed.

Ltac keep_cls p sp :=
  apply keep_stretch;
  [simpl; lia
  |
  |apply (word_cls p); [apply sp|assumption]].

Lemma clean_newlines x y n :
  word x -> word y -> 3 <= n ->
  clean_text (x ++ repeat Py.LF n ++ y) = x ++ [Py.LF; Py.LF] ++ y.
Proof.
  intros Hx Hy Hn. rewrite clean_text_unfold.
  rewrite (step_crlf x _ y (repeat Py.LF n)); try assumption.
  2:{ keep_cls is_cr space_cr. apply Forall_repeat_cls. reflexivity. }
  rewrite (step_trail x _ y (repeat Py.LF n)); try assumption.
  2:{ keep_cls is_blank space_blank. apply Forall_repeat_cls. reflexivity. }
  rewrite (step_lf3 x _ y [Py.LF; Py.LF]); try assumption.
  2:{ apply lf3_run; assumption. }
  rewrite (step_blank2 x _ y [Py.LF; Py.LF]); try assumption.
  2:{ keep_cls is_blank space_blank. repeat constructor. }
  apply strip_words; assumption.
Qed.

Lemma clean_blanks x y ws :
  word x -> word y ->
  Forall (fun c => is_blank c = true) ws -> 2 <= length ws ->
  clean_text (x ++ ws ++ y) = x ++ [Py.SP] ++ y.
Proof.
  intros Hx Hy Hws Hn. rewrite clean_text_unfold.
  rewrite (step_crlf x _ y ws); try assumption.
  2:{ keep_cls is_cr space_cr.
      eapply Forall_impl; [exact Hws|]. intros c. apply blank_not_cr. }
  rewrite (step_trail x _ y ws); try assumption.
  2:{ apply trail_blanks; assumption. }
  rewrite (step_lf3 x _ y ws); try assumption.
  2:{ keep_cls is_lf space_lf.
      eapply Forall_impl; [exact Hws|]. intros c. apply blank_not_lf. }
  rewrite (step_blank2 x _ y [Py.SP]); try assumption.
  2:{ apply blank2_run; assumption. }
  apply strip_words; assumption.
Qed.

Lemma clean_after_lf x y :
  word x -> word y ->
  Py.strip (sub_blank2 (sub_lf3 (sub_trail (x ++ [Py.LF] ++ y))))
  = x ++ [Py.LF] ++ y.
Proof.
  intros Hx Hy.
  rewrite (step_trail x _ y [Py.LF]); try assumption.
  2:{ keep_cls is_blank space_blank. repeat constructor. }
  rewrite (step_lf3 x _ y [Py.LF]); try assumption.
  2:{ apply lf3_single. assumption. }
  rewrite (step_blank2 x _ y [Py.LF]); try assumption.
  2:{ keep_cls is_blank space_blank. repeat constructor. }
  apply strip_words; assumption.
Qed.

Lemma clean_crlf x y :
  word x -> word y ->
  clean_text (x ++ [Py.CR; Py.LF] ++ y) = x ++ [Py.LF] ++ y.
Proof.
  intros Hx Hy. rewrite clean_text_unfold.
  rewrite (step_crlf x _ y [Py.LF]); try assumption.
  2:{ apply crlf_pair. assumption. }
  apply clean_after_lf; assumption.
Qed.

Lemma clean_cr x y :
  word x -> word y ->
  clean_text (x ++ [Py.CR] ++ y) = x ++ [Py.LF] ++ y.
Proof.
  intros Hx Hy. rewrite clean_text_unfold.
  rewrite (step_crlf x _ y [Py.LF]); try assumption.
  2:{ apply crlf_lone. assumption. }
  apply clean_after_lf; assumption.
Qed.

Lemma clean_trailing x y ws :
  word x -> word y ->
  Forall (fun c => is_blank c = true) ws -> ws <> [] ->
  clean_text (x ++ (ws ++ [Py.LF]) ++ y) = x ++ [Py.LF] ++ y.
Proof.
  intros Hx Hy Hws Hne. rewrite clean_text_unfold.
  rewrite (step_crlf x _ y (ws ++ [Py.LF])); try assumption.
  2:{ keep_cls is_cr space_cr. apply Forall_app. split.
      - eapply Forall_impl; [exact Hws|]. intros c. apply blank_not_cr.
      - repeat constructor. }
  rewrite (step_trail x _ y [Py.LF]); try assumption.
  2:{ apply trail_run; assumption. }
  rewrite (step_lf3 x _ y [Py.LF]); try assumption.
  2:{ apply lf3_single. assumption. }
  rewrite (step_blank2 x _ y [Py.LF]); try assumption.
  2:{ keep_cls is_blank space_blank. repeat constructor. }
  apply strip_words; assumption.
Qed.

(** ** Removing duplicates *)

Module DedupFacts.

Lemma dedup_loop_out urls : forall seen out,
  dedup_loop urls seen out = out ++ dedup_loop urls seen [].
Proof.
  induction urls as [|u urls IH]; intros seen out; simpl.
  - symmetry. apply app_nil_r.
  - destruct (decide (u ∈ seen)); [apply IH|].
    rewrite (IH _ (out ++ [u])), (IH _ ([] ++ [u])).
    rewrite <- app_assoc. reflexivity.
Qed.

Lemma dedup_loop_cons u urls seen :
  dedup_loop (u :: urls) seen [] =
  if decide (u ∈ seen) then dedup_loop urls seen []
  else u :: dedup_loop urls ({[u]} ∪ seen) [].
Proof.
  simpl. destruct (decide (u ∈ seen)); [reflexivity|].
  apply (dedup_loop_out urls _ [u]).
Qed.

Lemma dedup_loop_elem urls : forall (seen : gset str) x,
  x ∈ dedup_loop urls seen [] <-> x ∈ urls /\ x ∉ seen.
Proof.
  induction urls as [|u urls IH]; intros seen x.
  - simpl. split; [intros H; inversion H|intros [H _]; inversion H].
  - rewrite dedup_loop_cons. destruct (decide (u ∈ seen)) as [Hu|Hu].
    + rewrite IH. rewrite elem_of_cons. split; [tauto|].
      intros [[->|H] Hx]; [contradiction|tauto].
    + rewrite !elem_of_cons, IH. split.
      * intros [->|[H1 H2]]; [tauto|]. split; [tauto|set_solver].
      * intros [[->|H1] H2]; [tauto|].
        destruct (decide (x = u)) as [->|Hne]; [tauto|].
        right. split; [exact H1|set_solver].
Qed.

Lemma dedup_loop_NoDup urls : forall (seen : gset str),
  NoDup (dedup_loop urls seen []).
Proof.
  induction urls as [|u urls IH]; intros seen.
  - constructor.
  - rewrite dedup_loop_cons. destruct (decide (u ∈ seen)); [apply IH|].
    constructor; [|apply IH].
    rewrite dedup_loop_elem. set_solver.
Qed.

Lemma dedup_loop_sublist urls : forall (seen : gset str),
  sublist (dedup_loop urls seen []) urls.
Proof.
  induction urls as [|u urls IH]; intros seen.
  - constructor.
  - rewrite dedup_loop_cons. destruct (decide (u ∈ seen)).
    + apply sublist_cons, IH.
    + apply sublist_skip, IH.
Qed.

Lemma dedup_loop_snoc urls x : forall (seen : gset str),
  dedup_loop (urls ++ [x]) seen [] =
  dedup_loop urls seen [] ++
  (if decide (x ∈ seen \/ x ∈ urls) then [] else [x]).
Proof.
  induction urls as [|u urls IH]; intros seen.
  - simpl. destruct (decide (x ∈ seen)) as [H|H].
    + rewrite decide_True by tauto. reflexivity.
    + rewrite decide_False; [reflexivity|].
      intros [H1|H1]; [contradiction|inversion H1].
  - change ((u :: urls) ++ [x]) with (u :: (urls ++ [x])).
    rewrite !dedup_loop_cons. destruct (decide (u ∈ seen)) as [Hu|Hu].
    + rewrite IH. f_equal.
      destruct (decide (x ∈ seen \/ x ∈ urls)) as [H|H].
      * rewrite decide_True; [reflexivity|]. rewrite elem_of_cons. tauto.
      * rewrite decide_False; [reflexivity|]. rewrite elem_of_cons.
        intros [H1|[->|H1]]; tauto.
    + rewrite IH. cbn [app]. f_equal. f_equal.
      destruct (decide (x ∈ {[u]} ∪ seen \/ x ∈ urls)) as [H|H].
      * rewrite decide_True; [reflexivity|]. rewrite elem_of_cons.
        set_solver.
      * rewrite decide_False; [reflexivity|]. rewrite elem_of_cons.
        set_solver.
Qed.

Lemma dedup_elem urls x : x ∈ dedup urls <-> x ∈ urls.
Proof. unfold dedup. rewrite dedup_loop_elem. set_solver. Qed.

Lemma dedup_NoDup urls : NoDup (dedup urls).
Proof. apply dedup_loop_NoDup. Qed.

Lemma dedup_sublist urls : sublist (dedup urls) urls.
Proof. apply dedup_loop_sublist. Qed.

Lemma dedup_snoc urls x :
  dedup (urls ++ [x]) =
  if decide (x ∈ urls) then dedup urls else dedup urls ++ [x].
Proof.
  unfold dedup. rewrite dedup_loop_snoc.
  destruct (decide (x ∈ urls)) as [H|H].
  - rewrite decide_True by tauto. apply app_nil_r.
  - rewrite decide_False; [reflexivity|]. set_solver.
Qed.

Lemma dedup_length urls : length (dedup urls) <= length urls.
Proof. apply sublist_length, dedup_sublist. Qed.

(** a list without repetition is returned as it is *)
Lemma dedup_NoDup_id urls : NoDup urls -> dedup urls = urls.
Proof.
  induction urls as [|x urls IH] using rev_ind; intros H; [reflexivity|].
  apply NoDup_app in H as (H1 & H2 & _).
  rewrite dedup_snoc, IH by exact H1.
  rewrite decide_False; [reflexivity|].
  intros Hx. apply (H2 x Hx). constructor.
Qed.

Lemma dedup_shorter urls : ~ NoDup urls -> length (dedup urls) < length urls.
Proof.
  induction urls as [|x urls IH] using rev_ind; intros H.
  - destruct H. constructor.
  - rewrite dedup_snoc, length_app. simpl.
    pose proof (dedup_length urls) as Hle.
    destruct (decide (x ∈ urls)) as [Hx|Hx]; [lia|].
    rewrite length_app. simpl.
    assert (~ NoDup urls) as Hn.
    { intros Hn. apply H. apply NoDup_app. split; [exact Hn|].
      split; [|apply NoDup_singleton].
      intros y Hy Hy'. apply list_elem_of_singleton in Hy'. subst. tauto. }
    specialize (IH Hn). lia.
Qed.

Lemma slice_to_nonneg {A} (l : list A) (n : Z) :
  (0 <= n)%Z -> slice_to l n = take (Z.to_nat n) l.
Proof.
  intros H. unfold slice_to. destruct (n <? 0)%Z eqn:E; [|reflexivity].
  apply Z.ltb_lt in E. lia.
Qed.

Lemma slice_to_all {A} (l : list A) (n : Z) :
  (Z.of_nat (length l) <= n)%Z -> slice_to l n = l.
Proof.
  intros H. rewrite slice_to_nonneg by lia. apply take_ge. lia.
Qed.

End DedupFacts.

(** C6. Removing duplicates keeps the first occurrence of every URL, in the
    order of the input, and the slice keeps the first [max_results] of them:
    ["a","b","a","c","b"] gives ["a","b","c"]; when 150 URLs remain and the
    cap is 100, the result is the first 100 of them. *)
Theorem dedup_truncate_order_cap :
  dedup (List.map Py.lit ["a"; "b"; "a"; "c"; "b"]%string)
  = List.map Py.lit ["a"; "b"; "c"]%string
  /\ (forall urls : list str,
        NoDup (dedup urls) /\ (forall x, x ∈ dedup urls <-> x ∈ urls)
        /\ sublist (dedup urls) urls)
  /\ (forall (urls : list str) (x : str),
        dedup (urls ++ [x]) =
        if decide (x ∈ urls) then dedup urls else dedup urls ++ [x])
  /\ (forall urls : list str,
        length (dedup urls) = 150 ->
        dedup_truncate urls 100 = take 100 (dedup urls)
        /\ length (dedup_truncate urls 100) = 100)
  /\ (forall (urls : list str) (cap : nat),
        cap <= length (dedup urls) ->
        dedup_truncate urls (Z.of_nat cap) = take cap (dedup urls)
        /\ length (dedup_truncate urls (Z.of_nat cap)) = cap).
Proof.
  split; [vm_compute; reflexivity|].
  split.
  { intros urls. split; [apply DedupFacts.dedup_NoDup|].
    split; [intros x; apply DedupFacts.dedup_elem|].
    apply DedupFacts.dedup_sublist. }
  split; [apply DedupFacts.dedup_snoc|].
  assert (Hcap : forall (urls : list str) (cap : nat),
    cap <= length (dedup urls) ->
    dedup_truncate urls (Z.of_nat cap) = take cap (dedup urls)
    /\ length (dedup_truncate urls (Z.of_nat cap)) = cap).
  { intros urls cap H. unfold dedup_truncate.
    rewrite DedupFacts.slice_to_nonneg by lia. rewrite Nat2Z.id.
    split; [reflexivity|]. rewrite length_take. lia. }
  split; [|exact Hcap].
  intros urls H. apply (Hcap urls 100). lia.
Qed.

(** ** The output file *)

Module WriterFacts.
Import Re Reader.

(** The block written for one page. *)
Lemma write_loop_blocks results : forall f,
  write_loop results f =
  f ++ concat (List.map (fun r : page_result =>
         Py.strip r.1.1 ++ [Py.LF] ++ Py.strip r.2 ++ [Py.LF; Py.LF]) results).
Proof.
  induction results as [|[[url ok] content] results IH]; intros f.
  - simpl. symmetry. apply app_nil_r.
  - cbn [write_loop List.map concat]. rewrite IH. unfold f_write.
    cbn [fst snd]. rewrite <- !app_assoc. reflexivity.
Qed.

Lemma starts_rev_cons p c d t :
  starts [p] (rev (c :: d :: t)) = starts [p] (rev (d :: t)).
Proof.
  change (rev (c :: d :: t)) with (rev (d :: t) ++ [c]).
  destruct (rev (d :: t)) as [|e l] eqn:E; [|reflexivity].
  apply (f_equal (@length N)) in E. rewrite length_rev in E. discriminate.
Qed.

Lemma split_blocks_step c d s cur :
  split_blocks (c :: d :: s) cur =
  if is_lf c && is_lf d then cur :: split_blocks s []
  else split_blocks (d :: s) (cur ++ [c]).
Proof. reflexivity. Qed.

(** A text without blank line that does not end with a newline is one
    block. *)
Lemma split_blocks_block t : forall cur rest,
  occurs [is_lf; is_lf] t = false ->
  starts [is_lf] (rev t) = false ->
  split_blocks (t ++ Py.LF :: Py.LF :: rest) cur
  = (cur ++ t) :: split_blocks rest [].
Proof.
  induction t as [|c t IH]; intros cur rest Hll Hend.
  - simpl. rewrite app_nil_r. reflexivity.
  - destruct t as [|d t].
    + simpl in Hend. rewrite andb_true_r in Hend.
      cbn [app]. rewrite split_blocks_step, Hend. reflexivity.
    + change (occurs [is_lf; is_lf] (c :: d :: t))
        with (starts [is_lf; is_lf] (c :: d :: t)
              || occurs [is_lf; is_lf] (d :: t)) in Hll.
      apply orb_false_iff in Hll as [H1 H2].
      rewrite starts_rev_cons in Hend.
      cbn [app]. rewrite split_blocks_step.
      assert (is_lf c && is_lf d = false) as ->.
      { simpl in H1. rewrite andb_true_r in H1. exact H1. }
      change (d :: t ++ Py.LF :: Py.LF :: rest)
        with ((d :: t) ++ Py.LF :: Py.LF :: rest).
      rewrite (IH (cur ++ [c]) rest H2 Hend).
      rewrite <- app_assoc. reflexivity.
Qed.

Lemma first_line_url u : forall line c,
  Forall (fun ch => is_lf ch = false) u ->
  first_line (u ++ Py.LF :: c) line = (line ++ u, c).
Proof.
  induction u as [|a u IH]; intros line c Hu.
  - simpl. rewrite app_nil_r. reflexivity.
  - inversion Hu; subst. cbn [app first_line]. rewrite H1.
    rewrite IH by assumption. rewrite <- app_assoc. reflexivity.
Qed.

Lemma not_space_not_lf s : starts [Py.isspace] s = false -> starts [is_lf] s = false.
Proof.
  destruct s as [|c s]; [reflexivity|]. simpl. rewrite !andb_true_r.
  apply space_lf.
Qed.

Lemma occurs_no_lf_then u z :
  Forall (fun ch => is_lf ch = false) u ->
  occurs [is_lf; is_lf] (u ++ z) = occurs [is_lf; is_lf] z.
Proof.
  induction 1 as [|a u Ha _ IH]; [reflexivity|].
  cbn [app].
  change (occurs [is_lf; is_lf] (a :: u ++ z))
    with (starts [is_lf; is_lf] (a :: u ++ z) || occurs [is_lf; is_lf] (u ++ z)).
  rewrite ReFacts.starts2, Ha, IH. reflexivity.
Qed.

Lemma block_one u c :
  Forall (fun ch => is_lf ch = false) u ->
  c <> [] -> starts [Py.isspace] c = false ->
  starts [Py.isspace] (rev c) = false ->
  occurs [is_lf; is_lf] c = false ->
  occurs [is_lf; is_lf] (u ++ Py.LF :: c) = false
  /\ starts [is_lf] (rev (u ++ Py.LF :: c)) = false.
Proof.
  intros Hu Hne Hf Hl Hll. split.
  - rewrite occurs_no_lf_then by exact Hu.
    change (occurs [is_lf; is_lf] (Py.LF :: c))
      with (starts [is_lf; is_lf] (Py.LF :: c) || occurs [is_lf; is_lf] c).
    rewrite Hll, ReFacts.starts2, (not_space_not_lf _ Hf). reflexivity.
  - rewrite rev_app_distr. cbn [rev]. rewrite <- !app_assoc.
    apply not_space_not_lf in Hl.
    destruct (rev c) as [|e l] eqn:E; [|exact Hl].
    apply (f_equal (@length N)) in E. rewrite length_rev in E.
    destruct c; [congruence|discriminate].
Qed.

Lemma block_assoc (u c rest : str) :
  (u ++ Py.LF :: c ++ [Py.LF; Py.LF]) ++ rest
  = (u ++ Py.LF :: c) ++ Py.LF :: Py.LF :: rest.
Proof.
  rewrite <- !app_assoc. cbn [app]. rewrite <- app_assoc. reflexivity.
Qed.

Lemma read_blocks_written results :
  Forall readable results ->
  read_blocks (write_results_text results)
  = List.map (fun r : page_result => (Py.strip r.1.1, Py.strip r.2)) results.
Proof.
  unfold write_results_text, read_blocks. rewrite write_loop_blocks.
  cbn [app]. induction 1 as [|r results Hr _ IH]; [reflexivity|].
  cbn [List.map concat].
  destruct Hr as (Hu & Hlf & Hc & Hll).
  destruct (block_one (Py.strip r.1.1) (Py.strip r.2) Hlf Hc
              (StripFacts.strip_first _) (StripFacts.strip_last _) Hll)
    as [Hb1 Hb2].
  rewrite block_assoc.
  rewrite (split_blocks_block _ [] _ Hb1 Hb2). cbn [app List.filter].
  assert (Py.truthy (Py.strip r.1.1 ++ Py.LF :: Py.strip r.2) = true) as ->.
  { destruct (Py.strip r.1.1); reflexivity. }
  cbn [List.map]. rewrite IH. f_equal.
  apply (first_line_url _ [] _ Hlf).
Qed.

End WriterFacts.

(** C7. [write_results] writes, in the order of the results, the stripped
    URL, a newline, the stripped content and a blank line; the text written
    for ("http://a", true, "hello"), ("http://b", false, "[INACCESSIBLE] x")
    read back block by block gives the same two pairs in order, and so does
    every list of pages whose stripped URL is one non-empty line and whose
    stripped content is non-empty without blank line. *)
Theorem write_results_round_trip :
  (forall results,
     write_results_text results =
     concat (List.map (fun r : page_result =>
       Py.strip r.1.1 ++ [Py.LF] ++ Py.strip r.2 ++ [Py.LF; Py.LF]) results))
  /\ Reader.read_blocks
       (write_results_text
          [(Py.lit "http://a", true, Py.lit "hello");
           (Py.lit "http://b", false, Py.lit "[INACCESSIBLE] x")])
     = [(Py.lit "http://a", Py.lit "hello");
        (Py.lit "http://b", Py.lit "[INACCESSIBLE] x")]
  /\ (forall results,
        Forall readable results ->
        Reader.read_blocks (write_results_text results)
        = List.map (fun r : page_result => (Py.strip r.1.1, Py.strip r.2))
            results).
Proof.
  split; [intros results; apply (WriterFacts.write_loop_blocks results [])|].
  split; [vm_compute; reflexivity|].
  apply WriterFacts.read_blocks_written.
Qed.

(** ** Reasoning on runs *)

Section MonadFacts.
Context {E : Env}.

Lemma bind_ret_inv {A B} (m : M A) (k : A -> M B) w b :
  res (bind m k w) = Ret b ->
  exists a, res (m w) = Ret a /\ res (k a (final (m w))) = Ret b.
Proof.
  unfold bind. destruct (res (m w)) as [a| |] eqn:Hm; simpl;
    try discriminate.
  intros H. exists a. split; [reflexivity|exact H].
Qed.

Lemma try_except_ret_inv {A} (m : M A) (h : exn -> option (M A)) w a :
  res (try_except m h w) = Ret a ->
  res (m w) = Ret a \/
  exists e k, res (m w) = Raise e /\ h e = Some k
              /\ res (k (final (m w))) = Ret a.
Proof.
  unfold try_except. destruct (res (m w)) as [x|e|] eqn:Hm.
  - intros H. left. congruence.
  - destruct (h e) as [k|] eqn:Hh.
    + simpl. intros H. right. exists e, k. auto.
    + intros H. congruence.
  - intros H. congruence.
Qed.

Lemma post_ret {A} (a : A) (Q : A -> Prop) : Q a -> post (ret a) Q.
Proof. intros H w b [= <-]. exact H. Qed.

Lemma post_raise {A} e (Q : A -> Prop) : post (raise e) Q.
Proof. intros w b H. discriminate. Qed.

Lemma post_bind {A B} (m : M A) (k : A -> M B) P Q :
  post m P -> (forall a, P a -> post (k a) Q) -> post (bind m k) Q.
Proof.
  intros Hm Hk w b H. apply bind_ret_inv in H as (a & Ha & Hb).
  exact (Hk a (Hm w a Ha) _ _ Hb).
Qed.

Lemma post_try {A} (m : M A) (h : exn -> option (M A)) Q :
  post m Q -> (forall e k, h e = Some k -> post k Q) ->
  post (try_except m h) Q.
Proof.
  intros Hm Hh w a H. apply try_except_ret_inv in H as [H|(e & k & _ & Hk & H)].
  - exact (Hm w a H).
  - exact (Hh e k Hk _ _ H).
Qed.

Lemma post_any {A} (m : M A) : post m (fun _ => True).
Proof. intros w a _. exact I. Qed.

Lemma post_lift {A} (r : exn + A) (Q : A -> Prop) :
  (forall a, r = inr a -> Q a) -> post (lift r) Q.
Proof.
  intros H. destruct r as [e|a]; [apply post_raise|].
  apply post_ret. auto.
Qed.

Lemma returns_ret {A} (a : A) (Q : A -> Prop) : Q a -> returns (ret a) Q.
Proof. intros H w. exists a. auto. Qed.

Lemma returns_bind {A B} (m : M A) (k : A -> M B) P Q :
  returns m P -> (forall a, P a -> returns (k a) Q) -> returns (bind m k) Q.
Proof.
  intros Hm Hk w. destruct (Hm w) as (a & Ha & HP).
  destruct (Hk a HP (final (m w))) as (b & Hb & HQ).
  exists b. split; [|exact HQ]. unfold bind. rewrite Ha. exact Hb.
Qed.

Lemma returns_call {A} (f : World E -> A * World E) ev :
  returns (call f ev) (fun _ => True).
Proof.
  intros w. unfold call. destruct (f w) as [a w']. exists a. auto.
Qed.

Lemma returns_emit ev : returns (emit ev) (fun _ => True).
Proof. intros w. exists tt. auto. Qed.

(** a handler that catches everything turns a computation that may raise
    into one that returns *)
Lemma returns_try_all {A} (m : M A) (h : exn -> M A) Q :
  (forall w, res (m w) <> OutOfFuel) ->
  post m Q -> (forall e, returns (h e) Q) ->
  returns (try_except m (fun e => Some (h e))) Q.
Proof.
  intros Hf Hm Hh w. unfold try_except.
  destruct (res (m w)) as [a|e|] eqn:Hr.
  - exists a. split; [exact Hr|]. exact (Hm w a Hr).
  - destruct (Hh e (final (m w))) as (a & Ha & HQ).
    exists a. split; [exact Ha|exact HQ].
  - destruct (Hf w Hr).
Qed.

Lemma returns_weaken {A} (m : M A) (P Q : A -> Prop) :
  returns m P -> (forall a, P a -> Q a) -> returns m Q.
Proof.
  intros Hm H w. destruct (Hm w) as (a & Ha & HP). exists a. auto.
Qed.

Lemma returns_post {A} (m : M A) (P Q : A -> Prop) :
  returns m P -> post m Q -> returns m (fun a => P a /\ Q a).
Proof.
  intros Hm Hp w. destruct (Hm w) as (a & Ha & HP). exists a.
  split; [exact Ha|]. split; [exact HP|]. exact (Hp w a Ha).
Qed.

Lemma try_except_ret {A} (m : M A) (h : exn -> option (M A)) w a :
  res (m w) = Ret a -> res (try_except m h w) = Ret a.
Proof.
  intros H. unfold try_except. rewrite H. exact H.
Qed.

Lemma run_eta {A} (r : run (World E) A) :
  Run (res r) (final r) (events r) = r.
Proof. destruct r. reflexivity. Qed.

Lemma bind_ret {A B} (a : A) (k : A -> M B) w : bind (ret a) k w = k a w.
Proof. unfold bind, ret. cbn [res final events app]. apply run_eta. Qed.

Lemma bind_raise {A B} e (k : A -> M B) w :
  bind (raise e) k w = Run (Raise e) w [].
Proof. reflexivity. Qed.

Lemma bind_call {A B} (f : World E -> A * World E) ev (k : A -> M B) w :
  bind (call f ev) k w =
  let r2 := k (f w).1 (f w).2 in
  Run (res r2) (final r2) (ev (f w).1 :: events r2).
Proof. unfold bind, call. destruct (f w) as [a w']. reflexivity. Qed.

Lemma bind_emit {B} ev (k : unit -> M B) w :
  bind (emit ev) k w =
  let r2 := k tt w in Run (res r2) (final r2) (ev :: events r2).
Proof. reflexivity. Qed.

Lemma bind_lift {A B} (x : exn + A) (k : A -> M B) w :
  bind (lift x) k w =
  match x with inl e => Run (Raise e) w [] | inr a => k a w end.
Proof. destruct x as [e|a]; [reflexivity|apply bind_ret]. Qed.

Lemma bind_run_ret {A B} (m : M A) (k : A -> M B) w a :
  res (m w) = Ret a ->
  bind m k w =
  let r2 := k a (final (m w)) in
  Run (res r2) (final r2) (events (m w) ++ events r2).
Proof. intros H. unfold bind. rewrite H. reflexivity. Qed.

Lemma bind_run_stop {A B} (m : M A) (k : A -> M B) w :
  (forall a, res (m w) <> Ret a) ->
  events (bind m k w) = events (m w)
  /\ forall b, res (bind m k w) <> Ret b.
Proof.
  intros H. unfold bind. destruct (res (m w)) as [a| |] eqn:Hr.
  - destruct (H a eq_refl).
  - split; [reflexivity|]. discriminate.
  - split; [reflexivity|]. discriminate.
Qed.

Lemma bind_run_raise {A B} (m : M A) (k : A -> M B) w e :
  res (m w) = Raise e ->
  bind m k w = Run (Raise e) (final (m w)) (events (m w)).
Proof. intros H. unfold bind. rewrite H. reflexivity. Qed.

Lemma bind_run_out_of_fuel {A B} (m : M A) (k : A -> M B) w :
  res (m w) = OutOfFuel ->
  bind m k w = Run OutOfFuel (final (m w)) (events (m w)).
Proof. intros H. unfold bind. rewrite H. reflexivity. Qed.

End MonadFacts.

Ltac bind_stops Hr Hev Hnr :=
  match goal with
  | |- context [bind ?m ?k ?w] =>
      destruct (bind_run_stop m k w) as [Hev Hnr];
      [rewrite Hr; discriminate|]
  end.

(** ** Events that do not happen *)

Section AvoidFacts.
Context {E : Env}.
Variable K : event -> bool.

Lemma avoids_ret {A} (a : A) : avoids K (ret a).
Proof. intros w. reflexivity. Qed.

Lemma avoids_raise {A} e : avoids K (raise e : M A).
Proof. intros w. reflexivity. Qed.

Lemma avoids_lift {A} (x : exn + A) : avoids K (lift x).
Proof. destruct x; intros w; reflexivity. Qed.

Lemma avoids_out_of_fuel {A} : avoids K (out_of_fuel : M A).
Proof. intros w. reflexivity. Qed.

Lemma avoids_bind {A B} (m : M A) (k : A -> M B) :
  avoids K m -> (forall a, avoids K (k a)) -> avoids K (bind m k).
Proof.
  intros Hm Hk w. unfold bind. specialize (Hm w).
  destruct (res (m w)) as [a| |]; cbn [events]; [|exact Hm|exact Hm].
  rewrite List.filter_app, Hm. apply Hk.
Qed.

Lemma avoids_try {A} (m : M A) (h : exn -> option (M A)) :
  avoids K m -> (forall e k, h e = Some k -> avoids K k) ->
  avoids K (try_except m h).
Proof.
  intros Hm Hh w. unfold try_except. specialize (Hm w).
  destruct (res (m w)) as [a|e|]; [exact Hm| |exact Hm].
  destruct (h e) as [k|] eqn:Hk; [|exact Hm].
  cbn [events]. rewrite List.filter_app, Hm. apply (Hh e k Hk).
Qed.

Lemma avoids_call {A} (f : World E -> A * World E) ev :
  (forall a, K (ev a) = false) -> avoids K (call f ev).
Proof.
  intros H w. unfold call. destruct (f w) as [a w']. cbn. rewrite H.
  reflexivity.
Qed.

Lemma avoids_emit ev : K ev = false -> avoids K (emit ev).
Proof. intros H w. cbn. rewrite H. reflexivity. Qed.
End AvoidFacts.

Lemma gets_app evs1 evs2 : gets (evs1 ++ evs2) = gets evs1 ++ gets evs2.
Proof.
  induction evs1 as [|ev evs1 IH]; [reflexivity|].
  destruct ev; cbn [app gets]; rewrite IH; reflexivity.
Qed.

Lemma gets_filter evs : List.filter is_get evs = [] -> gets evs = [].
Proof.
  induction evs as [|ev evs IH]; [reflexivity|].
  destruct ev; cbn [List.filter is_get gets]; try exact IH. discriminate.
Qed.


Lemma filter_nil_existsb {A} (p : A -> bool) (l : list A) :
  List.filter p l = [] -> existsb p l = false.
Proof.
  induction l as [|x l IH]; [reflexivity|].
  cbn [List.filter existsb]. destruct (p x); [discriminate|exact IH].
Qed.

Lemma existsb_filter_nil {A} (p : A -> bool) (l : list A) :
  existsb p l = false -> List.filter p l = [].
Proof.
  induction l as [|x l IH]; [reflexivity|].
  cbn [List.filter existsb]. destruct (p x); [discriminate|exact IH].
Qed.

Lemma some_page_crash_app evs1 evs2 :
  some_page_crash (evs1 ++ evs2)
  = some_page_crash evs1 || some_page_crash evs2.
Proof. apply existsb_app. Qed.

Lemma some_page_crash_cons ev evs :
  some_page_crash (ev :: evs) = is_crash ev || some_page_crash evs.
Proof. reflexivity. Qed.

Lemma is_crash_browser ev : is_browser ev = true -> is_crash ev = false.
Proof. destruct ev; (reflexivity || discriminate). Qed.

Lemma is_crash_get ev : is_crash ev = true -> is_get ev = true.
Proof. destruct ev; (reflexivity || discriminate). Qed.

Lemma is_get_browser ev : is_browser ev = true -> is_get ev = false.
Proof. destruct ev; (reflexivity || discriminate). Qed.

Lemma is_write_browser ev : is_browser ev = true -> is_write ev = false.
Proof. destruct ev; (reflexivity || discriminate). Qed.

(** ** Page results *)

Lemma truthy_nonempty (s : str) : Py.truthy s = true -> s <> [].
Proof. destruct s; [discriminate|discriminate]. Qed.

Module Google100Facts.
Import Google100.

Section Facts.
Context {E : Env}.

Lemma search_extract_page_text_ok url :
  post (extract_page_text url) (fun r => page_ok (url, r.1, r.2)).
Proof.
  unfold extract_page_text. apply post_try.
  - apply (post_bind _ _ (fun _ => True)); [apply post_any|].
    intros resp _. destruct (status_code resp >=? 400)%Z;
      [apply post_ret; reflexivity|].
    cbv zeta. destruct (not_html _); [apply post_ret; reflexivity|].
    apply (post_bind _ _ (fun _ => True)); [apply post_any|].
    intros t _. destruct (Py.truthy (clean_text t)) eqn:Ht; simpl.
    + apply post_ret. simpl. apply truthy_nonempty, Ht.
    + apply post_ret. reflexivity.
  - intros e k. destruct e; try discriminate. intros [= <-].
    apply post_ret. reflexivity.
Qed.

Lemma search_main_urls_ok urls : forall all_results already_done,
  Forall page_ok all_results ->
  post (main_urls urls all_results already_done)
       (fun r => Forall page_ok r.1).
Proof.
  induction urls as [|url urls IH]; intros acc done Hacc.
  - apply post_ret. exact Hacc.
  - cbn [main_urls]. destruct (decide (url ∈ done)); [apply IH, Hacc|].
    eapply post_bind; [apply search_extract_page_text_ok|].
    intros [ok content] Hok.
    apply (post_bind _ _ (fun _ => True)); [apply post_any|].
    intros _ _. apply IH. apply Forall_app. split; [exact Hacc|].
    constructor; [exact Hok|constructor].
Qed.

Lemma search_main_keywords_ok fuel keywords api_key cx max_results :
  forall all_results already_done,
  Forall page_ok all_results ->
  post (main_keywords fuel keywords api_key cx max_results
          all_results already_done)
       (fun r => Forall page_ok r.1).
Proof.
  induction keywords as [|kw keywords IH]; intros acc done Hacc.
  - apply post_ret. exact Hacc.
  - cbn [main_keywords].
    apply (post_bind _ _ (fun _ => True)); [apply post_any|].
    intros urls _.
    eapply post_bind; [apply (search_main_urls_ok urls _ _ Hacc)|].
    intros [acc' done'] H. apply IH. exact H.
Qed.

Lemma search_main_ok fuel keywords api_key cx max_results output_file :
  post (main fuel keywords api_key cx max_results output_file)
       (Forall page_ok).
Proof.
  unfold main.
  eapply post_bind; [apply search_main_keywords_ok; constructor|].
  intros [acc done] H.
  apply (post_bind _ _ (fun _ => True)); [apply post_any|].
  intros _ _. apply post_ret. exact H.
Qed.
End Facts.

End Google100Facts.

Module GoogleNews100Facts.
Import GoogleNews100.

Section Facts.
Context {E : Env}.

Lemma fetch_html_requests_ok url : post (fetch_html_requests url) fetch_ok.
Proof.
  unfold fetch_html_requests. apply post_try.
  - apply (post_bind _ _ (fun _ => True)); [apply post_any|].
    intros resp _. destruct (status_code resp >=? 400)%Z;
      [apply post_ret; intros _; reflexivity|].
    cbv zeta. destruct (not_html _);
      apply post_ret; intros H; [reflexivity|discriminate].
  - intros e k. destruct e; try discriminate. intros [= <-].
    apply post_ret. intros _. reflexivity.
Qed.

Lemma fetch_html_playwright_ok url :
  post (fetch_html_playwright url) fetch_ok.
Proof.
  unfold fetch_html_playwright. apply post_try.
  - apply (post_bind _ _ (fun _ => True)); [apply post_any|].
    intros [e|] _; [apply post_raise|].
    do 4 (apply (post_bind _ _ (fun _ => True)); [apply post_any|];
          intros ? _).
    apply post_ret. intros H. discriminate.
  - intros e k [= <-]. apply post_ret. intros _. reflexivity.
Qed.

Lemma extract_text_from_html_ok url html :
  post (extract_text_from_html html) (fun r => page_ok (url, r.1, r.2)).
Proof.
  unfold extract_text_from_html. apply post_try.
  - apply (post_bind _ _ (fun _ => True)); [apply post_any|].
    intros article _.
    apply (post_bind _ _ (fun t => exists t', t = clean_text t')).
    + unfold html_to_text.
      apply (post_bind _ _ (fun _ => True)); [apply post_any|].
      intros t _. apply post_ret. exists t. reflexivity.
    + intros t _. destruct (Py.truthy t) eqn:Ht; simpl.
      * apply post_ret. simpl. apply truthy_nonempty, Ht.
      * apply post_ret. reflexivity.
  - intros e k [= <-]. apply post_ret. reflexivity.
Qed.

Lemma extract_page_text_ok url :
  post (extract_page_text url) (fun r => page_ok (url, r.1, r.2)).
Proof.
  unfold extract_page_text.
  eapply post_bind; [apply fetch_html_requests_ok|].
  intros [ok html] Hf. destruct ok; simpl.
  - destruct (looks_like_cookie_consent_page html).
    + eapply post_bind; [apply fetch_html_playwright_ok|].
      intros [ok2 html2] Hp. destruct ok2; simpl.
      * apply (extract_text_from_html_ok url).
      * apply post_ret. simpl. apply Hp. reflexivity.
    + apply (extract_text_from_html_ok url).
  - apply post_ret. simpl. apply Hf. reflexivity.
Qed.

Lemma main_urls_ok urls : forall all_results already_done,
  Forall page_ok all_results ->
  post (main_urls urls all_results already_done)
       (fun r => Forall page_ok r.1).
Proof.
  induction urls as [|url urls IH]; intros acc done Hacc.
  - apply post_ret. exact Hacc.
  - cbn [main_urls]. destruct (decide (url ∈ done)); [apply IH, Hacc|].
    destruct (is_google_or_consent_url url).
    + apply IH. apply Forall_app. split; [exact Hacc|].
      constructor; [reflexivity|constructor].
    + eapply post_bind; [apply extract_page_text_ok|].
      intros [ok content] Hok.
      apply (post_bind _ _ (fun _ => True)); [apply post_any|].
      intros _ _. apply IH. apply Forall_app. split; [exact Hacc|].
      constructor; [exact Hok|constructor].
Qed.

Lemma main_keywords_ok keywords max_results :
  forall all_results already_done,
  Forall page_ok all_results ->
  post (main_keywords keywords max_results all_results already_done)
       (fun r => Forall page_ok r.1).
Proof.
  induction keywords as [|kw keywords IH]; intros acc done Hacc.
  - apply post_ret. exact Hacc.
  - cbn [main_keywords].
    apply (post_bind _ _ (fun _ => True)); [apply post_any|].
    intros urls _.
    eapply post_bind; [apply (main_urls_ok urls _ _ Hacc)|].
    intros [acc' done'] H. apply IH. exact H.
Qed.

Lemma main_ok keywords max_results output_file :
  post (main keywords max_results output_file) (Forall page_ok).
Proof.
  unfold main.
  eapply post_bind; [apply main_keywords_ok; constructor|].
  intros [acc done] H.
  apply (post_bind _ _ (fun _ => True)); [apply post_any|].
  intros _ _. apply post_ret. exact H.
Qed.
End Facts.

End GoogleNews100Facts.

(** C1. Every page result of a run, of either script, satisfies the
    invariant: when [ok] is true the content is not empty, when [ok] is false
    the content begins with "[INACCESSIBLE]".  This holds of what
    [extract_page_text] returns, of the result recorded for an ignored
    Google link, and of all the results [main] has collected. *)
Theorem page_results_invariant (E : Env) :
  (forall url w ok content,
     res (Google100.extract_page_text url w) = Ret (ok, content) ->
     page_ok (url, ok, content))
  /\ (forall url w ok content,
        res (GoogleNews100.extract_page_text url w) = Ret (ok, content) ->
        page_ok (url, ok, content))
  /\ (forall url, page_ok (url, false, msg_ignored))
  /\ (forall fuel keywords api_key cx max_results output_file w all_results,
        res (Google100.main fuel keywords api_key cx max_results output_file w)
        = Ret all_results ->
        Forall page_ok all_results)
  /\ (forall keywords max_results output_file w all_results,
        res (GoogleNews100.main keywords max_results output_file w)
        = Ret all_results ->
        Forall page_ok all_results).
Proof.
  split.
  { intros url w ok content H.
    exact (Google100Facts.search_extract_page_text_ok url w _ H). }
  split.
  { intros url w ok content H.
    exact (GoogleNews100Facts.extract_page_text_ok url w _ H). }
  split; [intros url; reflexivity|].
  split.
  - intros fuel keywords api_key cx max_results output_file w all_results H.
    exact (Google100Facts.search_main_ok _ _ _ _ _ _ w _ H).
  - intros keywords max_results output_file w all_results H.
    exact (GoogleNews100Facts.main_ok _ _ _ w _ H).
Qed.

(** ** Classification of a response *)

Lemma startswith_app (p b : str) : Py.startswith (p ++ b) p = true.
Proof.
  induction p as [|a p IH]; [destruct b; reflexivity|].
  simpl. unfold Py.chr_eqb. rewrite N.eqb_refl. exact IH.
Qed.

Lemma contains_here (p s : str) : Py.startswith s p = true -> Py.contains p s = true.
Proof. destruct s; simpl; intros ->; reflexivity. Qed.

Lemma contains_app (a p b : str) : Py.contains p (a ++ p ++ b) = true.
Proof.
  induction a as [|c a IH]; cbn [app].
  - apply contains_here, startswith_app.
  - cbn [Py.contains]. rewrite IH. apply orb_true_r.
Qed.

Lemma contains_suffix (a p : str) : Py.contains p (a ++ p) = true.
Proof. rewrite <- (app_nil_r p) at 2. apply contains_app. Qed.

Section FetchFacts.
Context {E : Env}.

Lemma requests_get_response url w resp w' :
  http_get E w url = (HttpResponse resp, w') ->
  requests_get url w = Run (Ret resp) w' [EvGet url (HttpResponse resp)].
Proof.
  intros H. unfold requests_get, bind, call. rewrite H. reflexivity.
Qed.

Lemma requests_get_error url w msg w' :
  http_get E w url = (HttpError msg, w') ->
  requests_get url w
  = Run (Raise (RequestException msg)) w' [EvGet url (HttpError msg)].
Proof.
  intros H. unfold requests_get, bind, call. rewrite H. reflexivity.
Qed.

Lemma news_fetch_status url w resp w' :
  http_get E w url = (HttpResponse resp, w') ->
  (400 <= status_code resp)%Z ->
  res (GoogleNews100.fetch_html_requests url w)
  = Ret (false, msg_http ++ Py.str_of_Z (status_code resp)).
Proof.
  intros H Hs. unfold GoogleNews100.fetch_html_requests, try_except, bind.
  rewrite (requests_get_response _ _ _ _ H). cbn [res final events].
  destruct (Z.geb_spec (status_code resp) 400); [reflexivity|lia].
Qed.

Lemma news_fetch_ctype url w resp w' :
  http_get E w url = (HttpResponse resp, w') ->
  (status_code resp < 400)%Z ->
  not_html (default [] (content_type resp)) = true ->
  res (GoogleNews100.fetch_html_requests url w)
  = Ret (false, msg_ctype ++ default [] (content_type resp)).
Proof.
  intros H Hs Hc. unfold GoogleNews100.fetch_html_requests, try_except, bind.
  rewrite (requests_get_response _ _ _ _ H). cbn [res final events].
  destruct (Z.geb_spec (status_code resp) 400); [lia|].
  cbv zeta. rewrite Hc. reflexivity.
Qed.

Lemma news_fetch_html url w resp w' :
  http_get E w url = (HttpResponse resp, w') ->
  (status_code resp < 400)%Z ->
  not_html (default [] (content_type resp)) = false ->
  res (GoogleNews100.fetch_html_requests url w) = Ret (true, text resp).
Proof.
  intros H Hs Hc. unfold GoogleNews100.fetch_html_requests, try_except, bind.
  rewrite (requests_get_response _ _ _ _ H). cbn [res final events].
  destruct (Z.geb_spec (status_code resp) 400); [lia|].
  cbv zeta. rewrite Hc. reflexivity.
Qed.

Lemma requests_get_crash url w msg w' :
  http_get E w url = (HttpCrash msg, w') ->
  requests_get url w
  = Run (Raise (OtherException msg)) w' [EvGet url (HttpCrash msg)].
Proof.
  intros H. unfold requests_get, bind, call. rewrite H. reflexivity.
Qed.

Lemma news_fetch_crash url w msg w' :
  http_get E w url = (HttpCrash msg, w') ->
  GoogleNews100.fetch_html_requests url w
  = Run (Raise (OtherException msg)) w' [EvGet url (HttpCrash msg)].
Proof.
  intros H. unfold GoogleNews100.fetch_html_requests, try_except, bind.
  rewrite (requests_get_crash _ _ _ _ H). reflexivity.
Qed.

Lemma search_page_crash url w msg w' :
  http_get E w url = (HttpCrash msg, w') ->
  Google100.extract_page_text url w
  = Run (Raise (OtherException msg)) w' [EvGet url (HttpCrash msg)].
Proof.
  intros H. unfold Google100.extract_page_text, try_except, bind.
  rewrite (requests_get_crash _ _ _ _ H). reflexivity.
Qed.

Lemma news_fetch_error url w msg w' :
  http_get E w url = (HttpError msg, w') ->
  res (GoogleNews100.fetch_html_requests url w)
  = Ret (false, msg_network ++ msg).
Proof.
  intros H. unfold GoogleNews100.fetch_html_requests, try_except, bind.
  rewrite (requests_get_error _ _ _ _ H). reflexivity.
Qed.

Lemma search_page_status url w resp w' :
  http_get E w url = (HttpResponse resp, w') ->
  (400 <= status_code resp)%Z ->
  res (Google100.extract_page_text url w)
  = Ret (false, msg_http ++ Py.str_of_Z (status_code resp)).
Proof.
  intros H Hs. unfold Google100.extract_page_text, try_except, bind.
  rewrite (requests_get_response _ _ _ _ H). cbn [res final events].
  destruct (Z.geb_spec (status_code resp) 400); [reflexivity|lia].
Qed.

Lemma search_page_ctype url w resp w' :
  http_get E w url = (HttpResponse resp, w') ->
  (status_code resp < 400)%Z ->
  not_html (default [] (content_type resp)) = true ->
  res (Google100.extract_page_text url w)
  = Ret (false, msg_ctype ++ default [] (content_type resp)).
Proof.
  intros H Hs Hc. unfold Google100.extract_page_text, try_except, bind.
  rewrite (requests_get_response _ _ _ _ H). cbn [res final events].
  destruct (Z.geb_spec (status_code resp) 400); [lia|].
  cbv zeta. rewrite Hc. reflexivity.
Qed.

Lemma search_page_html url w resp w' :
  http_get E w url = (HttpResponse resp, w') ->
  (status_code resp < 400)%Z ->
  not_html (default [] (content_type resp)) = false ->
  res (Google100.extract_page_text url w)
  = match bs4_text E Google100.TAGS (text resp) with
    | inl e =>
        match e with
        | RequestException msg => Ret (false, msg_network ++ msg)
        | _ => Raise e
        end
    | inr t =>
        if Py.truthy (clean_text t) then Ret (true, clean_text t)
        else Ret (false, msg_empty)
    end.
Proof.
  intros H Hs Hc. unfold Google100.extract_page_text, try_except, bind.
  rewrite (requests_get_response _ _ _ _ H). cbn [res final events].
  destruct (Z.geb_spec (status_code resp) 400); [lia|].
  cbv zeta. rewrite Hc.
  destruct (bs4_text E Google100.TAGS (text resp)) as [e|t]; simpl.
  - destruct e; reflexivity.
  - destruct (Py.truthy (clean_text t)); reflexivity.
Qed.

Lemma search_page_error url w msg w' :
  http_get E w url = (HttpError msg, w') ->
  res (Google100.extract_page_text url w)
  = Ret (false, msg_network ++ msg).
Proof.
  intros H. unfold Google100.extract_page_text, try_except, bind.
  rewrite (requests_get_error _ _ _ _ H). reflexivity.
Qed.

Lemma fetch_html_requests_total url w resp w' :
  http_get E w url = (HttpResponse resp, w') ->
  exists r, True /\ res (GoogleNews100.fetch_html_requests url w) = Ret r.
Proof.
  intros H. destruct (Z.lt_ge_cases (status_code resp) 400) as [Hs|Hs].
  - destruct (not_html (default [] (content_type resp))) eqn:Hc.
    + eexists. split; [exact I|apply (news_fetch_ctype _ _ _ _ H Hs Hc)].
    + eexists. split; [exact I|apply (news_fetch_html _ _ _ _ H Hs Hc)].
  - eexists. split; [exact I|apply (news_fetch_status _ _ _ _ H Hs)].
Qed.
End FetchFacts.

(** C4. The fetcher classifies a response by its status, then by its content
    type.  [fetch_html_requests] of GoogleNews100.py: a status 404 gives
    ok=false with a reason that contains "404"; a response below 400 whose
    content type is application/pdf gives ok=false with a reason that
    contains the content type; a status 200 with content type text/html and
    a non-empty body gives ok=true with the body, which is not empty.
    [extract_page_text] of Google100.py classifies the first two in the same
    way and hands the third to the extraction. *)
Theorem fetcher_classifies (E : Env) (url : str) (w w' : World E)
    (resp : response) :
  http_get E w url = (HttpResponse resp, w') ->
  (status_code resp = 404%Z ->
     exists reason,
       res (GoogleNews100.fetch_html_requests url w) = Ret (false, reason)
       /\ res (Google100.extract_page_text url w) = Ret (false, reason)
       /\ Py.contains (Py.lit "404") reason = true)
  /\ ((status_code resp < 400)%Z ->
      content_type resp = Some (Py.lit "application/pdf") ->
      exists reason,
        res (GoogleNews100.fetch_html_requests url w) = Ret (false, reason)
        /\ res (Google100.extract_page_text url w) = Ret (false, reason)
        /\ Py.contains (Py.lit "application/pdf") reason = true)
  /\ (content_type resp = Some (Py.lit "application/pdf") ->
      exists reason,
        res (GoogleNews100.fetch_html_requests url w) = Ret (false, reason)
        /\ res (Google100.extract_page_text url w) = Ret (false, reason))
  /\ (status_code resp = 200%Z ->
      content_type resp = Some (Py.lit "text/html") ->
      text resp <> [] ->
      res (GoogleNews100.fetch_html_requests url w) = Ret (true, text resp)
      /\ forall t, bs4_text E Google100.TAGS (text resp) = inr t ->
           clean_text t <> [] ->
           res (Google100.extract_page_text url w) = Ret (true, clean_text t)).
Proof.
  intros Hget.
  assert (Hpdf : content_type resp = Some (Py.lit "application/pdf") ->
                 not_html (default [] (content_type resp)) = true).
  { intros ->. vm_compute. reflexivity. }
  split; [|split; [|split]].
  - intros Hs. exists (msg_http ++ Py.lit "404"). split; [|split].
    + rewrite (news_fetch_status _ _ _ _ Hget) by lia. rewrite Hs.
      reflexivity.
    + rewrite (search_page_status _ _ _ _ Hget) by lia. rewrite Hs.
      reflexivity.
    + vm_compute. reflexivity.
  - intros Hs Hc. exists (msg_ctype ++ Py.lit "application/pdf").
    split; [|split].
    + rewrite (news_fetch_ctype _ _ _ _ Hget Hs (Hpdf Hc)), Hc. reflexivity.
    + rewrite (search_page_ctype _ _ _ _ Hget Hs (Hpdf Hc)), Hc. reflexivity.
    + vm_compute. reflexivity.
  - intros Hc. destruct (Z.lt_ge_cases (status_code resp) 400) as [Hs|Hs].
    + exists (msg_ctype ++ Py.lit "application/pdf"). split.
      * rewrite (news_fetch_ctype _ _ _ _ Hget Hs (Hpdf Hc)), Hc. reflexivity.
      * rewrite (search_page_ctype _ _ _ _ Hget Hs (Hpdf Hc)), Hc.
        reflexivity.
    + exists (msg_http ++ Py.str_of_Z (status_code resp)). split.
      * apply (news_fetch_status _ _ _ _ Hget Hs).
      * apply (search_page_status _ _ _ _ Hget Hs).
  - intros Hs Hc Ht.
    assert (Hh : not_html (default [] (content_type resp)) = false).
    { rewrite Hc. vm_compute. reflexivity. }
    split.
    + apply (news_fetch_html _ _ _ _ Hget); [lia|exact Hh].
    + intros t Hb Hne.
      rewrite (search_page_html _ _ _ _ Hget) by (lia || exact Hh).
      rewrite Hb. destruct (clean_text t); [congruence|reflexivity].
Qed.

(** ** One request for one page *)

Section OneGet.
Context {E : Env}.

Lemma requests_get_events url w :
  events (requests_get url w) = [EvGet url (http_get E w url).1]
  /\ final (requests_get url w) = (http_get E w url).2.
Proof.
  unfold requests_get. rewrite bind_call. cbv zeta.
  destruct (http_get E w url) as [[r|msg|msg] w']; split; reflexivity.
Qed.

Lemma news_fetch_events url w :
  events (GoogleNews100.fetch_html_requests url w)
  = [EvGet url (http_get E w url).1]
  /\ final (GoogleNews100.fetch_html_requests url w) = (http_get E w url).2.
Proof.
  unfold GoogleNews100.fetch_html_requests, try_except, bind.
  destruct (requests_get_events url w) as [He Hf].
  destruct (res (requests_get url w)) as [resp|e|] eqn:Hr.
  - destruct (_ >=? _)%Z; [cbn; rewrite He, Hf; auto|].
    cbv zeta. destruct (not_html _); cbn; rewrite He, Hf; auto.
  - cbn [res]. destruct e; cbn; rewrite ?He, ?Hf; auto.
  - cbn. rewrite He, Hf. auto.
Qed.

Lemma search_page_events url w :
  events (Google100.extract_page_text url w)
  = [EvGet url (http_get E w url).1].
Proof.
  unfold Google100.extract_page_text, try_except, bind.
  destruct (requests_get_events url w) as [He Hf].
  destruct (res (requests_get url w)) as [resp|e|] eqn:Hr.
  - destruct (_ >=? _)%Z; [cbn; rewrite He; auto|].
    cbv zeta. destruct (not_html _); [cbn; rewrite He; auto|].
    destruct (bs4_text E Google100.TAGS (text resp)) as [e|t]; cbn.
    + destruct e; cbn; rewrite ?He; auto.
    + destruct (Py.truthy (clean_text t)); cbn; rewrite He; auto.
  - cbn [res]. destruct e; cbn; rewrite ?He; auto.
  - cbn. rewrite He. auto.
Qed.
End OneGet.

(** ** Resolution of the article URL of a feed entry *)

Module FeedFacts.
Import GoogleNews100 FeedSpec.

Lemma well_formed_absolute h :
  well_formed (Some h) = true <-> absolute h.
Proof.
  unfold well_formed, absolute. rewrite andb_true_iff. split.
  - intros [H1 H2]. split; [apply truthy_nonempty, H1|exact H2].
  - intros [H1 H2]. split; [destruct h; [congruence|reflexivity]|exact H2].
Qed.

Lemma well_formed_some o :
  well_formed o = true -> exists h, o = Some h /\ absolute h.
Proof.
  destruct o as [h|]; [|discriminate]. intros H. exists h.
  split; [reflexivity|]. apply well_formed_absolute, H.
Qed.

Lemma alternate_ok_dec l :
  (exists h, alternate_ok l h /\
     bool_decide (l_rel l = Some ALTERNATE) && well_formed (l_href l) = true
     /\ l_href l = Some h /\ Py.contains NEWS_GOOGLE h = false)
  \/ ((forall h, ~ alternate_ok l h) /\
      (bool_decide (l_rel l = Some ALTERNATE) && well_formed (l_href l) = false
       \/ exists h, l_href l = Some h /\ Py.contains NEWS_GOOGLE h = true)).
Proof.
  destruct (bool_decide (l_rel l = Some ALTERNATE)) eqn:Hr.
  - apply bool_decide_eq_true in Hr.
    destruct (well_formed (l_href l)) eqn:Hw.
    + destruct (well_formed_some _ Hw) as (h & Hh & Ha).
      destruct (Py.contains NEWS_GOOGLE h) eqn:Hg.
      * right. split; [|right; exists h; auto].
        intros h' (_ & Hh' & _ & Hoff). unfold off_aggregator in Hoff.
        congruence.
      * left. exists h. repeat split; auto; apply Ha.
    + right. split; [|left; reflexivity].
      intros h' (_ & Hh' & Ha & _). rewrite Hh' in Hw.
      apply well_formed_absolute in Ha. congruence.
  - apply bool_decide_eq_false in Hr. right. split; [|left; reflexivity].
    intros h' (Hr' & _). contradiction.
Qed.

Lemma first_alternate_skip l rest :
  (forall h, ~ alternate_ok l h) ->
  first_alternate (l :: rest) = first_alternate rest.
Proof.
  intros Hn. destruct (alternate_ok_dec l) as [(h & Hok & _)|[_ [Hb|(h & Hh & Hg)]]].
  - destruct (Hn h Hok).
  - cbn [first_alternate]. rewrite Hb. reflexivity.
  - cbn [first_alternate]. rewrite Hh, Hg. cbn [negb].
    destruct (_ && _); reflexivity.
Qed.

Lemma first_alternate_take l rest h :
  alternate_ok l h -> first_alternate (l :: rest) = Some h.
Proof.
  intros Hok. destruct (alternate_ok_dec l) as [(h' & _ & Hb & Hh & Hg)|[Hn _]].
  - cbn [first_alternate]. rewrite Hb, Hh, Hg. cbn [negb].
    destruct Hok as (_ & Hh' & _). congruence.
  - destruct (Hn h Hok).
Qed.

Lemma first_alternate_found pre l post h :
  Forall (fun l' => forall h', ~ alternate_ok l' h') pre ->
  alternate_ok l h ->
  first_alternate (pre ++ l :: post) = Some h.
Proof.
  induction 1 as [|l' pre Hl' _ IH]; intros Hok; cbn [app].
  - apply first_alternate_take, Hok.
  - rewrite first_alternate_skip by exact Hl'. apply IH, Hok.
Qed.

Lemma first_alternate_sound links h :
  first_alternate links = Some h ->
  exists pre l post,
    links = pre ++ l :: post /\ alternate_ok l h
    /\ Forall (fun l' => forall h', ~ alternate_ok l' h') pre.
Proof.
  induction links as [|l links IH]; [discriminate|].
  destruct (alternate_ok_dec l) as [(h' & Hok & _)|[Hn _]].
  - rewrite (first_alternate_take _ _ _ Hok). intros [= <-].
    exists [], l, links.
    split; [reflexivity|]. split; [exact Hok|constructor].
  - rewrite first_alternate_skip by exact Hn. intros H.
    destruct (IH H) as (pre & l0 & post & -> & Hok & Hpre).
    exists (l :: pre), l0, post.
    split; [reflexivity|]. split; [exact Hok|].
    constructor; assumption.
Qed.

Section Resolution.
Context {E : Env}.

(** steps (1) and (4) as the script computes them *)
Lemma source_step e h :
  match e_source e with
  | Some src => if well_formed (s_href src) then s_href src else None
  | None => None
  end = Some h <-> source_link e h.
Proof.
  unfold source_link. destruct (e_source e) as [src|].
  - destruct (well_formed (s_href src)) eqn:Hw.
    + destruct (well_formed_some _ Hw) as (h' & Hh & Ha). split.
      * intros H. exists src. rewrite H in Hh. injection Hh as ->. auto.
      * intros (src' & [= <-] & H & _). exact H.
    + split; [discriminate|].
      intros (src' & [= <-] & H & Ha). rewrite H in Hw.
      apply well_formed_absolute in Ha. congruence.
  - split; [discriminate|]. intros (src & H & _). discriminate.
Qed.

Lemma summary_step e a :
  extract_publisher_url_from_summary e = Some a <-> summary_link e a.
Proof.
  unfold extract_publisher_url_from_summary, summary_link, off_aggregator.
  destruct (e_summary e) as [s|]; cbn [from_option id].
  - destruct s as [|c s].
    + split; [discriminate|]. intros (s' & [= <-] & H & _). congruence.
    + cbn [Py.truthy negb].
      destruct (bs4_first_href E (c :: s)) as [href|] eqn:Hb.
      * destruct (Py.startswith href HTTP) eqn:Hs;
          destruct (Py.contains NEWS_GOOGLE href) eqn:Hg; cbn [andb negb];
          (split;
           [try discriminate
           |intros (s' & [= <-] & _ & Hb' & Hs' & Hg'); congruence]).
        intros [= <-]. exists (c :: s).
        split; [reflexivity|]. split; [discriminate|]. auto.
      * split; [discriminate|].
        intros (s' & [= <-] & _ & Hb' & _). congruence.
  - split; [discriminate|]. intros (s' & H & _). discriminate.
Qed.

Lemma alternate_step e h :
  first_alternate (default [] (e_links e)) = Some h <-> alternate_link e h.
Proof.
  unfold alternate_link. split.
  - destruct (e_links e) as [links|]; [|discriminate]. cbn [from_option id].
    intros H. apply first_alternate_sound in H as (pre & l & post & H).
    exists links, pre, l, post. tauto.
  - intros (links & pre & l & post & -> & -> & Hok & Hpre).
    cbn [from_option id]. apply first_alternate_found; assumption.
Qed.

Lemma own_step e h :
  (if well_formed (e_link e) then e_link e else None) = Some h
  <-> own_link e h.
Proof.
  unfold own_link. destruct (well_formed (e_link e)) eqn:Hw.
  - destruct (well_formed_some _ Hw) as (h' & Hh & Ha). split.
    + intros H. rewrite H in Hh. injection Hh as ->. auto.
    + tauto.
  - split; [discriminate|]. intros [H Ha]. rewrite H in Hw.
    apply well_formed_absolute in Ha. congruence.
Qed.

Lemma none_of {A} (o : option A) (P : A -> Prop) :
  (forall x, o = Some x <-> P x) -> (forall x, ~ P x) -> o = None.
Proof.
  intros H Hn. destruct o as [x|]; [|reflexivity].
  destruct (Hn x). apply H. reflexivity.
Qed.

Lemma resolve_source e h :
  source_link e h -> extract_real_article_url e = Some h.
Proof.
  intros H. apply source_step in H. unfold extract_real_article_url.
  cbv zeta. rewrite H. reflexivity.
Qed.

Lemma resolve_summary e a :
  (forall h, ~ source_link e h) -> summary_link e a ->
  extract_real_article_url e = Some a.
Proof.
  intros H1 H. apply summary_step in H. unfold extract_real_article_url.
  cbv zeta. rewrite (none_of _ _ (source_step e) H1), H. reflexivity.
Qed.

Lemma resolve_alternate e h :
  (forall h, ~ source_link e h) -> (forall a, ~ summary_link e a) ->
  alternate_link e h -> extract_real_article_url e = Some h.
Proof.
  intros H1 H2 H. apply alternate_step in H.
  unfold extract_real_article_url. cbv zeta.
  rewrite (none_of _ _ (source_step e) H1).
  rewrite (none_of _ _ (summary_step e) H2), H. reflexivity.
Qed.

Lemma resolve_own e h :
  (forall h, ~ source_link e h) -> (forall a, ~ summary_link e a) ->
  (forall h, ~ alternate_link e h) ->
  own_link e h -> extract_real_article_url e = Some h.
Proof.
  intros H1 H2 H3 H. apply own_step in H.
  unfold extract_real_article_url. cbv zeta.
  rewrite (none_of _ _ (source_step e) H1).
  rewrite (none_of _ _ (summary_step e) H2).
  rewrite (none_of _ _ (alternate_step e) H3). exact H.
Qed.

Lemma resolve_none e :
  (forall h, ~ source_link e h) -> (forall a, ~ summary_link e a) ->
  (forall h, ~ alternate_link e h) -> (forall h, ~ own_link e h) ->
  extract_real_article_url e = None.
Proof.
  intros H1 H2 H3 H4.
  unfold extract_real_article_url. cbv zeta.
  rewrite (none_of _ _ (source_step e) H1).
  rewrite (none_of _ _ (summary_step e) H2).
  rewrite (none_of _ _ (alternate_step e) H3).
  apply (none_of _ _ (own_step e) H4).
Qed.

(** a resolved URL is never the empty string *)
Lemma resolved_truthy e u :
  extract_real_article_url e = Some u -> Py.truthy u = true.
Proof.
  assert (Hs : forall h, Py.startswith h HTTP = true -> Py.truthy h = true).
  { intros [|c h]; [discriminate|reflexivity]. }
  unfold extract_real_article_url. cbv zeta.
  destruct (match e_source e with Some _ => _ | None => _ end) as [h|] eqn:H1.
  { intros [= <-]. apply source_step in H1 as (_ & _ & _ & _ & H). auto. }
  destruct (extract_publisher_url_from_summary e) as [a|] eqn:H2.
  { intros [= <-]. apply summary_step in H2 as (_ & _ & _ & _ & H & _). auto. }
  destruct (first_alternate _) as [h|] eqn:H3.
  { intros [= <-].
    apply alternate_step in H3 as (? & ? & ? & ? & _ & _ & (_ & _ & [_ H] & _) & _).
    auto. }
  intros H4. apply own_step in H4 as (_ & _ & H). auto.
Qed.
End Resolution.

End FeedFacts.

(** C5. [extract_real_article_url] follows the ordered fallback: (1) the
    href of the entry's source when it is an absolute HTTP(S) URL, else (2)
    the first anchor of the summary when it is an absolute HTTP(S) URL off
    the aggregator domain, else (3) the first alternate link that is absolute
    and off the aggregator domain, else (4) the entry's own link when it is
    absolute; an entry with a well-formed source.href and a different
    summary anchor resolves to the source.href; an entry for which the four
    steps fail resolves to nothing and [search_google_news_urls] skips it. *)
Theorem feed_url_resolution (E : Env) (e : entry) :
  (forall h, FeedSpec.source_link e h ->
     GoogleNews100.extract_real_article_url e = Some h)
  /\ (forall a, (forall h, ~ FeedSpec.source_link e h) ->
        FeedSpec.summary_link e a ->
        GoogleNews100.extract_real_article_url e = Some a)
  /\ (forall h, (forall h, ~ FeedSpec.source_link e h) ->
        (forall a, ~ FeedSpec.summary_link e a) ->
        FeedSpec.alternate_link e h ->
        GoogleNews100.extract_real_article_url e = Some h)
  /\ (forall h, (forall h, ~ FeedSpec.source_link e h) ->
        (forall a, ~ FeedSpec.summary_link e a) ->
        (forall h, ~ FeedSpec.alternate_link e h) ->
        FeedSpec.own_link e h ->
        GoogleNews100.extract_real_article_url e = Some h)
  /\ (forall h a, FeedSpec.source_link e h -> FeedSpec.summary_link e a ->
        a <> h -> GoogleNews100.extract_real_article_url e = Some h)
  /\ ((forall h, ~ FeedSpec.source_link e h) ->
      (forall a, ~ FeedSpec.summary_link e a) ->
      (forall h, ~ FeedSpec.alternate_link e h) ->
      (forall h, ~ FeedSpec.own_link e h) ->
      GoogleNews100.extract_real_article_url e = None
      /\ forall rest urls max_results,
           (Z.of_nat (length urls) < max_results)%Z ->
           GoogleNews100.feed_loop (e :: rest) urls max_results
           = GoogleNews100.feed_loop rest urls max_results).
Proof.
  split; [intros h; apply FeedFacts.resolve_source|].
  split; [intros a; apply FeedFacts.resolve_summary|].
  split; [intros h; apply FeedFacts.resolve_alternate|].
  split; [intros h; apply FeedFacts.resolve_own|].
  split; [intros h a H _ _; apply FeedFacts.resolve_source, H|].
  intros H1 H2 H3 H4.
  pose proof (FeedFacts.resolve_none e H1 H2 H3 H4) as Hn.
  split; [exact Hn|].
  intros rest urls max_results Hlt. cbn [GoogleNews100.feed_loop].
  rewrite Hn. destruct (Z.geb_spec (Z.of_nat (length urls)) max_results);
    [lia|reflexivity].
Qed.

(** ** The browser fallback *)

Module BrowserFacts.
Import GoogleNews100.

Section Facts.
Context {E : Env}.

Lemma extract_text_from_html_silent html w :
  events (extract_text_from_html html w) = []
  /\ final (extract_text_from_html html w) = w.
Proof.
  unfold extract_text_from_html, try_except, html_to_text, bind, lift, ret.
  destruct (readability_summary E html) as [e|article];
    cbn [res final events app]; [split; reflexivity|].
  destruct (bs4_text E TAGS article) as [e|t];
    cbn [res final events app]; [split; reflexivity|].
  destruct (negb (Py.truthy (clean_text t)));
    cbn [res final events app]; split; reflexivity.
Qed.

Lemma click_buttons_run texts : forall w,
  exists p w',
    click_buttons texts w = Run (Ret tt) w' p
    /\ click_pass EvClickRole texts p.
Proof.
  induction texts as [|t texts IH]; intros w.
  - exists [], w. split; [reflexivity|]. left. reflexivity.
  - cbn [click_buttons]. rewrite bind_call. cbv zeta.
    destruct (pw_click_role E w t) as [[|] w1]; cbn [fst snd].
    + exists [EvClickRole t true; EvSleep 1000], w1.
      split; [reflexivity|]. right. exists [], t, texts. auto.
    + destruct (IH w1) as (p & w' & Hr & Hp). rewrite Hr.
      exists (EvClickRole t false :: p), w'. split; [reflexivity|].
      destruct Hp as [->|(pre & t' & post & -> & ->)].
      * left. reflexivity.
      * right. exists (t :: pre), t', post. auto.
Qed.

Lemma click_texts_run texts : forall w,
  exists p w',
    click_texts texts w = Run (Ret tt) w' p
    /\ click_pass EvClickText texts p.
Proof.
  induction texts as [|t texts IH]; intros w.
  - exists [], w. split; [reflexivity|]. left. reflexivity.
  - cbn [click_texts]. rewrite bind_call. cbv zeta.
    destruct (pw_click_text E w t) as [[|] w1]; cbn [fst snd].
    + exists [EvClickText t true; EvSleep 1000], w1.
      split; [reflexivity|]. right. exists [], t, texts. auto.
    + destruct (IH w1) as (p & w' & Hr & Hp). rewrite Hr.
      exists (EvClickText t false :: p), w'. split; [reflexivity|].
      destruct Hp as [->|(pre & t' & post & -> & ->)].
      * left. reflexivity.
      * right. exists (t :: pre), t', post. auto.
Qed.

Lemma playwright_goto_failed url w e w1 :
  pw_goto E w url = (Some e, w1) ->
  fetch_html_playwright url w
  = Run (Ret (false, msg_playwright ++ exn_text e)) w1 [EvGoto url (Some e)].
Proof.
  intros H. unfold fetch_html_playwright, try_except.
  rewrite bind_call, H. reflexivity.
Qed.

Lemma playwright_session w1 :
  exists p1 p2 w4,
    click_pass EvClickRole BUTTON_TEXTS p1
    /\ click_pass EvClickText FALLBACK_TEXTS p2
    /\ (let! _ := click_buttons BUTTON_TEXTS in
        let! _ := click_texts FALLBACK_TEXTS in
        let! r := call (pw_content E) EvContent in
        let! html := lift r in
        ret (true, html)) w1
       = Run (match (pw_content E w4).1 with
              | inr html => Ret (true, html)
              | inl e => Raise e
              end)
             (pw_content E w4).2
             (p1 ++ p2 ++ [EvContent (pw_content E w4).1]).
Proof.
  destruct (click_buttons_run BUTTON_TEXTS w1) as (p1 & w2 & Hr1 & Hp1).
  destruct (click_texts_run FALLBACK_TEXTS w2) as (p2 & w3 & Hr2 & Hp2).
  exists p1, p2, w3. split; [exact Hp1|]. split; [exact Hp2|].
  rewrite (bind_run_ret _ _ w1 tt) by (rewrite Hr1; reflexivity).
  rewrite Hr1. cbv zeta. cbn [res final events].
  rewrite (bind_run_ret _ _ w2 tt) by (rewrite Hr2; reflexivity).
  rewrite Hr2. cbv zeta. cbn [res final events].
  rewrite bind_call. cbv zeta. rewrite bind_lift.
  destruct (pw_content E w3) as [[e|html] w4]; reflexivity.
Qed.

Lemma playwright_goto_done url w w1 :
  pw_goto E w url = (None, w1) ->
  exists p1 p2 r,
    events (fetch_html_playwright url w)
    = [EvGoto url None] ++ p1 ++ p2 ++ [EvContent r]
    /\ click_pass EvClickRole BUTTON_TEXTS p1
    /\ click_pass EvClickText FALLBACK_TEXTS p2
    /\ res (fetch_html_playwright url w)
       = Ret (match r with
              | inr html => (true, html)
              | inl e => (false, msg_playwright ++ exn_text e)
              end).
Proof.
  intros H.
  destruct (playwright_session w1) as (p1 & p2 & w4 & Hp1 & Hp2 & Hs).
  exists p1, p2, (pw_content E w4).1.
  unfold fetch_html_playwright, try_except.
  rewrite bind_call, H. cbv zeta. cbn [fst snd]. rewrite Hs.
  destruct (pw_content E w4) as [[e|html] w5]; cbn [fst snd];
    cbn [ret res final events]; rewrite ?app_nil_r;
    repeat split; auto.
Qed.

Lemma playwright_starts url w :
  exists err rest,
    events (fetch_html_playwright url w) = EvGoto url err :: rest.
Proof.
  destruct (pw_goto E w url) as [[e|] w1] eqn:H.
  - rewrite (playwright_goto_failed _ _ _ _ H). eauto.
  - destruct (playwright_goto_done _ _ _ H) as (p1 & p2 & r & He & _).
    rewrite He. eauto.
Qed.
End Facts.

End BrowserFacts.

(** ** What the parts of a run leave out of the trace *)

Section Quiet.
Context {E : Env}.
Variable K : event -> bool.
Hypothesis Ksleep : forall ms, K (EvSleep ms) = false.
Hypothesis Ksearch : forall p o, K (EvSearch p o) = false.
Hypothesis Kfeed : forall u es, K (EvFeed u es) = false.
Hypothesis Kbrowser : forall ev, is_browser ev = true -> K ev = false.

Lemma search_loop_avoids fuel query api_key cx max_results :
  forall urls start,
  avoids K (Google100.search_loop fuel query api_key cx max_results urls
              start).
Proof.
  induction fuel as [|fuel IH]; intros urls start; cbn [Google100.search_loop];
    [apply avoids_out_of_fuel|].
  destruct (_ <? _)%Z; [|apply avoids_ret]. cbv zeta.
  apply avoids_bind; [apply avoids_call; intros; apply Ksearch|].
  intros [r|msg]; [|apply avoids_raise].
  destruct (negb _); [apply avoids_raise|].
  apply avoids_bind; [apply avoids_lift|]. intros data.
  destruct (default [] data) as [|it items]; [apply avoids_ret|].
  destruct (_ >? 91)%Z; [apply avoids_ret|].
  apply avoids_bind; [apply avoids_emit, Ksleep|]. intros _. apply IH.
Qed.

Lemma google_custom_search_avoids fuel query api_key cx max_results :
  avoids K (Google100.google_custom_search fuel query api_key cx max_results).
Proof.
  unfold Google100.google_custom_search.
  apply avoids_bind; [apply search_loop_avoids|]. intros urls.
  apply avoids_ret.
Qed.

Lemma search_google_news_urls_avoids query max_results :
  avoids K (GoogleNews100.search_google_news_urls query max_results).
Proof.
  unfold GoogleNews100.search_google_news_urls, GoogleNews100.google_news_rss.
  apply avoids_bind; [apply avoids_call; intros; apply Kfeed|].
  intros entries. apply avoids_ret.
Qed.

Lemma click_buttons_avoids texts : avoids K (GoogleNews100.click_buttons texts).
Proof.
  induction texts as [|t texts IH]; cbn [GoogleNews100.click_buttons];
    [apply avoids_ret|].
  apply avoids_bind; [apply avoids_call; intros; apply Kbrowser; reflexivity|].
  intros [|]; [apply avoids_emit, Ksleep|exact IH].
Qed.

Lemma click_texts_avoids texts : avoids K (GoogleNews100.click_texts texts).
Proof.
  induction texts as [|t texts IH]; cbn [GoogleNews100.click_texts];
    [apply avoids_ret|].
  apply avoids_bind; [apply avoids_call; intros; apply Kbrowser; reflexivity|].
  intros [|]; [apply avoids_emit, Ksleep|exact IH].
Qed.

Lemma fetch_html_playwright_avoids url :
  avoids K (GoogleNews100.fetch_html_playwright url).
Proof.
  unfold GoogleNews100.fetch_html_playwright. apply avoids_try.
  - apply avoids_bind;
      [apply avoids_call; intros; apply Kbrowser; reflexivity|].
    intros [e|]; [apply avoids_raise|].
    apply avoids_bind; [apply click_buttons_avoids|]. intros _.
    apply avoids_bind; [apply click_texts_avoids|]. intros _.
    apply avoids_bind;
      [apply avoids_call; intros; apply Kbrowser; reflexivity|].
    intros r. apply avoids_bind; [apply avoids_lift|]. intros html.
    apply avoids_ret.
  - intros e k [= <-]. apply avoids_ret.
Qed.

Lemma extract_text_from_html_avoids html :
  avoids K (GoogleNews100.extract_text_from_html html).
Proof.
  intros w.
  rewrite (proj1 (BrowserFacts.extract_text_from_html_silent html w)).
  reflexivity.
Qed.

(** What [extract_page_text] of GoogleNews100.py does after the fetch. *)
Lemma news_page_rest_avoids url ok html :
  avoids K
    (if negb ok then ret (false, html)
     else if GoogleNews100.looks_like_cookie_consent_page html then
       let! (ok_pw, html_pw_or_err) :=
         GoogleNews100.fetch_html_playwright url in
       if negb ok_pw then ret (false, html_pw_or_err)
       else GoogleNews100.extract_text_from_html html_pw_or_err
     else GoogleNews100.extract_text_from_html html).
Proof.
  destruct ok; cbn [negb]; [|apply avoids_ret].
  destruct (GoogleNews100.looks_like_cookie_consent_page html);
    [|apply extract_text_from_html_avoids].
  apply avoids_bind; [apply fetch_html_playwright_avoids|].
  intros [ok2 html2]. destruct ok2; cbn [negb]; [|apply avoids_ret].
  apply extract_text_from_html_avoids.
Qed.
End Quiet.

(** ** No write before the end *)

Module WriteFacts.

Section Facts.
Context {E : Env}.

Lemma search_page_no_write url : avoids is_write (Google100.extract_page_text url).
Proof. intros w. rewrite search_page_events. reflexivity. Qed.

Lemma search_main_urls_no_write urls : forall all_results already_done,
  avoids is_write (Google100.main_urls urls all_results already_done).
Proof.
  induction urls as [|url urls IH]; intros acc done;
    cbn [Google100.main_urls]; [apply avoids_ret|].
  destruct (decide (url ∈ done)); [apply IH|].
  apply avoids_bind; [apply search_page_no_write|]. intros [ok c].
  apply avoids_bind; [apply avoids_emit; reflexivity|]. intros _. apply IH.
Qed.

Lemma search_main_keywords_no_write fuel keywords api_key cx max_results :
  forall all_results already_done,
  avoids is_write
    (Google100.main_keywords fuel keywords api_key cx max_results
       all_results already_done).
Proof.
  induction keywords as [|kw keywords IH]; intros acc done;
    cbn [Google100.main_keywords]; [apply avoids_ret|].
  apply avoids_bind;
    [apply google_custom_search_avoids; reflexivity|].
  intros urls.
  apply avoids_bind; [apply search_main_urls_no_write|].
  intros [acc' done']. apply IH.
Qed.

Lemma news_page_no_write url :
  avoids is_write (GoogleNews100.extract_page_text url).
Proof.
  unfold GoogleNews100.extract_page_text. apply avoids_bind.
  - intros w. rewrite (proj1 (news_fetch_events url w)). reflexivity.
  - intros [ok html].
    apply news_page_rest_avoids;
      auto using is_write_browser.
Qed.

Lemma news_main_urls_no_write urls : forall all_results already_done,
  avoids is_write (GoogleNews100.main_urls urls all_results already_done).
Proof.
  induction urls as [|url urls IH]; intros acc done;
    cbn [GoogleNews100.main_urls]; [apply avoids_ret|].
  destruct (decide (url ∈ done)); [apply IH|].
  destruct (GoogleNews100.is_google_or_consent_url url); [apply IH|].
  apply avoids_bind; [apply news_page_no_write|]. intros [ok c].
  apply avoids_bind; [apply avoids_emit; reflexivity|]. intros _. apply IH.
Qed.

Lemma news_main_keywords_no_write keywords max_results :
  forall all_results already_done,
  avoids is_write
    (GoogleNews100.main_keywords keywords max_results all_results
       already_done).
Proof.
  induction keywords as [|kw keywords IH]; intros acc done;
    cbn [GoogleNews100.main_keywords]; [apply avoids_ret|].
  apply avoids_bind;
    [apply search_google_news_urls_avoids; reflexivity|].
  intros urls.
  apply avoids_bind; [apply news_main_urls_no_write|].
  intros [acc' done']. apply IH.
Qed.

(** The write at the end of [main]. *)
Lemma write_results_run output_file results w :
  Google100.write_results output_file results w
  = let ew := fs_write E w output_file (write_results_text results) in
    Run (match ew.1 with Some e => Raise e | None => Ret tt end) ew.2
        [EvWrite output_file (write_results_text results) ew.1].
Proof.
  unfold Google100.write_results. cbv zeta. rewrite bind_call. cbv zeta.
  destruct (fs_write E w output_file (write_results_text results))
    as [[e|] w']; reflexivity.
Qed.

(** [main] after the loop over the keywords. *)
Lemma main_tail {A} (mk : M (list page_result * A)) output_file w :
  (let! (all_results, _) := mk in
   let! _ := Google100.write_results output_file all_results in
   ret all_results) w
  = match res (mk w) with
    | Ret (rs, _) =>
        let ew := fs_write E (final (mk w)) output_file
                    (write_results_text rs) in
        Run (match ew.1 with Some e => Raise e | None => Ret rs end) ew.2
            (events (mk w)
             ++ [EvWrite output_file (write_results_text rs) ew.1])
    | Raise e => Run (Raise e) (final (mk w)) (events (mk w))
    | OutOfFuel => Run OutOfFuel (final (mk w)) (events (mk w))
    end.
Proof.
  destruct (res (mk w)) as [[rs a]|e|] eqn:Hr.
  - rewrite (bind_run_ret _ _ _ _ Hr). cbv zeta.
    unfold bind. rewrite write_results_run. cbv zeta.
    destruct (fs_write E (final (mk w)) output_file (write_results_text rs))
      as [[e|] w']; reflexivity.
  - apply (bind_run_raise _ _ _ _ Hr).
  - apply (bind_run_out_of_fuel _ _ _ Hr).
Qed.

(** A run that ends as [main] does writes at the end. *)
Lemma main_written_at_end {A} (mk : M (list page_result * A)) output_file w :
  avoids is_write mk ->
  written_at_end output_file
    ((let! (all_results, _) := mk in
      let! _ := Google100.write_results output_file all_results in
      ret all_results) w).
Proof.
  intros Hq. rewrite main_tail. specialize (Hq w).
  destruct (res (mk w)) as [[rs a]|e|] eqn:Hr.
  - right. cbv zeta.
    exists (events (mk w)), rs,
      (fs_write E (final (mk w)) output_file (write_results_text rs)).1.
    cbn [res events]. split; [reflexivity|]. split; [exact Hq|].
    destruct (fs_write E (final (mk w)) output_file
                (write_results_text rs)).1; reflexivity.
  - left. cbn [res events]. split; [exact Hq|discriminate].
  - left. cbn [res events]. split; [exact Hq|discriminate].
Qed.
End Facts.

End WriteFacts.

Lemma is_write_failure_write ev : is_write_failure ev = true -> is_write ev = true.
Proof. destruct ev; (reflexivity || discriminate). Qed.

Lemma no_write_no_failure evs :
  List.filter is_write evs = [] -> write_failed evs = false.
Proof.
  induction evs as [|ev evs IH]; [reflexivity|].
  cbn [List.filter write_failed existsb].
  destruct ev; cbn [is_write is_write_failure orb]; try exact IH.
  discriminate.
Qed.

(** ** The pagination loop of google_custom_search *)

Module SearchFacts.
Import Google100.

Section Loop.
Context {E : Env}.
Variables (query api_key cx : str) (max_results : Z).

(** One iteration of the loop. *)
Lemma search_loop_step fuel urls start w :
  search_loop (S fuel) query api_key cx max_results urls start w =
  if (Z.of_nat (length urls) <? max_results)%Z then
    let ow := api_get E w (SearchParams api_key cx query 10 start) in
    let ev := EvSearch (SearchParams api_key cx query 10 start) ow.1 in
    match ow.1 with
    | ApiError msg => Run (Raise (RequestException msg)) ow.2 [ev]
    | ApiAnswer r =>
        if negb (api_status r =? 200)%Z then
          Run (Raise (RuntimeError (api_error_message query r))) ow.2 [ev]
        else
          match api_json r with
          | inl e => Run (Raise e) ow.2 [ev]
          | inr data =>
              match default [] data with
              | [] => Run (Ret urls) ow.2 [ev]
              | items =>
                  let urls' := collect_links items urls max_results in
                  if (start + 10 >? 91)%Z then Run (Ret urls') ow.2 [ev]
                  else
                    let r2 := search_loop fuel query api_key cx max_results
                                urls' (start + 10)%Z ow.2 in
                    Run (res r2) (final r2)
                        (ev :: EvSleep SLEEP_BETWEEN_REQUESTS_MS :: events r2)
              end
          end
    end
  else Run (Ret urls) w [].
Proof.
  cbn [search_loop]. destruct (_ <? _)%Z; [|reflexivity].
  rewrite bind_call. cbv zeta.
  destruct (api_get E w (SearchParams api_key cx query 10 start)) as [o w1].
  cbn [fst snd].
  destruct o as [r|msg]; [|reflexivity].
  destruct (negb (api_status r =? 200)%Z); [reflexivity|].
  rewrite bind_lift. destruct (api_json r) as [e|data]; [reflexivity|].
  destruct (default [] data) as [|it items]; [reflexivity|].
  destruct (_ >? 91)%Z; [reflexivity|].
  unfold sleep. rewrite bind_emit. reflexivity.
Qed.

Lemma collect_links_bound items : forall urls,
  (Z.of_nat (length urls) < max_results)%Z ->
  (Z.of_nat (length (collect_links items urls max_results))
   <= max_results)%Z.
Proof.
  induction items as [|it items IH]; intros urls H; cbn [collect_links].
  - lia.
  - destruct (item_link it) as [link|]; [|apply IH, H].
    destruct (Py.truthy link); [|apply IH, H].
    destruct (Z.geb_spec (Z.of_nat (length (urls ++ [link]))) max_results)
      as [Hge|Hlt].
    + rewrite length_app in *. simpl in *. lia.
    + apply IH. exact Hlt.
Qed.

Lemma request_starts_cons p o evs :
  request_starts (EvSearch p o :: evs) = p_start p :: request_starts evs.
Proof. reflexivity. Qed.

(** Termination: with [n] offsets left, [n] units of fuel are enough, more
    fuel changes nothing, and the offsets requested are the next ones. *)
Lemma search_loop_terminates n : forall i fuel urls w,
  i + n = 10 -> 1 <= n -> n <= fuel ->
  let r := search_loop fuel query api_key cx max_results urls
             (1 + 10 * Z.of_nat i)%Z w in
  res r <> OutOfFuel
  /\ r = search_loop n query api_key cx max_results urls
           (1 + 10 * Z.of_nat i)%Z w
  /\ request_starts (events r) `prefix_of` offsets_from i n.
Proof.
  induction n as [|n IH]; intros i fuel urls w Hi Hn Hf; [lia|].
  destruct fuel as [|fuel]; [lia|]. cbv zeta.
  rewrite !search_loop_step.
  destruct (_ <? _)%Z;
    [|split; [discriminate|split; [reflexivity|apply prefix_nil]]].
  cbv zeta. set (ow := api_get E w _).
  assert (Hone : forall x,
            request_starts
              [EvSearch
                 (SearchParams api_key cx query 10 (1 + 10 * Z.of_nat i)) x]
            `prefix_of` offsets_from i (S n)).
  { intros x. exists (offsets_from (S i) n). reflexivity. }
  destruct ow.1 as [r|msg];
    [|split; [discriminate|split; [reflexivity|apply Hone]]].
  destruct (negb _);
    [split; [discriminate|split; [reflexivity|apply Hone]]|].
  destruct (api_json r) as [e|data];
    [split; [discriminate|split; [reflexivity|apply Hone]]|].
  destruct (default [] data) as [|it items];
    [split; [discriminate|split; [reflexivity|apply Hone]]|].
  destruct (Z.gtb_spec (1 + 10 * Z.of_nat i + 10) 91) as [Hgt|Hle];
    [split; [discriminate|split; [reflexivity|apply Hone]]|].
  assert (Hs : (1 + 10 * Z.of_nat i + 10 = 1 + 10 * Z.of_nat (S i))%Z) by lia.
  rewrite Hs.
  destruct (IH (S i) fuel (collect_links (it :: items) urls max_results)
              ow.2) as (H1 & H2 & H3); [lia|lia|lia|].
  cbn [res final events]. split; [exact H1|]. split.
  - rewrite H2. reflexivity.
  - rewrite request_starts_cons. cbn [p_start].
    change (offsets_from i (S n))
      with ((1 + 10 * Z.of_nat i)%Z :: offsets_from (S i) n).
    apply prefix_cons. exact H3.
Qed.

(** The call raises exactly when one of its API requests failed. *)
Lemma search_loop_raises fuel : forall urls start w,
  let r := search_loop fuel query api_key cx max_results urls start w in
  raised r <-> some_api_failure (events r) = true.
Proof.
  unfold raised.
  induction fuel as [|fuel IH]; intros urls start w; cbv zeta.
  - cbn. split; [intros [e H]; discriminate|discriminate].
  - rewrite search_loop_step.
    destruct (_ <? _)%Z;
      [|cbn; split; [intros [e H]; discriminate|discriminate]].
    cbv zeta. set (ow := api_get E w _).
    unfold some_api_failure.
    destruct ow.1 as [r|msg] eqn:Ho;
      [|cbn; split; [reflexivity|intros _; eexists; reflexivity]].
    destruct (negb (api_status r =? 200)%Z) eqn:Hst.
    { cbn. rewrite Hst. split; [reflexivity|intros _; eexists; reflexivity]. }
    destruct (api_json r) as [e|data] eqn:Hj.
    { cbn. rewrite Hst, Hj.
      split; [reflexivity|intros _; eexists; reflexivity]. }
    assert (Hok : api_failed (ApiAnswer r) = false).
    { cbn. rewrite Hst, Hj. reflexivity. }
    destruct (default [] data) as [|it items].
    { cbn [res events searches existsb snd]. rewrite Hok.
      split; [intros [e H]; discriminate|discriminate]. }
    destruct (_ >? 91)%Z.
    { cbn [res events searches existsb snd]. rewrite Hok.
      split; [intros [e H]; discriminate|discriminate]. }
    cbn [res events searches existsb snd]. rewrite Hok. cbn [orb].
    apply IH.
Qed.

(** The list collected never exceeds the cap. *)
Lemma search_loop_bound fuel : forall urls start w raw,
  res (search_loop fuel query api_key cx max_results urls start w)
  = Ret raw ->
  (Z.of_nat (length raw)
   <= Z.max (Z.of_nat (length urls)) max_results)%Z.
Proof.
  induction fuel as [|fuel IH]; intros urls start w raw; [discriminate|].
  rewrite search_loop_step.
  destruct (Z.ltb_spec (Z.of_nat (length urls)) max_results) as [Hlt|Hge];
    [|intros [= <-]; lia].
  cbv zeta. set (ow := api_get E w _).
  destruct ow.1 as [r|msg]; [|discriminate].
  destruct (negb _); [discriminate|].
  destruct (api_json r) as [e|data]; [discriminate|].
  destruct (default [] data) as [|it items]; [intros [= <-]; lia|].
  pose proof (collect_links_bound (it :: items) urls Hlt) as Hb.
  destruct (_ >? 91)%Z.
  { intros H. cbn [res] in H.
    replace raw with (collect_links (it :: items) urls max_results)
      by congruence.
    lia. }
  cbn [res]. intros H. apply IH in H. lia.
Qed.

(** Once the cap is reached the loop does nothing more. *)
Lemma search_loop_full fuel urls start w :
  (max_results <= Z.of_nat (length urls))%Z ->
  events (search_loop fuel query api_key cx max_results urls start w) = [].
Proof.
  intros H. destruct fuel as [|fuel]; [reflexivity|].
  rewrite search_loop_step.
  destruct (Z.ltb_spec (Z.of_nat (length urls)) max_results) as [Hlt|Hge];
    [lia|reflexivity].
Qed.

(** When a request is issued, and what may follow it. *)
Lemma search_loop_requests fuel : forall urls start w pre p o post,
  events (search_loop fuel query api_key cx max_results urls start w)
  = pre ++ EvSearch p o :: post ->
  (Z.of_nat (length (collected max_results urls pre)) < max_results)%Z
  /\ (api_no_items o = true -> post = [])
  /\ (p_start p = 91%Z -> post = [])
  /\ ((max_results
       <= Z.of_nat (length (collected max_results urls
                              (pre ++ [EvSearch p o]))))%Z ->
      post = [] \/ post = [EvSleep SLEEP_BETWEEN_REQUESTS_MS]).
Proof.
  induction fuel as [|fuel IH]; intros urls start w pre p o post.
  { cbn. intros H. destruct pre; discriminate H. }
  rewrite search_loop_step.
  destruct (Z.ltb_spec (Z.of_nat (length urls)) max_results) as [Hlt|Hge];
    [|cbn; intros H; destruct pre; discriminate H].
  cbv zeta. set (ow := api_get E w _).
  assert (Hone : forall x,
    [EvSearch (SearchParams api_key cx query 10 start) x]
    = pre ++ EvSearch p o :: post ->
    (Z.of_nat (length (collected max_results urls pre)) < max_results)%Z
    /\ (api_no_items o = true -> post = [])
    /\ (p_start p = 91%Z -> post = [])
    /\ ((max_results
         <= Z.of_nat (length (collected max_results urls
                                (pre ++ [EvSearch p o]))))%Z ->
        post = [] \/ post = [EvSleep SLEEP_BETWEEN_REQUESTS_MS])).
  { intros x H. destruct pre as [|e1 pre].
    - injection H as _ _ <-. cbn. auto.
    - injection H as _ H. destruct pre; discriminate H. }
  destruct ow.1 as [r|msg] eqn:Ho; [|apply Hone].
  destruct (negb _); [apply Hone|].
  destruct (api_json r) as [e|data] eqn:Hj; [apply Hone|].
  destruct (default [] data) as [|it items] eqn:Hd; [apply Hone|].
  destruct (Z.gtb_spec (start + 10) 91) as [Hgt|Hle]; [apply Hone|].
  cbn [events]. intros H.
  assert (Hitems : answer_items (ApiAnswer r) = it :: items).
  { cbn. rewrite Hj, Hd. reflexivity. }
  destruct pre as [|e1 pre].
  - injection H as <- <- <-. cbn [collected searches fold_left app snd].
    split; [exact Hlt|]. split.
    { cbn. rewrite Hj, Hd. discriminate. }
    split.
    { cbn [p_start]. intros Hs. lia. }
    rewrite Hitems. intros Hfull.
    right. f_equal. apply search_loop_full. exact Hfull.
  - injection H as <- H.
    destruct pre as [|e2 pre]; [discriminate H|].
    injection H as <- H.
    apply IH in H. destruct H as (H1 & H2 & H3 & H4).
    cbn [collected searches fold_left app snd] in *.
    rewrite Hitems. split; [exact H1|]. split; [exact H2|].
    split; [exact H3|exact H4].
Qed.

Lemma last_cons_cons {A} (x y : A) l : last (x :: y :: l) = last (y :: l).
Proof. reflexivity. Qed.

(** Why the loop stopped. *)
Lemma search_loop_stops fuel : forall i urls w raw,
  i <= 9 ->
  let r := search_loop fuel query api_key cx max_results urls
             (1 + 10 * Z.of_nat i)%Z w in
  res r = Ret raw ->
  (max_results <= Z.of_nat (length raw))%Z
  \/ last_page_empty (events r)
  \/ length (searches (events r)) = 10 - i.
Proof.
  induction fuel as [|fuel IH]; intros i urls w raw Hi; cbv zeta;
    [discriminate|].
  rewrite search_loop_step.
  destruct (Z.ltb_spec (Z.of_nat (length urls)) max_results) as [Hlt|Hge];
    [|intros [= <-]; left; lia].
  cbv zeta. set (ow := api_get E w _).
  destruct ow.1 as [r|msg] eqn:Ho; [|discriminate].
  destruct (negb _); [discriminate|].
  destruct (api_json r) as [e|data] eqn:Hj; [discriminate|].
  destruct (default [] data) as [|it items] eqn:Hd.
  { intros _. right. left. eexists. split; [reflexivity|].
    cbn. rewrite Hj, Hd. reflexivity. }
  destruct (Z.gtb_spec (1 + 10 * Z.of_nat i + 10) 91) as [Hgt|Hle].
  { intros _. right. right. cbn. lia. }
  assert (Hs : (1 + 10 * Z.of_nat i + 10 = 1 + 10 * Z.of_nat (S i))%Z) by lia.
  rewrite Hs. cbn [res events]. intros H.
  destruct (IH (S i) _ _ _ ltac:(lia) H) as [H1|[(x & Hx & Hn)|H3]].
  - left. exact H1.
  - right. left. exists x. split; [|exact Hn].
    cbn [searches].
    destruct (searches (events (search_loop fuel query api_key cx
      max_results (collect_links (it :: items) urls max_results)
      (1 + 10 * Z.of_nat (S i)) ow.2))) as [|y l];
      [discriminate|].
    rewrite last_cons_cons. exact Hx.
  - right. right. cbn [searches length]. rewrite H3. lia.
Qed.

(** [google_custom_search] as a run of the loop. *)
Lemma google_custom_search_run fuel w :
  google_custom_search fuel query api_key cx max_results w =
  let r := search_loop fuel query api_key cx max_results [] 1%Z w in
  Run (match res r with
       | Ret raw => Ret (dedup_truncate raw max_results)
       | Raise e => Raise e
       | OutOfFuel => OutOfFuel
       end) (final r) (events r).
Proof.
  unfold google_custom_search, bind. cbv zeta.
  destruct (res (search_loop fuel query api_key cx max_results [] 1%Z w));
    [|reflexivity|reflexivity].
  cbn [ret res final events]. rewrite app_nil_r. reflexivity.
Qed.
End Loop.

End SearchFacts.

(** ** Traces of the pagination loop *)

Module SearchMore.
Import Google100.

Lemma collect_links_from items : forall urls max_results,
  exists l,
    collect_links items urls max_results = urls ++ l
    /\ sublist l (omap item_link items)
    /\ Forall (fun u => Py.truthy u = true) l.
Proof.
  induction items as [|it items IH]; intros urls max_results.
  - exists []. cbn. rewrite app_nil_r. repeat split; constructor.
  - cbn [collect_links omap list_omap].
    destruct (item_link it) as [link|].
    + destruct (Py.truthy link) eqn:Ht.
      * destruct (_ >=? _)%Z.
        { exists [link]. split; [reflexivity|]. split.
          - apply sublist_skip, sublist_nil_l.
          - repeat constructor. exact Ht. }
        destruct (IH (urls ++ [link]) max_results) as (l & H1 & H2 & H3).
        exists (link :: l). rewrite H1, <- app_assoc. split; [reflexivity|].
        split; [apply sublist_skip, H2|constructor; assumption].
      * destruct (IH urls max_results) as (l & H1 & H2 & H3).
        exists l. split; [exact H1|]. split; [apply sublist_cons, H2|exact H3].
    + apply IH.
Qed.

Section Loop.
Context {E : Env}.
Variables (query api_key cx : str) (max_results : Z).

Lemma trace_links_cons p o evs :
  trace_links (EvSearch p o :: evs) = answer_links o ++ trace_links evs.
Proof. reflexivity. Qed.

(** What the loop adds to [urls] comes from the answers, in rank order. *)
Lemma search_loop_from fuel : forall urls start w raw,
  let r := search_loop fuel query api_key cx max_results urls start w in
  res r = Ret raw ->
  exists l,
    raw = urls ++ l
    /\ sublist l (trace_links (events r))
    /\ Forall (fun u => Py.truthy u = true) l.
Proof.
  induction fuel as [|fuel IH]; intros urls start w raw; cbv zeta;
    [discriminate|].
  rewrite SearchFacts.search_loop_step.
  assert (Hnil : forall (w' : World E) evs,
            res (Run (Ret urls) w' evs) = Ret raw ->
            exists l, raw = urls ++ l
              /\ sublist l (trace_links (events (Run (Ret urls) w' evs)))
              /\ Forall (fun u => Py.truthy u = true) l).
  { intros w' evs [= <-]. exists []. rewrite app_nil_r.
    split; [reflexivity|]. split; [apply sublist_nil_l|constructor]. }
  destruct (_ <? _)%Z; [|apply Hnil].
  cbv zeta. set (ow := api_get E w _).
  destruct ow.1 as [r|msg] eqn:Ho; [|discriminate].
  destruct (negb _); [discriminate|].
  destruct (api_json r) as [e|data] eqn:Hj; [discriminate|].
  destruct (default [] data) as [|it items] eqn:Hd; [apply Hnil|].
  destruct (collect_links_from (it :: items) urls max_results)
    as (l1 & H1 & H2 & H3).
  assert (Ha : answer_links (ApiAnswer r) = omap item_link (it :: items)).
  { cbn [answer_links]. rewrite Hj, Hd. reflexivity. }
  destruct (_ >? 91)%Z.
  - cbn [res events]. intros H.
    assert (raw = collect_links (it :: items) urls max_results) as ->
      by congruence.
    exists l1. split; [exact H1|]. split; [|exact H3].
    rewrite trace_links_cons, Ha.
    change (trace_links []) with (@nil str). rewrite app_nil_r. exact H2.
  - cbn [res events]. intros H.
    destruct (IH _ _ _ _ H) as (l2 & K1 & K2 & K3).
    exists (l1 ++ l2). split; [rewrite K1, H1, app_assoc; reflexivity|].
    split; [|apply Forall_app; auto].
    rewrite trace_links_cons, Ha.
    change (trace_links (EvSleep SLEEP_BETWEEN_REQUESTS_MS :: ?evs))
      with (trace_links evs).
    apply sublist_app; assumption.
Qed.

(** The trace of the loop: requests separated by pauses. *)
Lemma search_loop_paced fuel : forall urls start w,
  paced (events (search_loop fuel query api_key cx max_results urls start w))
  = true.
Proof.
  induction fuel as [|fuel IH]; intros urls start w; [reflexivity|].
  rewrite SearchFacts.search_loop_step.
  destruct (_ <? _)%Z; [|reflexivity].
  cbv zeta. set (ow := api_get E w _).
  destruct ow.1 as [r|msg]; [|reflexivity].
  destruct (negb _); [reflexivity|].
  destruct (api_json r) as [e|data]; [reflexivity|].
  destruct (default [] data) as [|it items]; [reflexivity|].
  destruct (_ >? 91)%Z; [reflexivity|].
  cbn [events paced]. rewrite IH. reflexivity.
Qed.

(** A failed request is the last event of the loop. *)
Lemma search_loop_fails_last fuel : forall urls start w,
  let r := search_loop fuel query api_key cx max_results urls start w in
  raised r ->
  exists pre p o,
    events r = pre ++ [EvSearch p o]
    /\ api_failed o = true /\ some_api_failure pre = false.
Proof.
  unfold raised.
  induction fuel as [|fuel IH]; intros urls start w; cbv zeta.
  - intros [e H]. discriminate.
  - rewrite SearchFacts.search_loop_step.
    destruct (_ <? _)%Z; [|intros [e H]; discriminate].
    cbv zeta. set (ow := api_get E w _).
    assert (Hlast : forall o, api_failed o = true ->
              exists pre p o',
                [EvSearch (SearchParams api_key cx query 10 start) o]
                = pre ++ [EvSearch p o']
                /\ api_failed o' = true /\ some_api_failure pre = false).
    { intros o Ho. exists [], (SearchParams api_key cx query 10 start), o.
      auto. }
    destruct ow.1 as [r|msg] eqn:Ho; [|intros _; apply Hlast; reflexivity].
    destruct (negb (api_status r =? 200)%Z) eqn:Hst.
    { intros _. apply Hlast. cbn. rewrite Hst. reflexivity. }
    destruct (api_json r) as [e|data] eqn:Hj.
    { intros _. apply Hlast. cbn. rewrite Hst, Hj. reflexivity. }
    assert (Hok : api_failed (ApiAnswer r) = false).
    { cbn. rewrite Hst, Hj. reflexivity. }
    destruct (default [] data) as [|it items]; [intros [e H]; discriminate|].
    destruct (_ >? 91)%Z; [intros [e H]; discriminate|].
    cbn [res events]. intros H.
    destruct (IH _ _ _ H) as (pre & p & o & K1 & K2 & K3).
    exists (EvSearch (SearchParams api_key cx query 10 start) (ApiAnswer r)
            :: EvSleep SLEEP_BETWEEN_REQUESTS_MS :: pre), p, o.
    rewrite K1. split; [reflexivity|]. split; [exact K2|].
    unfold some_api_failure in *. cbn [searches existsb snd].
    rewrite Hok. exact K3.
Qed.
End Loop.

End SearchMore.

(** ** The run of GoogleNews100.py *)

Section RunFacts.
Context {E : Env}.

Lemma feeds_app evs1 evs2 : feeds (evs1 ++ evs2) = feeds evs1 ++ feeds evs2.
Proof.
  induction evs1 as [|ev evs1 IH]; [reflexivity|].
  destruct ev; cbn [app feeds]; rewrite IH; reflexivity.
Qed.

Lemma fuel_free_ret {A} (a : A) : fuel_free (ret a).
Proof. intros w. discriminate. Qed.

Lemma fuel_free_raise {A} e : fuel_free (raise e : M A).
Proof. intros w. discriminate. Qed.

Lemma fuel_free_call {A} (f : World E -> A * World E) ev :
  fuel_free (call f ev).
Proof. intros w. unfold call. destruct (f w). discriminate. Qed.

Lemma fuel_free_emit ev : fuel_free (emit ev).
Proof. intros w. discriminate. Qed.

Lemma fuel_free_lift {A} (x : exn + A) : fuel_free (lift x).
Proof. destruct x; intros w; discriminate. Qed.

Lemma fuel_free_bind {A B} (m : M A) (k : A -> M B) :
  fuel_free m -> (forall a, fuel_free (k a)) -> fuel_free (bind m k).
Proof.
  intros Hm Hk w. unfold bind. specialize (Hm w).
  destruct (res (m w)) as [a| |]; [apply Hk|discriminate|congruence].
Qed.

Lemma fuel_free_try {A} (m : M A) (h : exn -> option (M A)) :
  fuel_free m -> (forall e k, h e = Some k -> fuel_free k) ->
  fuel_free (try_except m h).
Proof.
  intros Hm Hh w. unfold try_except. specialize (Hm w).
  destruct (res (m w)) as [a|e|] eqn:Hr; [congruence| |congruence].
  destruct (h e) as [k|] eqn:Hk; [apply (Hh e k Hk)|congruence].
Qed.

Lemma feedless_ret {A} (a : A) : feedless (ret a).
Proof. intros w. reflexivity. Qed.

Lemma feedless_raise {A} e : feedless (raise e : M A).
Proof. intros w. reflexivity. Qed.

Lemma feedless_lift {A} (x : exn + A) : feedless (lift x).
Proof. destruct x; intros w; reflexivity. Qed.

Lemma feedless_bind {A B} (m : M A) (k : A -> M B) :
  feedless m -> (forall a, feedless (k a)) -> feedless (bind m k).
Proof.
  intros Hm Hk w. unfold bind. specialize (Hm w).
  destruct (res (m w)) as [a| |]; cbn [events]; [|exact Hm|exact Hm].
  rewrite feeds_app, Hm. apply Hk.
Qed.

Lemma feedless_try {A} (m : M A) (h : exn -> option (M A)) :
  feedless m -> (forall e k, h e = Some k -> feedless k) ->
  feedless (try_except m h).
Proof.
  intros Hm Hh w. unfold try_except. specialize (Hm w).
  destruct (res (m w)) as [a|e|]; [exact Hm| |exact Hm].
  destruct (h e) as [k|] eqn:Hk; [|exact Hm].
  cbn [events]. rewrite feeds_app, Hm. apply (Hh e k Hk).
Qed.

Lemma feedless_call {A} (f : World E -> A * World E) ev :
  (forall a, feeds [ev a] = []) -> feedless (call f ev).
Proof. intros H w. unfold call. destruct (f w). apply H. Qed.

Lemma feedless_emit ev : feeds [ev] = [] -> feedless (emit ev).
Proof. intros H w. exact H. Qed.

Lemma requests_get_fuel url : fuel_free (requests_get url).
Proof.
  apply fuel_free_bind; [apply fuel_free_call|].
  intros [r|msg|msg]; [apply fuel_free_ret|apply fuel_free_raise..].
Qed.

Lemma requests_get_feedless url : feedless (requests_get url).
Proof.
  apply feedless_bind; [apply feedless_call; reflexivity|].
  intros [r|msg|msg]; [apply feedless_ret|apply feedless_raise..].
Qed.
End RunFacts.

Module NewsRun.
Import GoogleNews100.

Create HintDb fuel.
Create HintDb quiet.

#[local] Hint Resolve fuel_free_ret fuel_free_raise fuel_free_call
  fuel_free_emit fuel_free_lift requests_get_fuel : fuel.
#[local] Hint Resolve feedless_ret feedless_raise feedless_lift
  feedless_emit requests_get_feedless : quiet.

Section Facts.
Context {E : Env}.

Lemma click_buttons_fuel texts : fuel_free (click_buttons texts).
Proof.
  induction texts as [|t texts IH]; cbn [click_buttons]; auto with fuel.
  apply fuel_free_bind; [auto with fuel|].
  intros [|]; [apply fuel_free_emit|exact IH].
Qed.

Lemma click_texts_fuel texts : fuel_free (click_texts texts).
Proof.
  induction texts as [|t texts IH]; cbn [click_texts]; auto with fuel.
  apply fuel_free_bind; [auto with fuel|].
  intros [|]; [apply fuel_free_emit|exact IH].
Qed.

Lemma click_buttons_feedless texts : feedless (click_buttons texts).
Proof.
  induction texts as [|t texts IH]; cbn [click_buttons]; auto with quiet.
  apply feedless_bind; [apply feedless_call; reflexivity|].
  intros [|]; [apply feedless_emit; reflexivity|exact IH].
Qed.

Lemma click_texts_feedless texts : feedless (click_texts texts).
Proof.
  induction texts as [|t texts IH]; cbn [click_texts]; auto with quiet.
  apply feedless_bind; [apply feedless_call; reflexivity|].
  intros [|]; [apply feedless_emit; reflexivity|exact IH].
Qed.

(** The plain fetch returns, unless [requests.get] raised something else
    than a [RequestException]: nothing catches that. *)
Lemma fetch_html_requests_run url w :
  (exists c,
     res (fetch_html_requests url w) = Ret c /\ fetch_ok c
     /\ is_crash (EvGet url (http_get E w url).1) = false)
  \/ (exists msg,
        (http_get E w url).1 = HttpCrash msg
        /\ fetch_html_requests url w
           = Run (Raise (OtherException msg)) (http_get E w url).2
               [EvGet url (HttpCrash msg)]).
Proof.
  destruct (http_get E w url) as [[resp|msg|msg] w'] eqn:Hget; cbn [fst snd].
  - left. pose proof (fetch_html_requests_total url w resp w' Hget) as [c Hc].
    exists c. split; [exact (proj2 Hc)|]. split; [|reflexivity].
    exact (GoogleNews100Facts.fetch_html_requests_ok url w _ (proj2 Hc)).
  - left. eexists. split; [apply (news_fetch_error _ _ _ _ Hget)|].
    split; [intros _; reflexivity|reflexivity].
  - right. exists msg. split; [reflexivity|].
    apply (news_fetch_crash _ _ _ _ Hget).
Qed.

Lemma fetch_html_requests_feedless url : feedless (fetch_html_requests url).
Proof.
  unfold fetch_html_requests. apply feedless_try.
  - apply feedless_bind; [auto with quiet|]. intros resp.
    destruct (_ >=? _)%Z; [auto with quiet|]. cbv zeta.
    destruct (not_html _); auto with quiet.
  - intros e k. destruct e; try discriminate. intros [= <-].
    auto with quiet.
Qed.

Lemma playwright_body_fuel url :
  fuel_free
    (let! err := call (fun w => pw_goto E w url) (EvGoto url) in
     match err with
     | Some e => raise e
     | None =>
         let! _ := click_buttons BUTTON_TEXTS in
         let! _ := click_texts FALLBACK_TEXTS in
         let! r := call (pw_content E) EvContent in
         let! html := lift r in
         ret (true, html)
     end).
Proof.
  apply fuel_free_bind; [auto with fuel|]. intros [e|]; [auto with fuel|].
  apply fuel_free_bind; [apply click_buttons_fuel|]. intros _.
  apply fuel_free_bind; [apply click_texts_fuel|]. intros _.
  apply fuel_free_bind; [auto with fuel|]. intros r.
  apply fuel_free_bind; auto with fuel.
Qed.

Lemma fetch_html_playwright_returns url :
  returns (fetch_html_playwright url) fetch_ok.
Proof.
  unfold fetch_html_playwright. apply returns_try_all.
  - apply playwright_body_fuel.
  - intros w a H.
    assert (Hp := GoogleNews100Facts.fetch_html_playwright_ok url).
    unfold fetch_html_playwright in Hp.
    apply bind_ret_inv in H as ([e|] & _ & H); [discriminate|].
    do 4 (apply bind_ret_inv in H as (? & _ & H)).
    injection H as <-. intros Hf. discriminate.
  - intros e. apply returns_ret. intros _. reflexivity.
Qed.

Lemma fetch_html_playwright_feedless url :
  feedless (fetch_html_playwright url).
Proof.
  unfold fetch_html_playwright. apply feedless_try.
  - apply feedless_bind; [apply feedless_call; reflexivity|].
    intros [e|]; [auto with quiet|].
    apply feedless_bind; [apply click_buttons_feedless|]. intros _.
    apply feedless_bind; [apply click_texts_feedless|]. intros _.
    apply feedless_bind; [apply feedless_call; reflexivity|]. intros r.
    apply feedless_bind; auto with quiet.
  - intros e k [= <-]. auto with quiet.
Qed.

Lemma extract_text_from_html_returns url html :
  returns (extract_text_from_html html) (fun r => page_ok (url, r.1, r.2)).
Proof.
  unfold extract_text_from_html. apply returns_try_all.
  - apply fuel_free_bind; [auto with fuel|]. intros article.
    apply fuel_free_bind.
    + unfold html_to_text. apply fuel_free_bind; auto with fuel.
    + intros t. destruct (negb _); auto with fuel.
  - intros w a H.
    pose proof (GoogleNews100Facts.extract_text_from_html_ok url html) as Hp.
    unfold extract_text_from_html in Hp.
    apply (Hp w a). apply try_except_ret, H.
  - intros e. apply returns_ret. reflexivity.
Qed.

Lemma extract_text_from_html_feedless html :
  feedless (extract_text_from_html html).
Proof.
  unfold extract_text_from_html. apply feedless_try.
  - apply feedless_bind; [auto with quiet|]. intros article.
    apply feedless_bind.
    + unfold html_to_text. apply feedless_bind; auto with quiet.
    + intros t. destruct (negb _); auto with quiet.
  - intros e k [= <-]. auto with quiet.
Qed.

(** What [extract_page_text] does after the fetch always returns. *)
Lemma news_page_rest_returns url ok html :
  fetch_ok (ok, html) ->
  returns
    (if negb ok then ret (false, html)
     else if looks_like_cookie_consent_page html then
       let! (ok_pw, html_pw_or_err) := fetch_html_playwright url in
       if negb ok_pw then ret (false, html_pw_or_err)
       else extract_text_from_html html_pw_or_err
     else extract_text_from_html html)
    (fun r => page_ok (url, r.1, r.2)).
Proof.
  intros Hf. destruct ok; cbn [negb].
  - destruct (looks_like_cookie_consent_page html).
    + eapply returns_bind; [apply fetch_html_playwright_returns|].
      intros [ok2 html2] Hp. destruct ok2; cbn [negb].
      * apply (extract_text_from_html_returns url).
      * apply returns_ret. simpl. apply Hp. reflexivity.
    + apply (extract_text_from_html_returns url).
  - apply returns_ret. simpl. apply Hf. reflexivity.
Qed.

(** A page is read or marked, unless [requests.get] raised something else
    than a [RequestException]; the exception then leaves the function. *)
Lemma extract_page_text_run url w :
  (exists c,
     res (extract_page_text url w) = Ret c /\ page_ok (url, c.1, c.2)
     /\ some_page_crash (events (extract_page_text url w)) = false)
  \/ (exists msg,
        (http_get E w url).1 = HttpCrash msg
        /\ extract_page_text url w
           = Run (Raise (OtherException msg)) (http_get E w url).2
               [EvGet url (HttpCrash msg)]).
Proof.
  unfold extract_page_text.
  destruct (fetch_html_requests_run url w)
    as [([ok html] & Hr & Hf & Hc)|(msg & Hm & Hr)].
  - left. rewrite (bind_run_ret _ _ _ _ Hr). cbv zeta. cbn [res events].
    destruct (news_page_rest_returns url ok html Hf
                (final (fetch_html_requests url w))) as (c & Hc1 & Hc2).
    exists c. split; [exact Hc1|]. split; [exact Hc2|].
    rewrite some_page_crash_app, (proj1 (news_fetch_events url w)).
    rewrite some_page_crash_cons, Hc. cbn [orb some_page_crash existsb].
    apply filter_nil_existsb.
    apply (news_page_rest_avoids is_crash); auto using is_crash_browser.
  - right. exists msg. split; [exact Hm|].
    unfold bind. rewrite Hr. reflexivity.
Qed.

Lemma extract_page_text_feedless url : feedless (extract_page_text url).
Proof.
  unfold extract_page_text.
  apply feedless_bind; [apply fetch_html_requests_feedless|].
  intros [ok html]. destruct ok; cbn [negb]; [|auto with quiet].
  destruct (looks_like_cookie_consent_page html);
    [|apply extract_text_from_html_feedless].
  apply feedless_bind; [apply fetch_html_playwright_feedless|].
  intros [ok2 html2]. destruct ok2; cbn [negb]; [|auto with quiet].
  apply extract_text_from_html_feedless.
Qed.

Lemma search_google_news_urls_run query max_results w :
  search_google_news_urls query max_results w =
  let ew := feed_parse E w (rss_url query) in
  Run (Ret (dedup_truncate (feed_loop ew.1 [] max_results) max_results))
      ew.2 [EvFeed (rss_url query) ew.1].
Proof.
  unfold search_google_news_urls, google_news_rss. rewrite bind_call.
  reflexivity.
Qed.

(** The loop over the URLs of one keyword does not read the feed.  Unless
    a page request raises something else than a [RequestException], it
    returns and records one result for every URL not met before, in order;
    else the exception ends the loop with the request. *)
Lemma main_urls_run urls : forall all_results already_done w,
  let r := main_urls urls all_results already_done w in
  feeds (events r) = []
  /\ (some_page_crash (events r) = false ->
      exists results done,
        res r = Ret (results, done)
        /\ List.map url_of results
           = List.map url_of all_results ++ dedup_loop urls already_done []
        /\ done = list_to_set urls ∪ already_done
        /\ (Forall page_ok all_results -> Forall page_ok results))
  /\ (some_page_crash (events r) = true ->
      exists pre url msg,
        events r = pre ++ [EvGet url (HttpCrash msg)]
        /\ res r = Raise (OtherException msg)
        /\ some_page_crash pre = false).
Proof.
  induction urls as [|url urls IH]; intros acc done w; cbv zeta.
  - cbn [main_urls dedup_loop ret res events]. split; [reflexivity|].
    split; [|discriminate]. intros _. exists acc, done.
    split; [reflexivity|]. split; [rewrite app_nil_r; reflexivity|].
    split; [set_solver|auto].
  - cbn [main_urls]. rewrite DedupFacts.dedup_loop_cons.
    destruct (decide (url ∈ done)) as [Hin|Hin].
    { destruct (IH acc done w) as (F & A & B).
      split; [exact F|]. split; [|exact B]. intros Hc.
      destruct (A Hc) as (rs & d & H1 & H2 & H3 & H4).
      exists rs, d. repeat split; auto. set_solver. }
    destruct (is_google_or_consent_url url).
    { destruct (IH (acc ++ [(url, false, msg_ignored)]) ({[url]} ∪ done) w)
        as (F & A & B).
      split; [exact F|]. split; [|exact B]. intros Hc.
      destruct (A Hc) as (rs & d & H1 & H2 & H3 & H4).
      exists rs, d. split; [exact H1|]. split.
      - rewrite H2, map_app, <- app_assoc. reflexivity.
      - split; [set_solver|].
        intros Ha. apply H4. apply Forall_app. split; [exact Ha|].
        constructor; [reflexivity|constructor]. }
    destruct (extract_page_text_run url w)
      as [([ok content] & Hr & Hok & Hc)|(msg & Hm & Hr)].
    + rewrite (bind_run_ret _ _ _ _ Hr). cbv zeta.
      set (w1 := final (extract_page_text url w)).
      unfold sleep. rewrite bind_emit. cbv zeta.
      destruct (IH (acc ++ [(url, ok, content)]) ({[url]} ∪ done) w1)
        as (F & A & B).
      cbn [res final events].
      rewrite some_page_crash_app, Hc, some_page_crash_cons.
      cbn [is_crash orb].
      split; [|split].
      * rewrite feeds_app, (extract_page_text_feedless url w).
        cbn [app feeds]. exact F.
      * intros Hn. destruct (A Hn) as (rs & d & H1 & H2 & H3 & H4).
        exists rs, d. split; [exact H1|]. split.
        -- rewrite H2, map_app, <- app_assoc. reflexivity.
        -- split; [set_solver|].
           intros Ha. apply H4. apply Forall_app. split; [exact Ha|].
           constructor; [exact Hok|constructor].
      * intros Hy. destruct (B Hy) as (pre & u & m & He & Hres & Hp).
        exists (events (extract_page_text url w)
                ++ EvSleep SLEEP_BETWEEN_REQUESTS_MS :: pre), u, m.
        split; [rewrite He, <- app_assoc; reflexivity|].
        split; [exact Hres|].
        rewrite some_page_crash_app, Hc, some_page_crash_cons. exact Hp.
    + rewrite (bind_run_raise _ _ w (OtherException msg))
        by (rewrite Hr; reflexivity).
      rewrite Hr. cbn [res final events].
      split; [reflexivity|]. split; [discriminate|]. intros _.
      exists [], url, msg. auto.
Qed.

Lemma dedup_loop_app (a b : list str) : forall (seen : gset str),
  dedup_loop (a ++ b) seen []
  = dedup_loop a seen [] ++ dedup_loop b (list_to_set a ∪ seen) [].
Proof.
  induction a as [|x a IH]; intros seen.
  - cbn [app dedup_loop list_to_set].
    replace (∅ ∪ seen) with seen by set_solver. reflexivity.
  - cbn [app]. rewrite !DedupFacts.dedup_loop_cons.
    destruct (decide (x ∈ seen)) as [Hx|Hx].
    + rewrite IH. f_equal. f_equal. set_solver.
    + rewrite IH. cbn [app]. f_equal. f_equal. f_equal. set_solver.
Qed.

(** The loop over the keywords. *)
Lemma main_keywords_run keywords max_results :
  forall all_results already_done w,
  let r := main_keywords keywords max_results all_results already_done w in
  (some_page_crash (events r) = false ->
   exists results done,
     res r = Ret (results, done)
     /\ List.map url_of results
        = List.map url_of all_results
          ++ dedup_loop (feed_urls max_results (events r)) already_done []
     /\ (Forall page_ok all_results -> Forall page_ok results)
     /\ length (feeds (events r)) = length keywords)
  /\ (some_page_crash (events r) = true ->
      exists pre url msg,
        events r = pre ++ [EvGet url (HttpCrash msg)]
        /\ res r = Raise (OtherException msg)
        /\ some_page_crash pre = false).
Proof.
  induction keywords as [|kw keywords IH]; intros acc done w; cbv zeta.
  - cbn [main_keywords ret res events]. split; [|discriminate].
    intros _. exists acc, done. cbn. rewrite app_nil_r. auto.
  - cbn [main_keywords].
    rewrite (bind_run_ret _ _ w
      (dedup_truncate
         (feed_loop (feed_parse E w (rss_url kw)).1 [] max_results)
         max_results))
      by (rewrite search_google_news_urls_run; reflexivity).
    cbv zeta. rewrite search_google_news_urls_run. cbv zeta.
    cbn [final events].
    set (ew := feed_parse E w (rss_url kw)).
    set (urls := dedup_truncate (feed_loop ew.1 [] max_results) max_results).
    destruct (main_urls_run urls acc done ew.2) as (F & A & B).
    destruct (some_page_crash (events (main_urls urls acc done ew.2)))
      eqn:Hc.
    + destruct (B eq_refl) as (pre & u & m & He & Hres & Hp).
      rewrite (bind_run_raise _ _ _ _ Hres). cbn [res final events app].
      rewrite some_page_crash_cons, Hc. cbn [is_crash orb].
      split; [discriminate|]. intros _.
      exists (EvFeed (rss_url kw) ew.1 :: pre), u, m.
      rewrite He. split; [reflexivity|]. split; [reflexivity|exact Hp].
    + destruct (A eq_refl) as (rs1 & d1 & H1 & H2 & H3 & H4).
      rewrite (bind_run_ret _ _ _ _ H1). cbv zeta.
      set (w2 := final (main_urls urls acc done ew.2)).
      destruct (IH rs1 d1 w2) as (A2 & B2).
      cbn [res final events app].
      rewrite some_page_crash_cons, some_page_crash_app, Hc.
      cbn [is_crash orb].
      split.
      * intros Hn. destruct (A2 Hn) as (rs & d & K1 & K2 & K3 & K4).
        exists rs, d. split; [exact K1|]. split; [|split].
        -- rewrite K2, H2, <- app_assoc. f_equal.
           unfold feed_urls. cbn [feeds]. rewrite !feeds_app, F.
           cbn [app List.map concat]. fold urls.
           rewrite dedup_loop_app, H3. reflexivity.
        -- auto.
        -- cbn [feeds]. rewrite !feeds_app, F. cbn [app length].
           rewrite K4. reflexivity.
      * intros Hy. destruct (B2 Hy) as (pre & u & m & He & Hres & Hp).
        exists (EvFeed (rss_url kw) ew.1
                :: events (main_urls urls acc done ew.2) ++ pre), u, m.
        split; [rewrite He; cbn [app]; rewrite <- app_assoc; reflexivity|].
        split; [exact Hres|].
        rewrite some_page_crash_cons, some_page_crash_app, Hc. exact Hp.
Qed.

(** [main] raises exactly when a page request raised something else than a
    [RequestException] or the output file could not be written; otherwise
    it returns one result for every distinct URL the feed returned, in
    order. *)
Lemma main_run keywords max_results output_file w :
  let r := main keywords max_results output_file w in
  (some_page_crash (events r) || write_failed (events r) = false ->
   exists results,
     res r = Ret results
     /\ List.map url_of results
        = dedup (feed_urls max_results (events r))
     /\ Forall page_ok results)
  /\ (some_page_crash (events r) || write_failed (events r) = true ->
      raised r).
Proof.
  cbv zeta. unfold main.
  destruct (main_keywords_run keywords max_results [] ∅ w) as (A & B).
  destruct (some_page_crash
              (events (main_keywords keywords max_results [] ∅ w))) eqn:Hc.
  - destruct (B eq_refl) as (pre & u & m & He & Hres & Hp).
    rewrite (bind_run_raise _ _ _ _ Hres). cbn [res final events].
    rewrite Hc. cbn [orb]. split; [discriminate|].
    intros _. eexists. reflexivity.
  - destruct (A eq_refl) as (rs & d & H1 & H2 & H3 & _).
    rewrite (bind_run_ret _ _ _ _ H1). cbv zeta.
    set (w1 := final (main_keywords keywords max_results [] ∅ w)).
    pose proof (no_write_no_failure _
                  (WriteFacts.news_main_keywords_no_write keywords
                     max_results [] ∅ w)) as Hw.
    unfold bind. rewrite WriteFacts.write_results_run. cbv zeta.
    destruct (fs_write E w1 output_file (write_results_text rs))
      as [[e|] w']; cbn [fst snd res final events ret].
    + split; [|intros _; eexists; reflexivity].
      unfold write_failed. rewrite existsb_app. cbn.
      rewrite !orb_true_r. discriminate.
    + rewrite some_page_crash_app, Hc. unfold write_failed at 2.
      rewrite existsb_app. fold (write_failed
        (events (main_keywords keywords max_results [] ∅ w))).
      rewrite Hw. cbn. split; [|discriminate]. intros _.
      exists rs. split; [reflexivity|]. split; [|apply H3; constructor].
      rewrite H2. cbn [List.map app]. unfold dedup, feed_urls.
      rewrite !feeds_app. cbn [feeds]. rewrite !app_nil_r. reflexivity.
Qed.
End Facts.

End NewsRun.

(** ** Fatal and recorded failures *)

Section FailureFacts.
Context {E : Env}.

Lemma google_custom_search_raises fuel query api_key cx max_results w :
  let r := Google100.google_custom_search fuel query api_key cx
             max_results w in
  raised r <-> some_api_failure (events r) = true.
Proof.
  cbv zeta. rewrite SearchFacts.google_custom_search_run. cbv zeta.
  cbn [events].
  rewrite <- (SearchFacts.search_loop_raises query api_key cx max_results
                fuel [] 1%Z w).
  unfold raised. cbn [res].
  destruct (res (Google100.search_loop fuel query api_key cx max_results
                   [] 1%Z w)) as [raw|e|].
  - split; intros [e H]; discriminate.
  - split; intros _; exists e; reflexivity.
  - split; intros [e H]; discriminate.
Qed.

Lemma some_api_failure_existsb evs :
  some_api_failure evs = existsb is_api_failure evs.
Proof.
  unfold some_api_failure.
  induction evs as [|ev evs IH]; [reflexivity|].
  destruct ev; cbn [searches existsb is_api_failure snd orb];
    rewrite ?IH; reflexivity.
Qed.

Lemma some_api_failure_app evs1 evs2 :
  some_api_failure (evs1 ++ evs2)
  = some_api_failure evs1 || some_api_failure evs2.
Proof. rewrite !some_api_failure_existsb. apply existsb_app. Qed.

Lemma no_failure_without_request evs :
  List.filter is_api_failure evs = [] -> some_api_failure evs = false.
Proof.
  intros H. rewrite some_api_failure_existsb.
  apply filter_nil_existsb, H.
Qed.

Lemma google_custom_search_fails_last fuel query api_key cx max_results w :
  let r := Google100.google_custom_search fuel query api_key cx
             max_results w in
  raised r ->
  exists pre p o,
    events r = pre ++ [EvSearch p o]
    /\ api_failed o = true /\ some_api_failure pre = false.
Proof.
  cbv zeta. rewrite SearchFacts.google_custom_search_run. cbv zeta.
  cbn [events]. intros [e He]. cbn [res] in He.
  apply (SearchMore.search_loop_fails_last query api_key cx max_results
           fuel [] 1%Z w).
  destruct (res (Google100.search_loop fuel query api_key cx max_results
                   [] 1%Z w)) as [raw|e'|] eqn:Hl; try discriminate.
  exists e'. exact Hl.
Qed.

Lemma search_main_urls_no_failure urls : forall all_results already_done,
  avoids is_api_failure
    (Google100.main_urls urls all_results already_done).
Proof.
  induction urls as [|url urls IH]; intros acc done;
    cbn [Google100.main_urls]; [apply avoids_ret|].
  destruct (decide (url ∈ done)); [apply IH|].
  apply avoids_bind.
  - intros w. rewrite search_page_events. reflexivity.
  - intros [ok c].
    apply avoids_bind; [apply avoids_emit; reflexivity|]. intros _.
    apply IH.
Qed.

(** A failed API request, at whatever keyword, is the last event of the
    loop over the keywords, which raises. *)
Lemma search_failure_ends_keywords fuel keywords api_key cx max_results :
  forall all_results already_done w,
  let r := Google100.main_keywords fuel keywords api_key cx max_results
             all_results already_done w in
  some_api_failure (events r) = true ->
  exists e pre p o,
    res r = Raise e
    /\ events r = pre ++ [EvSearch p o]
    /\ api_failed o = true /\ some_api_failure pre = false.
Proof.
  induction keywords as [|kw keywords IH]; intros acc done w; cbv zeta;
    [discriminate|].
  cbn [Google100.main_keywords].
  set (s := Google100.google_custom_search fuel kw api_key cx max_results).
  pose proof (google_custom_search_raises fuel kw api_key cx max_results w)
    as Hiff.
  cbv zeta in Hiff. fold s in Hiff.
  destruct (res (s w)) as [urls|e|] eqn:Hr.
  - assert (Hs : some_api_failure (events (s w)) = false).
    { destruct (some_api_failure (events (s w))); [|reflexivity].
      destruct (proj2 Hiff eq_refl) as [e He]. congruence. }
    rewrite (bind_run_ret _ _ _ _ Hr). cbv zeta.
    set (w1 := final (s w)).
    pose proof (no_failure_without_request _
                  (search_main_urls_no_failure urls acc done w1)) as Hu.
    destruct (res (Google100.main_urls urls acc done w1))
      as [[rs1 d1]|e|] eqn:Hm.
    + rewrite (bind_run_ret _ _ _ _ Hm). cbv zeta. cbn [res final events].
      rewrite !some_api_failure_app, Hs, Hu. cbn [orb]. intros Hf.
      destruct (IH rs1 d1 _ Hf) as (e & pre & p & o & H1 & H2 & H3 & H4).
      exists e, (events (s w)
                 ++ events (Google100.main_urls urls acc done w1) ++ pre),
        p, o.
      split; [exact H1|]. split; [rewrite H2, <- !app_assoc; reflexivity|].
      split; [exact H3|]. rewrite !some_api_failure_app, Hs, Hu. exact H4.
    + rewrite (bind_run_raise _ _ _ _ Hm). cbn [res final events].
      rewrite some_api_failure_app, Hs, Hu. discriminate.
    + rewrite (bind_run_out_of_fuel _ _ _ Hm). cbn [res final events].
      rewrite some_api_failure_app, Hs, Hu. discriminate.
  - rewrite (bind_run_raise _ _ _ _ Hr). cbn [res final events]. intros _.
    destruct (google_custom_search_fails_last fuel kw api_key cx
                max_results w) as (pre & p & o & H);
      [exists e; exact Hr|].
    exists e, pre, p, o. split; [reflexivity|exact H].
  - rewrite (bind_run_out_of_fuel _ _ _ Hr). cbn [res final events].
    intros Hf. destruct (proj2 Hiff Hf) as [e He]. congruence.
Qed.

(** The same for [main]: nothing is written. *)
Lemma search_failure_ends_run fuel keywords api_key cx max_results
    output_file w :
  let r := Google100.main fuel keywords api_key cx max_results output_file
             w in
  some_api_failure (events r) = true ->
  exists e pre p o,
    res r = Raise e
    /\ events r = pre ++ [EvSearch p o]
    /\ api_failed o = true /\ some_api_failure pre = false.
Proof.
  cbv zeta. unfold Google100.main.
  pose proof (search_failure_ends_keywords fuel keywords api_key cx
                max_results [] ∅ w) as Hk.
  cbv zeta in Hk.
  destruct (res (Google100.main_keywords fuel keywords api_key cx
                   max_results [] ∅ w)) as [[rs d]|e|] eqn:Hr.
  - rewrite (bind_run_ret _ _ _ _ Hr). cbv zeta.
    unfold bind. rewrite WriteFacts.write_results_run. cbv zeta.
    assert (Hs : some_api_failure
                   (events (Google100.main_keywords fuel keywords api_key cx
                              max_results [] ∅ w)) = false).
    { destruct (some_api_failure _); [|reflexivity].
      destruct (Hk eq_refl) as (e & _ & _ & _ & He & _). congruence. }
    destruct (fs_write E _ output_file (write_results_text rs))
      as [[e|] w']; cbn [fst snd res final events ret];
      rewrite ?some_api_failure_app, Hs; discriminate.
  - rewrite (bind_run_raise _ _ _ _ Hr). cbn [res final events].
    intros Hf. destruct (Hk Hf) as (e0 & pre & p & o & [= <-] & H).
    exists e, pre, p, o. split; [reflexivity|exact H].
  - rewrite (bind_run_out_of_fuel _ _ _ Hr). cbn [res final events].
    intros Hf. destruct (Hk Hf) as (e0 & _ & _ & _ & He & _).
    discriminate He.
Qed.

(** [extract_page_text] of GoogleNews100.py and [requests.get]. *)
Lemma news_page_outcome url w :
  match (http_get E w url).1 with
  | HttpCrash msg =>
      res (GoogleNews100.extract_page_text url w)
      = Raise (OtherException msg)
      /\ res (Google100.extract_page_text url w)
         = Raise (OtherException msg)
  | _ =>
      exists ok content,
        res (GoogleNews100.extract_page_text url w) = Ret (ok, content)
        /\ page_ok (url, ok, content)
  end.
Proof.
  destruct (NewsRun.extract_page_text_run url w)
    as [([ok c] & Hr & Hok & _)|(msg & Hm & Hr)].
  - destruct (http_get E w url) as [[resp|msg|msg] w'] eqn:Hget;
      cbn [fst]; [exists ok, c; auto..|].
    unfold GoogleNews100.extract_page_text, bind in Hr.
    rewrite (news_fetch_crash _ _ _ _ Hget) in Hr. discriminate Hr.
  - rewrite Hm. split; [rewrite Hr; reflexivity|].
    destruct (http_get E w url) as [o w'] eqn:Hget. cbn [fst] in Hm.
    subst o. rewrite (search_page_crash _ _ _ _ Hget). reflexivity.
Qed.

Lemma news_page_fetch_failed url w reason :
  res (GoogleNews100.fetch_html_requests url w) = Ret (false, reason) ->
  res (GoogleNews100.extract_page_text url w) = Ret (false, reason).
Proof.
  intros H. unfold GoogleNews100.extract_page_text.
  rewrite (bind_run_ret _ _ _ _ H). reflexivity.
Qed.

Lemma news_page_extraction_failed url w html e :
  res (GoogleNews100.fetch_html_requests url w) = Ret (true, html) ->
  GoogleNews100.looks_like_cookie_consent_page html = false ->
  readability_summary E html = inl e ->
  res (GoogleNews100.extract_page_text url w)
  = Ret (false, msg_extraction ++ exn_text e).
Proof.
  intros H Hc He. unfold GoogleNews100.extract_page_text.
  rewrite (bind_run_ret _ _ _ _ H). cbv zeta. cbn [negb]. rewrite Hc.
  unfold GoogleNews100.extract_text_from_html, try_except.
  rewrite bind_lift, He. reflexivity.
Qed.

Lemma news_page_parser_failed url w html article e :
  res (GoogleNews100.fetch_html_requests url w) = Ret (true, html) ->
  GoogleNews100.looks_like_cookie_consent_page html = false ->
  readability_summary E html = inr article ->
  bs4_text E GoogleNews100.TAGS article = inl e ->
  res (GoogleNews100.extract_page_text url w)
  = Ret (false, msg_extraction ++ exn_text e).
Proof.
  intros H Hc Ha He. unfold GoogleNews100.extract_page_text.
  rewrite (bind_run_ret _ _ _ _ H). cbv zeta. cbn [negb]. rewrite Hc.
  unfold GoogleNews100.extract_text_from_html, try_except.
  rewrite bind_lift, Ha. unfold GoogleNews100.html_to_text.
  unfold bind at 1. rewrite bind_lift, He. reflexivity.
Qed.

Lemma news_page_fallback_failed url w html e w' :
  res (GoogleNews100.fetch_html_requests url w) = Ret (true, html) ->
  GoogleNews100.looks_like_cookie_consent_page html = true ->
  pw_goto E (final (GoogleNews100.fetch_html_requests url w)) url
  = (Some e, w') ->
  res (GoogleNews100.extract_page_text url w)
  = Ret (false, msg_playwright ++ exn_text e).
Proof.
  intros H Hc He. unfold GoogleNews100.extract_page_text.
  rewrite (bind_run_ret _ _ _ _ H). cbv zeta. cbn [negb]. rewrite Hc.
  unfold bind at 1.
  unfold GoogleNews100.fetch_html_playwright at 1 2. unfold try_except.
  rewrite bind_call, He. reflexivity.
Qed.

Lemma news_ignored_recorded url urls all_results already_done w :
  url ∉ already_done ->
  GoogleNews100.is_google_or_consent_url url = true ->
  GoogleNews100.main_urls (url :: urls) all_results already_done w
  = GoogleNews100.main_urls urls
      (all_results ++ [(url, false, msg_ignored)])
      ({[url]} ∪ already_done) w.
Proof.
  intros Hn Hg. cbn [GoogleNews100.main_urls].
  rewrite decide_False by exact Hn. rewrite Hg. reflexivity.
Qed.
End FailureFacts.


(** ** The cap and the duplicates *)

Section CapFacts.
Context {E : Env}.

(** The loop over the entries keeps the first [max_results] resolved
    URLs. *)
Lemma feed_loop_take entries : forall urls max_results,
  (Z.of_nat (length urls) < max_results)%Z ->
  GoogleNews100.feed_loop entries urls max_results
  = urls ++ take (Z.to_nat max_results - length urls)
              (omap GoogleNews100.extract_real_article_url entries).
Proof.
  induction entries as [|e entries IH]; intros urls max_results Hlt.
  - cbn. rewrite take_nil, app_nil_r. reflexivity.
  - cbn [GoogleNews100.feed_loop omap list_omap].
    destruct (GoogleNews100.extract_real_article_url e) as [u|] eqn:He.
    + rewrite (FeedFacts.resolved_truthy e u He).
      destruct (Z.geb_spec (Z.of_nat (length (urls ++ [u]))) max_results)
        as [Hge|Hlt'].
      * rewrite length_app in Hge. simpl in Hge.
        replace (Z.to_nat max_results - length urls) with 1 by lia.
        reflexivity.
      * rewrite IH by exact Hlt'. rewrite length_app in *. simpl in *.
        replace (Z.to_nat max_results - length urls)
          with (S (Z.to_nat max_results - (length urls + 1))) by lia.
        rewrite <- app_assoc. reflexivity.
    + destruct (Z.geb_spec (Z.of_nat (length urls)) max_results); [lia|].
      apply IH, Hlt.
Qed.

Lemma search_google_news_urls_result query max_results w :
  (1 <= max_results)%Z ->
  res (GoogleNews100.search_google_news_urls query max_results w)
  = Ret (dedup (take (Z.to_nat max_results)
           (omap GoogleNews100.extract_real_article_url
              (feed_parse E w (GoogleNews100.rss_url query)).1))).
Proof.
  intros Hm. rewrite NewsRun.search_google_news_urls_run. cbv zeta.
  cbn [res]. f_equal. rewrite feed_loop_take by (simpl; lia).
  cbn [app length]. rewrite Nat.sub_0_r. unfold dedup_truncate.
  apply DedupFacts.slice_to_all.
  pose proof (DedupFacts.dedup_length
    (take (Z.to_nat max_results)
       (omap GoogleNews100.extract_real_article_url
          (feed_parse E w (GoogleNews100.rss_url query)).1))) as H.
  rewrite length_take in H. lia.
Qed.

Lemma google_custom_search_result fuel query api_key cx max_results w urls :
  res (Google100.google_custom_search fuel query api_key cx max_results w)
  = Ret urls ->
  exists raw,
    res (Google100.search_loop fuel query api_key cx max_results [] 1%Z w)
    = Ret raw
    /\ (Z.of_nat (length raw) <= Z.max 0 max_results)%Z
    /\ urls = dedup raw.
Proof.
  rewrite SearchFacts.google_custom_search_run. cbv zeta. cbn [res].
  destruct (res (Google100.search_loop fuel query api_key cx max_results
                   [] 1%Z w)) as [raw|e|] eqn:Hr; try discriminate.
  intros [= <-]. exists raw. split; [reflexivity|].
  pose proof (SearchFacts.search_loop_bound _ _ _ _ _ _ _ _ _ Hr) as Hb.
  simpl length in Hb. split; [exact Hb|].
  unfold dedup_truncate.
  destruct (Z.le_gt_cases 0 max_results) as [H0|H0].
  - apply DedupFacts.slice_to_all.
    pose proof (DedupFacts.dedup_length raw). lia.
  - destruct raw as [|x raw]; [|simpl in Hb; lia].
    change (dedup []) with (@nil str). unfold slice_to.
    destruct (_ <? _)%Z; apply take_nil.
Qed.
End CapFacts.

(** C10. In both result sources the cap applies to the URLs as they come,
    before duplicates are removed.  The feed source returns the distinct
    URLs among the first [max_results] resolved ones; the search source
    collects at most [max_results] links and returns the distinct ones.  A
    duplicate among them leaves fewer than [max_results] URLs: with the
    resolved URLs a, a, b and a cap of 2, both sources return [a]. *)
Theorem cap_applies_before_dedup :
  (forall (E : Env) query max_results w urls,
     let raw := omap GoogleNews100.extract_real_article_url
                  (feed_parse E w (GoogleNews100.rss_url query)).1 in
     (1 <= max_results)%Z ->
     res (GoogleNews100.search_google_news_urls query max_results w)
     = Ret urls ->
     urls = dedup (take (Z.to_nat max_results) raw)
     /\ (~ NoDup (take (Z.to_nat max_results) raw) ->
         (Z.of_nat (length urls) < max_results)%Z))
  /\ (forall (E : Env) fuel query api_key cx max_results w urls,
        res (Google100.google_custom_search fuel query api_key cx
               max_results w) = Ret urls ->
        exists raw,
          res (Google100.search_loop fuel query api_key cx max_results
                 [] 1%Z w) = Ret raw
          /\ (Z.of_nat (length raw) <= Z.max 0 max_results)%Z
          /\ urls = dedup raw
          /\ (~ NoDup raw -> (Z.of_nat (length urls) < max_results)%Z))
  /\ (omap (GoogleNews100.extract_real_article_url (E:=Demo.E_dup))
        (Demo.feed_dup []) = [Demo.A; Demo.A; Demo.B]
      /\ res (GoogleNews100.search_google_news_urls (E:=Demo.E_dup) [] 2 tt)
         = Ret [Demo.A])
  /\ (res (Google100.search_loop (E:=Demo.E_dup) 10 [] [] [] 3 [] 1%Z tt)
      = Ret [Demo.A; Demo.A; Demo.B]
      /\ res (Google100.google_custom_search (E:=Demo.E_dup) 10 [] [] [] 2 tt)
         = Ret [Demo.A]).
Proof.
  split.
  { intros E query max_results w urls raw Hm Hr. subst raw.
    rewrite (search_google_news_urls_result query max_results w Hm) in Hr.
    injection Hr as <-. split; [reflexivity|].
    intros Hd. apply DedupFacts.dedup_shorter in Hd.
    rewrite length_take in Hd. lia. }
  split.
  { intros E fuel query api_key cx max_results w urls Hr.
    destruct (google_custom_search_result _ _ _ _ _ _ _ Hr)
      as (raw & H1 & H2 & H3).
    exists raw. repeat split; try assumption.
    intros Hd. apply DedupFacts.dedup_shorter in Hd. subst urls. lia. }
  split; [split; vm_compute; reflexivity|].
  split; vm_compute; reflexivity.
Qed.

(** C8. The pagination loop of [google_custom_search] terminates whatever
    the API answers: ten units of fuel are enough and more fuel changes
    nothing; the offsets requested are 1, 11, 21, ... in this order, at most
    the ten offsets up to 91; when the loop returns, the collected list
    has reached [max_results], or the last page had no items, or the ten
    offsets have been requested.  Conversely a request is issued only while
    the collected list is below [max_results]; nothing follows a page
    without items, nor the request at offset 91; and once a page has brought
    the list to [max_results] nothing follows but, at most, the pause. *)
Theorem pagination_terminates (E : Env) (fuel : nat)
    (query api_key cx : str) (max_results : Z) (w : World E) :
  10 <= fuel ->
  let r := Google100.google_custom_search fuel query api_key cx
             max_results w in
  res r <> OutOfFuel
  /\ r = Google100.google_custom_search 10 query api_key cx max_results w
  /\ request_starts (events r) `prefix_of` OFFSETS
  /\ length (searches (events r)) <= 10
  /\ (forall urls, res r = Ret urls ->
        exists raw,
          res (Google100.search_loop fuel query api_key cx max_results
                 [] 1%Z w) = Ret raw
          /\ urls = dedup_truncate raw max_results
          /\ ((max_results <= Z.of_nat (length raw))%Z
              \/ last_page_empty (events r)
              \/ length (searches (events r)) = 10))
  /\ (forall pre p o post,
        events r = pre ++ EvSearch p o :: post ->
        (Z.of_nat (length (collected max_results [] pre)) < max_results)%Z
        /\ (api_no_items o = true -> post = [])
        /\ (p_start p = 91%Z -> post = [])
        /\ ((max_results
             <= Z.of_nat (length (collected max_results []
                                    (pre ++ [EvSearch p o]))))%Z ->
            post = [] \/ post = [EvSleep Google100.SLEEP_BETWEEN_REQUESTS_MS])).
Proof.
  intros Hf. cbv zeta.
  destruct (SearchFacts.search_loop_terminates query api_key cx max_results
              10 0 fuel [] w eq_refl ltac:(lia) Hf) as (H1 & H2 & H3).
  change (1 + 10 * Z.of_nat 0)%Z with 1%Z in *.
  rewrite !SearchFacts.google_custom_search_run. cbv zeta.
  cbn [res final events].
  split.
  { destruct (res (Google100.search_loop fuel query api_key cx max_results
                     [] 1%Z w)); congruence. }
  split; [rewrite <- H2; reflexivity|].
  split; [exact H3|].
  split.
  { apply prefix_length in H3. unfold request_starts in H3.
    rewrite length_map in H3. exact H3. }
  split; [|apply SearchFacts.search_loop_requests].
  intros urls Hr.
  destruct (res (Google100.search_loop fuel query api_key cx max_results
                   [] 1%Z w)) as [raw|e|] eqn:Hl; try discriminate.
  injection Hr as <-. exists raw. split; [reflexivity|].
  split; [reflexivity|].
  pose proof (SearchFacts.search_loop_stops query api_key cx max_results
                fuel 0 [] w raw ltac:(lia)) as Hs.
  cbv zeta in Hs. change (1 + 10 * Z.of_nat 0)%Z with 1%Z in Hs.
  apply Hs in Hl. exact Hl.
Qed.

(** ** The normalizer *)

(** C3. [clean_text] is idempotent: applying it twice gives the same text
    as applying it once. *)
Theorem clean_text_idempotent :
  forall s : str, clean_text (clean_text s) = clean_text s.
Proof.
  intros s.
  rewrite (clean_text_unfold (clean_text s)).
  rewrite (normal_fixed _ (clean_text_normal s)).
  rewrite clean_text_unfold. apply StripFacts.strip_idem.
Qed.

(** C9. [clean_text] collapses whitespace.  No output has three consecutive
    newlines, two consecutive blanks (space or tab), a carriage return, a
    blank before a newline, or a whitespace character at either end.
    Between two words, three or more newlines become two, two or more blanks
    become one space, "\r\n" and "\r" become "\n", and blanks before a
    newline disappear: five newlines give two, three spaces give one. *)
Theorem clean_text_collapses :
  (forall s : str,
     occurs ReSpec.NNN (clean_text s) = false
     /\ occurs ReSpec.BB (clean_text s) = false
     /\ occurs [Re.is_cr] (clean_text s) = false
     /\ occurs ReSpec.BN (clean_text s) = false
     /\ starts [Py.isspace] (clean_text s) = false
     /\ starts [Py.isspace] (rev (clean_text s)) = false)
  /\ (forall (x y : str) (n : nat),
        ReSpec.word x -> ReSpec.word y -> 3 <= n ->
        clean_text (x ++ repeat Py.LF n ++ y) = x ++ [Py.LF; Py.LF] ++ y)
  /\ (forall x y ws : str,
        ReSpec.word x -> ReSpec.word y ->
        Forall (fun c => Re.is_blank c = true) ws -> 2 <= length ws ->
        clean_text (x ++ ws ++ y) = x ++ [Py.SP] ++ y)
  /\ (forall x y : str,
        ReSpec.word x -> ReSpec.word y ->
        clean_text (x ++ [Py.CR; Py.LF] ++ y) = x ++ [Py.LF] ++ y
        /\ clean_text (x ++ [Py.CR] ++ y) = x ++ [Py.LF] ++ y)
  /\ (forall x y ws : str,
        ReSpec.word x -> ReSpec.word y ->
        Forall (fun c => Re.is_blank c = true) ws -> ws <> [] ->
        clean_text (x ++ (ws ++ [Py.LF]) ++ y) = x ++ [Py.LF] ++ y)
  /\ clean_text (Py.lit "a" ++ repeat Py.LF 5 ++ Py.lit "b")
     = Py.lit "a" ++ [Py.LF; Py.LF] ++ Py.lit "b"
  /\ clean_text (Py.lit "a   b") = Py.lit "a b".
Proof.
  split.
  { intros s. destruct (clean_text_normal s) as (H1 & H2 & H3 & H4).
    repeat split; try assumption.
    - rewrite clean_text_unfold. apply StripFacts.strip_first.
    - rewrite clean_text_unfold. apply StripFacts.strip_last. }
  split; [intros x y n; apply clean_newlines|].
  split; [intros x y ws; apply clean_blanks|].
  split; [intros x y Hx Hy; split; [apply clean_crlf|apply clean_cr];
          assumption|].
  split; [intros x y ws; apply clean_trailing|].
  split; vm_compute; reflexivity.
Qed.

(** ** The properties on concrete runs *)

Lemma word_a : ReSpec.word (Py.lit "a").
Proof. split; [discriminate|repeat constructor]. Defined.

Lemma word_b : ReSpec.word (Py.lit "b").
Proof. split; [discriminate|repeat constructor]. Defined.

(** three spaces between "a" and "b" *)
Lemma clean_text_collapses_witness :
  ReSpec.word (Py.lit "a") /\ ReSpec.word (Py.lit "b")
  /\ Forall (fun c => Re.is_blank c = true) (repeat Py.SP 3)
  /\ 2 <= length (repeat Py.SP 3)
  /\ clean_text (Py.lit "a" ++ repeat Py.SP 3 ++ Py.lit "b")
     = Py.lit "a" ++ [Py.SP] ++ Py.lit "b".
Proof.
  assert (Hb : Forall (fun c => Re.is_blank c = true) (repeat Py.SP 3))
    by (repeat constructor).
  assert (Hl : 2 <= length (repeat Py.SP 3)) by (simpl; lia).
  split; [exact word_a|]. split; [exact word_b|].
  split; [exact Hb|]. split; [exact Hl|].
  exact (proj1 (proj2 (proj2 clean_text_collapses))
           (Py.lit "a") (Py.lit "b") (repeat Py.SP 3) word_a word_b Hb Hl).
Defined.

(** 150 distinct URLs, two of them twice, and a cap of 100 *)
Lemma dedup_truncate_order_cap_witness :
  length (dedup Demo.urls150) = 150
  /\ dedup_truncate Demo.urls150 100 = take 100 (dedup Demo.urls150)
  /\ length (dedup_truncate Demo.urls150 100) = 100.
Proof.
  assert (H : length (dedup Demo.urls150) = 150) by (vm_compute; reflexivity).
  split; [exact H|].
  exact (proj1 (proj2 (proj2 (proj2 dedup_truncate_order_cap)))
           Demo.urls150 H).
Defined.

Lemma write_results_round_trip_witness :
  Forall readable Demo.pages
  /\ Reader.read_blocks (write_results_text Demo.pages)
     = [(Py.lit "http://a", Py.lit "hello");
        (Py.lit "http://b", Py.lit "[INACCESSIBLE] x")].
Proof.
  assert (H : Forall readable Demo.pages).
  { repeat constructor; try discriminate; vm_compute; reflexivity. }
  split; [exact H|].
  rewrite (proj2 (proj2 write_results_round_trip) Demo.pages H).
  vm_compute. reflexivity.
Defined.

(** the page of http://a in the demonstration world *)
Lemma page_results_invariant_witness :
  res (Google100.extract_page_text (E:=Demo.E_dup) Demo.A tt)
  = Ret (true, Py.lit "hello")
  /\ page_ok (Demo.A, true, Py.lit "hello").
Proof.
  assert (H : res (Google100.extract_page_text (E:=Demo.E_dup) Demo.A tt)
              = Ret (true, Py.lit "hello")) by (vm_compute; reflexivity).
  split; [exact H|].
  exact (proj1 (page_results_invariant Demo.E_dup) Demo.A tt true
           (Py.lit "hello") H).
Defined.

Lemma fetcher_classifies_witness :
  http_get Demo.E_dup tt Demo.A
  = (HttpResponse (Response 200 (Some TEXT_HTML) (Py.lit "hello")), tt)
  /\ res (GoogleNews100.fetch_html_requests (E:=Demo.E_dup) Demo.A tt)
     = Ret (true, Py.lit "hello").
Proof.
  assert (H : http_get Demo.E_dup tt Demo.A
    = (HttpResponse (Response 200 (Some TEXT_HTML) (Py.lit "hello")), tt))
    by reflexivity.
  split; [exact H|].
  apply (proj2 (proj2 (proj2
    (fetcher_classifies Demo.E_dup Demo.A tt tt _ H)))); try reflexivity.
  discriminate.
Defined.

(** a page that answers 200 with text/html and a body of one space is not
    read by the search script, and the reason of a 404 answer does not name
    its content type *)
Lemma fetcher_classifies_counterexample :
  (http_get Demo.E_dup tt Demo.BLANK
   = (HttpResponse (Response 200 (Some TEXT_HTML) (Py.lit " ")), tt)
   /\ Py.lit " " <> []
   /\ res (Google100.extract_page_text (E:=Demo.E_dup) Demo.BLANK tt)
      = Ret (false, msg_empty))
  /\ (http_get Demo.E_dup tt Demo.D
      = (HttpResponse (Response 404 (Some Demo.PDF) []), tt)
      /\ res (GoogleNews100.fetch_html_requests (E:=Demo.E_dup) Demo.D tt)
         = Ret (false, msg_http ++ Py.lit "404")
      /\ Py.contains Demo.PDF (msg_http ++ Py.lit "404") = false).
Proof.
  split; [split; [reflexivity|split; [discriminate|vm_compute; reflexivity]]|].
  split; [reflexivity|]. split; vm_compute; reflexivity.
Defined.

Lemma feed_url_resolution_witness :
  FeedSpec.source_link Demo.entry_both Demo.A
  /\ FeedSpec.summary_link (E:=Demo.E_anchor) Demo.entry_both Demo.C
  /\ Demo.C <> Demo.A
  /\ GoogleNews100.extract_real_article_url (E:=Demo.E_anchor) Demo.entry_both
     = Some Demo.A.
Proof.
  assert (H1 : FeedSpec.source_link Demo.entry_both Demo.A).
  { exists (FeedSource (Some Demo.A)).
    split; [reflexivity|]. split; [reflexivity|].
    split; [discriminate|reflexivity]. }
  assert (H2 : FeedSpec.summary_link (E:=Demo.E_anchor) Demo.entry_both Demo.C).
  { exists (Py.lit "<a href=http://c>c</a>").
    split; [reflexivity|]. split; [discriminate|].
    split; [reflexivity|]. split; reflexivity. }
  assert (H3 : Demo.C <> Demo.A) by discriminate.
  split; [exact H1|]. split; [exact H2|]. split; [exact H3|].
  exact (proj1 (proj2 (proj2 (proj2 (proj2
    (feed_url_resolution Demo.E_anchor Demo.entry_both)))))
    Demo.A Demo.C H1 H2 H3).
Defined.

(** every page has items without a link: the ten offsets are requested *)
Lemma pagination_terminates_witness :
  10 <= 12
  /\ request_starts
       (events (Google100.google_custom_search (E:=Demo.E_blank) 12 [] [] []
                  100 tt))
     = OFFSETS
  /\ Google100.google_custom_search (E:=Demo.E_blank) 12 [] [] [] 100 tt
     = Google100.google_custom_search (E:=Demo.E_blank) 10 [] [] [] 100 tt.
Proof.
  assert (H : 10 <= 12) by lia.
  split; [exact H|]. split; [vm_compute; reflexivity|].
  exact (proj1 (proj2 (pagination_terminates Demo.E_blank 12 [] [] [] 100 tt H))).
Defined.

Lemma cap_applies_before_dedup_witness :
  (1 <= 2)%Z
  /\ res (GoogleNews100.search_google_news_urls (E:=Demo.E_dup) [] 2 tt)
     = Ret [Demo.A]
  /\ ~ NoDup (take (Z.to_nat 2)
         (omap (GoogleNews100.extract_real_article_url (E:=Demo.E_dup))
            (feed_parse Demo.E_dup tt (GoogleNews100.rss_url (E:=Demo.E_dup) [])).1))
  /\ (Z.of_nat (length [Demo.A]) < 2)%Z.
Proof.
  assert (H1 : (1 <= 2)%Z) by lia.
  assert (H2 : res (GoogleNews100.search_google_news_urls (E:=Demo.E_dup) [] 2 tt)
               = Ret [Demo.A]) by (vm_compute; reflexivity).
  assert (H3 : ~ NoDup (take (Z.to_nat 2)
         (omap (GoogleNews100.extract_real_article_url (E:=Demo.E_dup))
            (feed_parse Demo.E_dup tt
               (GoogleNews100.rss_url (E:=Demo.E_dup) [])).1))).
  { change (~ NoDup [Demo.A; Demo.A]). intros Hn.
    apply NoDup_cons in Hn as [Hn _]. apply Hn. constructor. }
  split; [exact H1|]. split; [exact H2|]. split; [exact H3|].
  exact (proj2 (proj1 cap_applies_before_dedup Demo.E_dup [] 2%Z tt [Demo.A]
                  H1 H2) H3).
Defined.



(** A whole run of Google100.py in the demonstration world: the API gives
    a, a, b for the keyword; the page of a is read, the page of b answers
    500; the file holds the two blocks in this order. *)
Example search_run_end_to_end :
  let r := Google100.main (E:=Demo.E_dup) 10 [Py.lit "pneumologie"] [] []
             100 (Py.lit "out.txt") tt in
  res r = Ret [(Demo.A, true, Py.lit "hello");
               (Demo.B, false, Py.lit "[INACCESSIBLE] HTTP 500")]
  /\ last (events r)
     = Some (EvWrite (Py.lit "out.txt")
               (Py.lit "http://a" ++ [Py.LF] ++ Py.lit "hello"
                ++ [Py.LF; Py.LF] ++ Py.lit "http://b" ++ [Py.LF]
                ++ Py.lit "[INACCESSIBLE] HTTP 500" ++ [Py.LF; Py.LF])
               None).
Proof. split; vm_compute; reflexivity. Qed.

(** * Further properties of the scripts *)

(** ** What [clean_text] keeps *)

Module KeepFacts.
Import Re ReSpec ReFacts.

Lemma run_take p b s : forall k,
  k <= run_length p b s -> Forall (fun c => p c = true) (take k s).
Proof.
  revert b. induction s as [|c s IH]; intros b k Hk.
  - rewrite take_nil. constructor.
  - destruct k as [|k]; [constructor|]. cbn [take].
    cbn [run_length] in Hk.
    destruct b as [[|b]|]; [lia| |]; destruct (p c) eqn:Hc; try lia;
      (constructor; [exact Hc|eapply IH; apply Nat.succ_le_mono, Hk]).
Qed.

Lemma try_counts_inv k mn cont s m :
  try_counts k mn cont s = Some m ->
  exists j m', j <= k /\ cont (drop j s) = Some m' /\ m = j + m'.
Proof.
  induction k as [|k IH]; rewrite try_counts_unfold.
  - destruct (0 <? mn); [discriminate|].
    destruct (cont (drop 0 s)) as [m'|] eqn:Hc; [|discriminate].
    intros [= <-]. exists 0, m'. auto.
  - destruct (S k <? mn); [discriminate|].
    destruct (cont (drop (S k) s)) as [m'|] eqn:Hc.
    + intros [= <-]. exists (S k), m'. auto.
    + intros H. destruct (IH H) as (j & m' & Hj & Hm & ->).
      exists j, m'. split; [lia|auto].
Qed.

(** A match of a pattern whose classes all lie in [P] covers characters of
    [P] only. *)
Lemma match_here_covers (P : N -> bool) re :
  Forall (fun a => forall c, cls a c = true -> P c = true) re ->
  forall s m, match_here re s = Some m ->
  Forall (fun c => P c = true) (take m s).
Proof.
  induction 1 as [|a re Ha _ IH]; intros s m.
  - intros [= <-]. constructor.
  - intros H.
    change (match_here (a :: re) s) with
      (try_counts (run_length (cls a) (rmax a) s) (rmin a)
         (match_here re) s) in H.
    apply try_counts_inv in H as (j & m' & Hj & Hm & ->).
    rewrite <- take_take_drop.
    apply Forall_app. split.
    + eapply Forall_impl; [apply (run_take _ _ _ _ Hj)|].
      intros c. apply Ha.
    + apply IH, Hm.
Qed.

Lemma visible_app a b : visible (a ++ b) = visible a ++ visible b.
Proof. unfold visible. apply List.filter_app. Qed.

Lemma visible_spaces s :
  Forall (fun c => Py.isspace c = true) s -> visible s = [].
Proof.
  induction 1 as [|c s Hc _ IH]; [reflexivity|].
  unfold visible. cbn [List.filter]. rewrite Hc. exact IH.
Qed.

Lemma visible_nil_spaces s :
  visible s = [] -> Forall (fun c => Py.isspace c = true) s.
Proof.
  induction s as [|c s IH]; [constructor|].
  unfold visible. cbn [List.filter].
  destruct (Py.isspace c) eqn:Hc; cbn [negb]; [|discriminate].
  intros H. constructor; [exact Hc|apply IH, H].
Qed.

(** A substitution whose matches and replacement are whitespace keeps the
    other characters. *)
Lemma sub_visible re r s :
  (forall t, match_here re t <> Some 0) ->
  Forall (fun a => forall c, cls a c = true -> Py.isspace c = true) re ->
  Forall (fun c => Py.isspace c = true) r ->
  visible (sub re r s) = visible s.
Proof.
  intros Hne Hre Hr.
  apply (sub_ind re r (fun s out => visible out = visible s) Hne);
    [reflexivity| |].
  - intros c t _ IH. unfold visible in *. cbn [List.filter]. rewrite IH.
    reflexivity.
  - intros c t k Hm IH.
    apply (match_here_covers Py.isspace re Hre) in Hm.
    rewrite visible_app, IH, (visible_spaces r Hr). cbn [app].
    replace (visible (c :: t))
      with (visible (take (S k) (c :: t) ++ drop (S k) (c :: t)))
      by (rewrite take_drop; reflexivity).
    rewrite visible_app, (visible_spaces _ Hm). reflexivity.
Qed.

(** A substitution whose matches are at least as long as the replacement
    does not lengthen the text. *)
Lemma sub_length re r s :
  (forall t, match_here re t <> Some 0) ->
  (forall t m, match_here re t = Some m -> length r <= m) ->
  length (sub re r s) <= length s.
Proof.
  intros Hne Hlen.
  apply (sub_ind re r (fun s out => length out <= length s) Hne);
    [reflexivity| |].
  - intros c t _ IH. simpl. lia.
  - intros c t k Hm IH.
    pose proof (Hlen _ _ Hm) as Hr. apply match_here_le in Hm.
    rewrite length_app. rewrite length_drop in IH. simpl in *. lia.
Qed.

Lemma cr_space c : is_cr c = true -> Py.isspace c = true.
Proof.
  intros H. destruct (Py.isspace c) eqn:E; [reflexivity|].
  apply space_cr in E. congruence.
Qed.

Lemma lf_space c : is_lf c = true -> Py.isspace c = true.
Proof.
  intros H. destruct (Py.isspace c) eqn:E; [reflexivity|].
  apply space_lf in E. congruence.
Qed.

Lemma substituted_visible s :
  visible (sub_blank2 (sub_lf3 (sub_trail (sub_crlf s)))) = visible s.
Proof.
  unfold sub_blank2, sub_lf3, sub_trail, sub_crlf.
  rewrite sub_visible;
    [|intros t; apply single_nonempty; lia
     |repeat constructor; apply blank_space|repeat constructor].
  rewrite sub_visible;
    [|intros t; apply single_nonempty; lia
     |repeat constructor; apply lf_space|repeat constructor].
  rewrite sub_visible;
    [|apply trail_nonempty
     |repeat constructor; [apply blank_space|apply lf_space]
     |repeat constructor].
  apply sub_visible;
    [apply crlf_nonempty
    |repeat constructor; [apply cr_space|apply lf_space]
    |repeat constructor].
Qed.

Lemma strip_visible s : visible (Py.strip s) = visible s.
Proof.
  unfold Py.strip.
  destruct (StripFacts.lstrip_split s) as (a & Ha & Hsa).
  destruct (StripFacts.rstrip_split (Py.lstrip s)) as (b & Hb & Hsb).
  rewrite Ha at 2. rewrite Hb at 2.
  rewrite !visible_app, (visible_spaces a Hsa), (visible_spaces b Hsb).
  rewrite app_nil_r. reflexivity.
Qed.

Lemma clean_visible s : visible (clean_text s) = visible s.
Proof.
  rewrite clean_text_unfold, strip_visible. apply substituted_visible.
Qed.

Lemma strip_length s : length (Py.strip s) <= length s.
Proof.
  destruct (StripFacts.strip_split s) as (a & b & H).
  rewrite H at 2. rewrite !length_app. lia.
Qed.

Lemma substituted_length s :
  length (sub_blank2 (sub_lf3 (sub_trail (sub_crlf s)))) <= length s.
Proof.
  assert (H1 : length (sub_crlf s) <= length s).
  { apply sub_length; [apply crlf_nonempty|]. intros t m.
    rewrite match_crlf. destruct t as [|c t]; [discriminate|].
    destruct (is_cr c); [|discriminate].
    destruct (starts _ t); intros [= <-]; simpl; lia. }
  assert (H2 : forall t, length (sub_trail t) <= length t).
  { intros t. apply sub_length; [apply trail_nonempty|]. intros u m.
    rewrite match_trail. cbv zeta. destruct (_ && _); [|discriminate].
    intros [= <-]. simpl. lia. }
  assert (H3 : forall t, length (sub_lf3 t) <= length t).
  { intros t. apply sub_length; [intros u; apply single_nonempty; lia|].
    intros u m Hm. apply single_match_len in Hm as [_ Hm]. simpl. lia. }
  assert (H4 : forall t, length (sub_blank2 t) <= length t).
  { intros t. apply sub_length; [intros u; apply single_nonempty; lia|].
    intros u m Hm. apply single_match_len in Hm as [_ Hm]. simpl. lia. }
  specialize (H2 (sub_crlf s)). specialize (H3 (sub_trail (sub_crlf s))).
  specialize (H4 (sub_lf3 (sub_trail (sub_crlf s)))). lia.
Qed.
End KeepFacts.

(** X1. [clean_text] never changes, drops or reorders a character that is
    not whitespace: the non-whitespace characters of the output are those of
    the input, in the same order. *)
Theorem clean_text_keeps_visible (s : str) :
  visible (clean_text s) = visible s.
Proof.
  rewrite clean_text_unfold, KeepFacts.strip_visible.
  apply KeepFacts.substituted_visible.
Qed.

(** X2. [clean_text] returns the empty string exactly for the texts made of
    whitespace only (the empty text included); this is when the scripts
    report "Contenu vide ou non extractible". *)
Theorem clean_text_empty_iff (s : str) :
  clean_text s = [] <-> Forall (fun c => Py.isspace c = true) s.
Proof.
  split.
  - intros H. apply KeepFacts.visible_nil_spaces.
    rewrite <- KeepFacts.clean_visible, H. reflexivity.
  - intros H. apply KeepFacts.visible_spaces in H.
    rewrite <- KeepFacts.clean_visible in H.
    assert (Hf : starts [Py.isspace] (clean_text s) = false)
      by (rewrite clean_text_unfold; apply StripFacts.strip_first).
    destruct (clean_text s) as [|c t]; [reflexivity|].
    simpl in Hf. rewrite andb_true_r in Hf.
    unfold visible in H. cbn [List.filter] in H. rewrite Hf in H.
    discriminate.
Qed.

(** X3. [clean_text] never lengthens a text. *)
Theorem clean_text_not_longer (s : str) :
  length (clean_text s) <= length s.
Proof.
  rewrite clean_text_unfold.
  pose proof (KeepFacts.strip_length
    (ReSpec.sub_blank2 (ReSpec.sub_lf3 (ReSpec.sub_trail (ReSpec.sub_crlf s))))).
  pose proof (KeepFacts.substituted_length s). lia.
Qed.

(** ** More on google_custom_search *)

(** X4. The URLs [google_custom_search] returns are distinct, none is the
    empty string, there are at most [max_results] of them, and they are
    links of the items the API answered during the call, in rank order. *)
Theorem google_custom_search_result_sound (E : Env) (fuel : nat)
    (query api_key cx : str) (max_results : Z) (w : World E)
    (urls : list str) :
  let r := Google100.google_custom_search fuel query api_key cx
             max_results w in
  res r = Ret urls ->
  NoDup urls
  /\ Forall (fun u => u <> []) urls
  /\ (Z.of_nat (length urls) <= Z.max 0 max_results)%Z
  /\ sublist urls (trace_links (events r)).
Proof.
  cbv zeta. intros Hr.
  destruct (google_custom_search_result _ _ _ _ _ _ _ Hr)
    as (raw & H1 & H2 & ->).
  rewrite SearchFacts.google_custom_search_run. cbv zeta. cbn [events].
  destruct (SearchMore.search_loop_from query api_key cx max_results fuel
              [] 1%Z w raw H1) as (l & Hl & Hsub & Ht).
  cbn [app] in Hl. subst l.
  split; [apply DedupFacts.dedup_NoDup|].
  split; [|split].
  - apply Forall_forall. intros u Hu.
    apply (proj1 (DedupFacts.dedup_elem raw u)) in Hu.
    rewrite Forall_forall in Ht. apply truthy_nonempty, Ht, Hu.
  - pose proof (DedupFacts.dedup_length raw). lia.
  - etransitivity; [apply DedupFacts.dedup_sublist|exact Hsub].
Qed.

(** X5. With [max_results] zero or negative, [google_custom_search] issues
    no request and returns the empty list. *)
Theorem google_custom_search_no_quota (E : Env) (fuel : nat)
    (query api_key cx : str) (max_results : Z) (w : World E) :
  1 <= fuel -> (max_results <= 0)%Z ->
  Google100.google_custom_search fuel query api_key cx max_results w
  = Run (Ret []) w [].
Proof.
  intros Hf Hm. destruct fuel as [|fuel]; [lia|].
  rewrite SearchFacts.google_custom_search_run. cbv zeta.
  rewrite SearchFacts.search_loop_step.
  destruct (Z.ltb_spec (Z.of_nat (length (@nil str))) max_results) as [H|H];
    [simpl in H; lia|].
  cbn [res final events]. f_equal. f_equal.
  unfold dedup_truncate, slice_to. change (dedup []) with (@nil str).
  destruct (_ <? _)%Z; apply take_nil.
Qed.

(** X6. During [google_custom_search] nothing happens but API requests and
    pauses of one second: every request except the last is followed by one
    pause (the last one is followed by a pause when the cap was reached
    before the last offset). *)
Theorem google_custom_search_paced (E : Env) (fuel : nat)
    (query api_key cx : str) (max_results : Z) (w : World E) :
  paced (events (Google100.google_custom_search fuel query api_key cx
                   max_results w)) = true.
Proof.
  rewrite SearchFacts.google_custom_search_run. cbv zeta. cbn [events].
  apply SearchMore.search_loop_paced.
Qed.

(** X7. [google_custom_search] fails fast: when it raises, the failed
    request is the last event of the call; no request before it failed and
    none is retried or issued after it. *)
Theorem google_custom_search_fails_fast (E : Env) (fuel : nat)
    (query api_key cx : str) (max_results : Z) (w : World E) :
  let r := Google100.google_custom_search fuel query api_key cx
             max_results w in
  raised r ->
  exists pre p o,
    events r = pre ++ [EvSearch p o]
    /\ api_failed o = true /\ some_api_failure pre = false.
Proof.
  cbv zeta. rewrite SearchFacts.google_custom_search_run. cbv zeta.
  cbn [events]. intros [e He]. cbn [res] in He.
  apply (SearchMore.search_loop_fails_last query api_key cx max_results
           fuel [] 1%Z w).
  destruct (res (Google100.search_loop fuel query api_key cx max_results
                   [] 1%Z w)) as [raw|e'|] eqn:Hl; try discriminate.
  exists e'. exact Hl.
Qed.

(** ** More on the feed source *)

Module FeedMore.
Import GoogleNews100 FeedSpec.

Section Facts.
Context {E : Env}.

(** every resolved URL comes from one of the four steps *)
Lemma resolve_sound e u :
  extract_real_article_url e = Some u ->
  source_link e u \/ summary_link e u \/ alternate_link e u \/ own_link e u.
Proof.
  unfold extract_real_article_url. cbv zeta.
  destruct (match e_source e with Some _ => _ | None => _ end) as [h|] eqn:H1.
  { intros [= <-]. left. apply FeedFacts.source_step, H1. }
  destruct (extract_publisher_url_from_summary e) as [a|] eqn:H2.
  { intros [= <-]. right. left. apply FeedFacts.summary_step, H2. }
  destruct (first_alternate _) as [h|] eqn:H3.
  { intros [= <-]. right. right. left. apply FeedFacts.alternate_step, H3. }
  intros H4. right. right. right. apply FeedFacts.own_step, H4.
Qed.

Lemma resolved_http e u :
  extract_real_article_url e = Some u -> Py.startswith u HTTP = true.
Proof.
  intros H. apply resolve_sound in H
    as [(_ & _ & _ & _ & H)|[(_ & _ & _ & _ & H & _)|[H|(_ & _ & H)]]];
    try exact H.
  destruct H as (_ & _ & _ & _ & _ & _ & (_ & _ & [_ H] & _) & _). exact H.
Qed.

Lemma feed_loop_from entries : forall urls max_results,
  exists l,
    feed_loop entries urls max_results = urls ++ l
    /\ sublist l (omap extract_real_article_url entries).
Proof.
  induction entries as [|e entries IH]; intros urls max_results.
  - exists []. cbn. rewrite app_nil_r. split; [reflexivity|constructor].
  - cbn [feed_loop omap list_omap].
    destruct (extract_real_article_url e) as [u|] eqn:He.
    + rewrite (FeedFacts.resolved_truthy e u He).
      destruct (_ >=? _)%Z.
      * exists [u]. split; [reflexivity|].
        apply sublist_skip, sublist_nil_l.
      * destruct (IH (urls ++ [u]) max_results) as (l & H1 & H2).
        exists (u :: l). rewrite H1, <- app_assoc.
        split; [reflexivity|apply sublist_skip, H2].
    + destruct (_ >=? _)%Z.
      * exists []. rewrite app_nil_r. split; [reflexivity|apply sublist_nil_l].
      * destruct (IH urls max_results) as (l & H1 & H2).
        exists l. split; [exact H1|exact H2].
Qed.

(** without quota the loop stops after the first entry *)
Lemma feed_loop_no_quota entries max_results :
  (max_results <= 0)%Z ->
  length (feed_loop entries [] max_results) <= 1.
Proof.
  intros Hm. destruct entries as [|e entries]; [simpl; lia|].
  cbn [feed_loop].
  destruct (extract_real_article_url e) as [u|]; [destruct (Py.truthy u)|];
    match goal with
    | |- context [(?a >=? ?b)%Z] =>
        destruct (Z.geb_spec a b) as [H|H]; [simpl; lia|simpl in H; lia]
    end.
Qed.

Lemma dedup_truncate_no_quota urls max_results :
  (max_results <= 0)%Z -> length urls <= 1 ->
  dedup_truncate urls max_results = [].
Proof.
  intros Hm Hl. unfold dedup_truncate, slice_to.
  pose proof (DedupFacts.dedup_length urls) as Hd.
  destruct (Z.ltb_spec max_results 0).
  - replace (Z.to_nat (Z.of_nat (length (dedup urls)) + max_results)) with 0
      by lia. reflexivity.
  - replace (Z.to_nat max_results) with 0 by lia. reflexivity.
Qed.
End Facts.

End FeedMore.

(** X8. A URL resolved by [extract_real_article_url] always starts with
    "http"; when it is on news.google.com it is the source href or the
    entry's own link, because the aggregator filter only applies to the
    summary anchor and to the alternate links. *)
Theorem resolved_url_shape (E : Env) (e : entry) (u : str) :
  GoogleNews100.extract_real_article_url e = Some u ->
  Py.startswith u HTTP = true
  /\ (Py.contains NEWS_GOOGLE u = true ->
      FeedSpec.source_link e u \/ FeedSpec.own_link e u).
Proof.
  intros H. split; [apply (FeedMore.resolved_http e u H)|].
  intros Hg.
  destruct (FeedMore.resolve_sound e u H) as [H1|[H2|[H3|H4]]].
  - left. exact H1.
  - destruct H2 as (_ & _ & _ & _ & _ & Hoff).
    unfold FeedSpec.off_aggregator in Hoff. congruence.
  - destruct H3 as (_ & _ & _ & _ & _ & _ & (_ & _ & _ & Hoff) & _).
    unfold FeedSpec.off_aggregator in Hoff. congruence.
  - right. exact H4.
Qed.


(** X10. With [max_results] zero or negative, [search_google_news_urls]
    still reads the feed, and returns the empty list. *)
Theorem search_google_news_urls_no_quota (E : Env) (query : str)
    (max_results : Z) (w : World E) :
  (max_results <= 0)%Z ->
  let r := GoogleNews100.search_google_news_urls query max_results w in
  res r = Ret []
  /\ events r = [EvFeed (GoogleNews100.rss_url query)
                   (feed_parse E w (GoogleNews100.rss_url query)).1].
Proof.
  intros Hm. cbv zeta. rewrite NewsRun.search_google_news_urls_run.
  cbv zeta. cbn [res events]. split; [|reflexivity]. f_equal.
  apply FeedMore.dedup_truncate_no_quota; [exact Hm|].
  apply FeedMore.feed_loop_no_quota, Hm.
Qed.


(** X11. A call of [fetch_html_requests], and a call of [extract_page_text]
    of Google100.py, issues exactly one GET on the URL and nothing else,
    whatever the outcome: a failed request is not retried. *)
Theorem one_request_per_page (E : Env) (url : str) (w : World E) :
  events (GoogleNews100.fetch_html_requests url w)
  = [EvGet url (http_get E w url).1]
  /\ events (Google100.extract_page_text url w)
     = [EvGet url (http_get E w url).1].
Proof.
  split; [apply news_fetch_events|apply search_page_events].
Qed.


(** X12. In [extract_page_text] of GoogleNews100.py the browser is used
    exactly when the fast fetch succeeded and the page looks like a consent
    page; it is never the default path and is never tried after a failed
    fetch. *)
Theorem browser_only_after_consent (E : Env) (url : str) (w : World E) :
  existsb is_browser (events (GoogleNews100.extract_page_text url w)) = true
  <-> exists html,
        res (GoogleNews100.fetch_html_requests url w) = Ret (true, html)
        /\ GoogleNews100.looks_like_cookie_consent_page html = true.
Proof.
  unfold GoogleNews100.extract_page_text.
  destruct (NewsRun.fetch_html_requests_run url w)
    as [([ok html] & Hr & _)|(msg & _ & Hr)].
  2: { unfold bind. rewrite Hr. cbn. split; [discriminate|].
       intros (h & Hh & _). discriminate Hh. }
  rewrite (bind_run_ret _ _ _ _ Hr). cbv zeta.
  destruct (news_fetch_events url w) as [He Hf]. rewrite He.
  cbn [events app existsb is_get is_browser orb].
  destruct ok; cbn [negb].
  - destruct (GoogleNews100.looks_like_cookie_consent_page html) eqn:Hc.
    + split; [intros _; exists html; auto|]. intros _.
      set (w1 := final (GoogleNews100.fetch_html_requests url w)).
      destruct (BrowserFacts.playwright_starts url w1) as (err & rest & Hp).
      unfold bind.
      destruct (res (GoogleNews100.fetch_html_playwright url w1));
        cbn [events]; rewrite Hp; reflexivity.
    + destruct (BrowserFacts.extract_text_from_html_silent html
                  (final (GoogleNews100.fetch_html_requests url w)))
        as [Hs _].
      rewrite Hs. split; [discriminate|].
      intros (h & Hh & Hl). congruence.
  - cbn. split; [discriminate|]. intros (h & Hh & _). congruence.
Qed.

(** X13. [fetch_html_playwright] never raises.  When the page cannot be
    opened nothing else is tried and the failure is returned.  When it
    opens, the button pass then the text pass are both run, each up to its
    first successful click, which is followed by a pause of one second; the
    content is read once, after the passes, and decides the result. *)
Theorem playwright_session_shape (E : Env) (url : str) (w : World E) :
  match pw_goto E w url with
  | (Some e, w1) =>
      GoogleNews100.fetch_html_playwright url w
      = Run (Ret (false, msg_playwright ++ exn_text e)) w1
            [EvGoto url (Some e)]
  | (None, _) =>
      exists p1 p2 r,
        events (GoogleNews100.fetch_html_playwright url w)
        = [EvGoto url None] ++ p1 ++ p2 ++ [EvContent r]
        /\ click_pass EvClickRole GoogleNews100.BUTTON_TEXTS p1
        /\ click_pass EvClickText GoogleNews100.FALLBACK_TEXTS p2
        /\ res (GoogleNews100.fetch_html_playwright url w)
           = Ret (match r with
                  | inr html => (true, html)
                  | inl e => (false, msg_playwright ++ exn_text e)
                  end)
  end.
Proof.
  destruct (pw_goto E w url) as [[e|] w1] eqn:H.
  - apply BrowserFacts.playwright_goto_failed, H.
  - eapply BrowserFacts.playwright_goto_done, H.
Qed.

(** ** Pages that abort the run of Google100.py *)

(** X14. [extract_page_text] of Google100.py raises exactly when
    [requests.get] raised an exception that is not a [RequestException], or
    the page came back with a status below 400 and an HTML content type and
    the parser raised such an exception: only [RequestException] is caught.
    [extract_page_text] of GoogleNews100.py raises in the first case
    only. *)
Theorem search_page_raises_iff (E : Env) (url : str) (w : World E) (e : exn) :
  (res (Google100.extract_page_text url w) = Raise e
   <-> (exists msg,
          (http_get E w url).1 = HttpCrash msg /\ e = OtherException msg)
       \/ ((exists resp w',
              http_get E w url = (HttpResponse resp, w')
              /\ (status_code resp < 400)%Z
              /\ not_html (default [] (content_type resp)) = false
              /\ bs4_text E Google100.TAGS (text resp) = inl e)
           /\ (forall msg, e <> RequestException msg)))
  /\ (res (GoogleNews100.extract_page_text url w) = Raise e
      <-> exists msg,
            (http_get E w url).1 = HttpCrash msg /\ e = OtherException msg).
Proof.
  split.
  - destruct (http_get E w url) as [[resp|msg|msg] w'] eqn:H; cbn [fst].
    + assert (Hno : forall P : Prop,
                (exists m, HttpResponse resp = HttpCrash m
                           /\ e = OtherException m) -> P)
        by (intros P (m & Hm & _); discriminate Hm).
      destruct (Z.lt_ge_cases (status_code resp) 400) as [Hs|Hs].
      * destruct (not_html (default [] (content_type resp))) eqn:Hc.
        -- rewrite (search_page_ctype _ _ _ _ H Hs Hc).
           split; [discriminate|]. intros [Hx|Hx]; [apply (Hno _ Hx)|].
           destruct Hx as [(resp' & w'' & [= <- <-] & _ & Hc' & _) _].
           congruence.
        -- rewrite (search_page_html _ _ _ _ H Hs Hc).
           destruct (bs4_text E Google100.TAGS (text resp)) as [e'|t] eqn:Hb.
           ++ split.
              ** intros He. right. split.
                 --- exists resp, w'. repeat split; auto.
                     destruct e'; congruence.
                 --- intros msg ->. destruct e'; congruence.
              ** intros [Hx|Hx]; [apply (Hno _ Hx)|].
                 destruct Hx as [(resp' & w'' & [= <- <-] & _ & _ & Hb') Hn].
                 rewrite Hb in Hb'. injection Hb' as ->.
                 destruct e; try reflexivity. destruct (Hn msg eq_refl).
           ++ split.
              ** destruct (Py.truthy (clean_text t)); discriminate.
              ** intros [Hx|Hx]; [apply (Hno _ Hx)|].
                 destruct Hx as [(resp' & w'' & [= <- <-] & _ & _ & Hb') _].
                 congruence.
      * rewrite (search_page_status _ _ _ _ H Hs). split; [discriminate|].
        intros [Hx|Hx]; [apply (Hno _ Hx)|].
        destruct Hx as [(resp' & w'' & [= <- <-] & Hs' & _) _]. lia.
    + rewrite (search_page_error _ _ _ _ H). split; [discriminate|].
      intros [(m & Hm & _)|[(resp' & w'' & Hx & _) _]]; discriminate.
    + rewrite (search_page_crash _ _ _ _ H). cbn [res]. split.
      * intros [= <-]. left. exists msg. auto.
      * intros [(m & [= <-] & ->)|[(resp' & w'' & Hx & _) _]];
          [reflexivity|discriminate Hx].
  - pose proof (news_page_outcome url w) as Ho.
    destruct ((http_get E w url).1) as [resp|msg|msg].
    + destruct Ho as (ok & c & Hr & _). rewrite Hr.
      split; [discriminate|]. intros (m & Hm & _). discriminate Hm.
    + destruct Ho as (ok & c & Hr & _). rewrite Hr.
      split; [discriminate|]. intros (m & Hm & _). discriminate Hm.
    + destruct Ho as [Hr _]. rewrite Hr. split.
      * intros [= <-]. exists msg. auto.
      * intros (m & [= <-] & ->). reflexivity.
Qed.

(** ** Pages are requested once *)

Module OnceFacts.

Section Facts.
Context {E : Env}.

Local Abbreviation keep :=
  (fun u : str => negb (GoogleNews100.is_google_or_consent_url u)).

Lemma news_page_gets url w :
  gets (events (GoogleNews100.extract_page_text url w)) = [url].
Proof.
  unfold GoogleNews100.extract_page_text.
  destruct (NewsRun.fetch_html_requests_run url w)
    as [([ok html] & Hr & _)|(msg & _ & Hr)].
  - rewrite (bind_run_ret _ _ _ _ Hr). cbv zeta. cbn [events].
    rewrite gets_app, (proj1 (news_fetch_events url w)). cbn [gets app].
    f_equal. apply gets_filter.
    apply (news_page_rest_avoids is_get); auto using is_get_browser.
  - unfold bind. rewrite Hr. reflexivity.
Qed.

(** The loop over the URLs of one keyword in GoogleNews100.py, whatever
    its outcome. *)
Lemma news_main_urls_gets urls : forall all_results already_done w,
  let r := GoogleNews100.main_urls urls all_results already_done w in
  NoDup (gets (events r))
  /\ (forall u, u ∈ gets (events r) ->
        (u ∉ already_done)
        /\ GoogleNews100.is_google_or_consent_url u = false)
  /\ (forall results done,
        res r = Ret (results, done) ->
        List.filter keep (List.map url_of results)
        = List.filter keep (List.map url_of all_results) ++ gets (events r)
        /\ forall u, u ∈ already_done \/ u ∈ gets (events r) -> u ∈ done).
Proof.
  induction urls as [|url urls IH]; intros acc done w; cbv zeta.
  - cbn. split; [constructor|]. split; [intros u Hu; inversion Hu|].
    intros rs d [= <- <-]. rewrite app_nil_r. split; [reflexivity|].
    intros u [H|H]; [exact H|inversion H].
  - cbn [GoogleNews100.main_urls].
    destruct (decide (url ∈ done)) as [Hin|Hin]; [apply IH|].
    destruct (GoogleNews100.is_google_or_consent_url url) eqn:Hg.
    { destruct (IH (acc ++ [(url, false, msg_ignored)]) ({[url]} ∪ done) w)
        as (N & D & R).
      split; [exact N|]. split.
      - intros u Hu. destruct (D u Hu) as [D1 D2]. split; [set_solver|exact D2].
      - intros rs d Hres. destruct (R rs d Hres) as [R1 R2]. split.
        + rewrite R1, map_app, List.filter_app. cbn [List.map List.filter].
          unfold url_of at 2. cbn [fst]. rewrite Hg. cbn [negb].
          rewrite app_nil_r. reflexivity.
        + intros u Hu. apply R2. set_solver. }
    destruct (NewsRun.extract_page_text_run url w)
      as [([ok c] & Hr & _)|(msg & _ & Hr)].
    + rewrite (bind_run_ret _ _ _ _ Hr). cbv zeta.
      unfold sleep. rewrite bind_emit. cbv zeta.
      cbn [res final events]. rewrite gets_app, news_page_gets.
      cbn [app gets].
      set (w1 := final (GoogleNews100.extract_page_text url w)).
      destruct (IH (acc ++ [(url, ok, c)]) ({[url]} ∪ done) w1)
        as (N & D & R).
      split; [|split].
      * constructor; [|exact N]. intros Hu. apply D in Hu. set_solver.
      * intros u [->|Hu]%elem_of_cons; [auto|].
        destruct (D u Hu) as [D1 D2]. split; [set_solver|exact D2].
      * intros rs d Hres. destruct (R rs d Hres) as [R1 R2]. split.
        -- rewrite R1, map_app, List.filter_app. cbn [List.map List.filter].
           unfold url_of at 2. cbn [fst]. rewrite Hg. cbn [negb].
           rewrite <- app_assoc. reflexivity.
        -- intros u Hu. apply R2. rewrite elem_of_cons in Hu. set_solver.
    + rewrite (bind_run_raise _ _ w (OtherException msg))
        by (rewrite Hr; reflexivity).
      rewrite Hr. cbn [res final events gets].
      split; [apply NoDup_singleton|]. split.
      * intros u ->%list_elem_of_singleton. auto.
      * intros rs d Hres. discriminate Hres.
Qed.

Lemma news_main_keywords_gets keywords max_results :
  forall all_results already_done w,
  let r := GoogleNews100.main_keywords keywords max_results all_results
             already_done w in
  NoDup (gets (events r))
  /\ (forall u, u ∈ gets (events r) ->
        (u ∉ already_done)
        /\ GoogleNews100.is_google_or_consent_url u = false)
  /\ (forall results done,
        res r = Ret (results, done) ->
        List.filter keep (List.map url_of results)
        = List.filter keep (List.map url_of all_results)
          ++ gets (events r)).
Proof.
  induction keywords as [|kw keywords IH]; intros acc done w; cbv zeta.
  - cbn. split; [constructor|]. split; [intros u Hu; inversion Hu|].
    intros rs d [= <- <-]. rewrite app_nil_r. reflexivity.
  - cbn [GoogleNews100.main_keywords].
    rewrite (bind_run_ret _ _ w
      (dedup_truncate
         (GoogleNews100.feed_loop (feed_parse E w (GoogleNews100.rss_url kw)).1
            [] max_results)
         max_results))
      by (rewrite NewsRun.search_google_news_urls_run; reflexivity).
    cbv zeta. rewrite NewsRun.search_google_news_urls_run. cbv zeta.
    cbn [final events].
    set (ew := feed_parse E w (GoogleNews100.rss_url kw)).
    set (urls := dedup_truncate
                   (GoogleNews100.feed_loop ew.1 [] max_results)
                   max_results).
    destruct (news_main_urls_gets urls acc done ew.2) as (N1 & D1 & R1).
    destruct (res (GoogleNews100.main_urls urls acc done ew.2))
      as [[rs1 d1]| |] eqn:Hm.
    2,3: bind_stops Hm Hev Hnr; cbn [res events app gets]; rewrite Hev;
      (split; [exact N1|]); (split; [exact D1|]);
      intros rs d Hres; destruct (Hnr _ Hres).
    rewrite (bind_run_ret _ _ _ _ Hm).
    cbv zeta. cbn [res final events app gets]. rewrite gets_app.
    set (w2 := final (GoogleNews100.main_urls urls acc done ew.2)).
    destruct (R1 rs1 d1 eq_refl) as [R1a R1b].
    destruct (IH rs1 d1 w2) as (N2 & D2 & R2).
    split; [|split].
    + apply NoDup_app. split; [exact N1|]. split; [|exact N2].
      intros u Hu Hu2. apply D2 in Hu2. apply (proj1 Hu2), R1b. auto.
    + intros u [Hu|Hu]%elem_of_app; [apply D1, Hu|].
      destruct (D2 u Hu) as [D2a D2b]. split; [|exact D2b].
      intros Hd. apply D2a, R1b. auto.
    + intros rs d Hres. rewrite (R2 rs d Hres), R1a, <- app_assoc.
      reflexivity.
Qed.

(** The loop over the URLs of one keyword in Google100.py, whatever its
    outcome. *)
Lemma search_main_urls_gets urls : forall all_results already_done w,
  let r := Google100.main_urls urls all_results already_done w in
  NoDup (gets (events r))
  /\ (forall u, u ∈ gets (events r) -> u ∉ already_done)
  /\ (forall results done,
        res r = Ret (results, done) ->
        List.map url_of results
        = List.map url_of all_results ++ gets (events r)
        /\ forall u, u ∈ done <-> u ∈ already_done \/ u ∈ gets (events r)).
Proof.
  induction urls as [|url urls IH]; intros acc done w; cbv zeta.
  - cbn. split; [constructor|]. split; [intros u Hu; inversion Hu|].
    intros rs d [= <- <-]. rewrite app_nil_r. split; [reflexivity|].
    intros u. split; [auto|]. intros [H|H]; [exact H|inversion H].
  - cbn [Google100.main_urls].
    destruct (decide (url ∈ done)) as [Hin|Hin]; [apply IH|].
    pose proof (search_page_events url w) as He.
    destruct (res (Google100.extract_page_text url w)) as [[ok c]| |] eqn:Hr.
    2,3: bind_stops Hr Hev Hnr; rewrite Hev, He; cbn [gets];
      (split; [apply NoDup_singleton|]);
      (split; [intros u ->%list_elem_of_singleton; exact Hin|]);
      intros rs d Hres; destruct (Hnr _ Hres).
    rewrite (bind_run_ret _ _ _ _ Hr).
    cbv zeta. unfold sleep. rewrite bind_emit. cbv zeta.
    cbn [res final events]. rewrite He. cbn [app gets].
    set (w1 := final (Google100.extract_page_text url w)).
    destruct (IH (acc ++ [(url, ok, c)]) ({[url]} ∪ done) w1)
      as (N & D & R).
    split; [|split].
    + constructor; [|exact N]. intros Hu. apply D in Hu. set_solver.
    + intros u [->|Hu]%elem_of_cons; [exact Hin|].
      apply D in Hu. set_solver.
    + intros rs d Hres. destruct (R rs d Hres) as [R1 R2]. split.
      * rewrite R1, map_app, <- app_assoc. reflexivity.
      * intros u. rewrite R2, elem_of_cons. set_solver.
Qed.

Lemma search_main_keywords_gets fuel keywords api_key cx max_results :
  forall all_results already_done w,
  let r := Google100.main_keywords fuel keywords api_key cx max_results
             all_results already_done w in
  NoDup (gets (events r))
  /\ (forall u, u ∈ gets (events r) -> u ∉ already_done)
  /\ (forall results done,
        res r = Ret (results, done) ->
        List.map url_of results
        = List.map url_of all_results ++ gets (events r)).
Proof.
  induction keywords as [|kw keywords IH]; intros acc done w; cbv zeta.
  - cbn. split; [constructor|]. split; [intros u Hu; inversion Hu|].
    intros rs d [= <- <-]. rewrite app_nil_r. reflexivity.
  - cbn [Google100.main_keywords].
    set (s := Google100.google_custom_search fuel kw api_key cx max_results).
    assert (Hs : gets (events (s w)) = []).
    { apply gets_filter.
      apply (google_custom_search_avoids is_get); reflexivity. }
    destruct (res (s w)) as [urls| |] eqn:Hr.
    2,3: bind_stops Hr Hev Hnr; rewrite Hev, Hs;
      (split; [constructor|]); (split; [intros u Hu; inversion Hu|]);
      intros rs d Hres; destruct (Hnr _ Hres).
    rewrite (bind_run_ret _ _ _ _ Hr).
    cbv zeta. cbn [res final events]. rewrite !gets_app, Hs. cbn [app].
    set (w1 := final (s w)).
    destruct (search_main_urls_gets urls acc done w1) as (N1 & D1 & R1).
    destruct (res (Google100.main_urls urls acc done w1))
      as [[rs1 d1]| |] eqn:Hm.
    2,3: bind_stops Hm Hev Hnr; rewrite Hev;
      (split; [exact N1|]); (split; [exact D1|]);
      intros rs d Hres; destruct (Hnr _ Hres).
    rewrite (bind_run_ret _ _ _ _ Hm).
    cbv zeta. cbn [res final events]. rewrite gets_app.
    set (w2 := final (Google100.main_urls urls acc done w1)).
    destruct (R1 rs1 d1 eq_refl) as [R1a R1b].
    destruct (IH rs1 d1 w2) as (N2 & D2 & R2).
    split; [|split].
    + apply NoDup_app. split; [exact N1|]. split; [|exact N2].
      intros u Hu Hu2. apply D2 in Hu2. apply Hu2, R1b. auto.
    + intros u [Hu|Hu]%elem_of_app; [apply D1, Hu|].
      apply D2 in Hu. intros Hd. apply Hu, R1b. auto.
    + intros rs d Hres. rewrite (R2 rs d Hres), R1a, <- app_assoc.
      reflexivity.
Qed.
End Facts.

End OnceFacts.


(** X16. In a run of Google100.py no page is requested twice, also when
    several keywords return it and when the run is aborted; when the run
    returns, the pages requested are the URLs of the results, in order. *)
Theorem search_pages_requested_once (E : Env) (fuel : nat)
    (keywords : list str) (api_key cx : str) (max_results : Z)
    (output_file : str) (w : World E) :
  let r := Google100.main fuel keywords api_key cx max_results output_file
             w in
  NoDup (gets (events r))
  /\ forall results,
       res r = Ret results -> gets (events r) = List.map url_of results.
Proof.
  cbv zeta. unfold Google100.main. rewrite WriteFacts.main_tail.
  destruct (OnceFacts.search_main_keywords_gets fuel keywords api_key cx
              max_results [] ∅ w) as (N & _ & R).
  destruct (res (Google100.main_keywords fuel keywords api_key cx
                   max_results [] ∅ w)) as [[rs d]| |] eqn:Hr;
    cbv zeta; cbn [res events].
  2,3: split; [exact N|intros; discriminate].
  rewrite gets_app. cbn [gets]. rewrite app_nil_r. split; [exact N|].
  destruct (fs_write E _ output_file (write_results_text rs)).1;
    intros results Hres; [discriminate Hres|].
  injection Hres as <-. rewrite (R rs d eq_refl). reflexivity.
Qed.



(** ** What the output file cannot tell apart *)

(** X18. [write_results] neither writes the ok flag nor delimits a content:
    a page whose content holds a blank line followed by further lines gives
    the same file as two pages, the second with the first of these lines as
    its URL.  [clean_text] keeps blank lines, so such contents occur. *)
Theorem write_results_ambiguous (u c u' c' : str) (ok ok1 ok2 : bool) :
  Py.strip c = c -> c <> [] ->
  Py.strip u' = u' ->
  Py.strip c' = c' -> c' <> [] ->
  write_results_text [(u, ok, c ++ [Py.LF; Py.LF] ++ u' ++ [Py.LF] ++ c')]
  = write_results_text [(u, ok1, c); (u', ok2, c')].
Proof.
  intros Hc Hne Hu Hc' Hne'.
  assert (Hs : Py.strip (c ++ [Py.LF; Py.LF] ++ u' ++ [Py.LF] ++ c')
               = c ++ [Py.LF; Py.LF] ++ u' ++ [Py.LF] ++ c').
  { apply StripFacts.strip_fixed.
    - pose proof (StripFacts.strip_first c) as H. rewrite Hc in H.
      destruct c as [|x c]; [congruence|]. exact H.
    - pose proof (StripFacts.strip_last c') as H. rewrite Hc' in H.
      rewrite !rev_app_distr, <- !app_assoc.
      destruct (rev c') as [|y r] eqn:Hr.
      + apply (f_equal (@rev N)) in Hr. rewrite rev_involutive in Hr.
        cbn in Hr. congruence.
      + exact H. }
  unfold write_results_text. rewrite !WriterFacts.write_loop_blocks.
  cbn [List.map concat fst snd]. rewrite Hs, Hc, Hu, Hc'.
  repeat (rewrite <- ?app_assoc; cbn [app]). reflexivity.
Qed.

(** ** The further properties on concrete runs *)

(** the API gives a, a, b: the search returns a, b *)
Lemma google_custom_search_result_sound_witness :
  let r := Google100.google_custom_search (E:=Demo.E_dup) 10 [] [] [] 100
             tt in
  res r = Ret [Demo.A; Demo.B]
  /\ NoDup [Demo.A; Demo.B]
  /\ Forall (fun u : str => u <> []) [Demo.A; Demo.B]
  /\ (Z.of_nat (length [Demo.A; Demo.B]) <= Z.max 0 100)%Z
  /\ sublist [Demo.A; Demo.B] (trace_links (events r)).
Proof.
  cbv zeta.
  assert (H : res (Google100.google_custom_search (E:=Demo.E_dup) 10 [] [] []
                     100 tt) = Ret [Demo.A; Demo.B])
    by (vm_compute; reflexivity).
  split; [exact H|].
  exact (google_custom_search_result_sound Demo.E_dup 10 [] [] [] 100 tt
           [Demo.A; Demo.B] H).
Defined.

Lemma google_custom_search_no_quota_witness :
  1 <= 1 /\ (0 <= 0)%Z
  /\ Google100.google_custom_search (E:=Demo.E_dup) 1 [] [] [] 0 tt
     = Run (Ret []) tt [].
Proof.
  assert (H1 : 1 <= 1) by lia.
  assert (H2 : (0 <= 0)%Z) by lia.
  split; [exact H1|]. split; [exact H2|].
  exact (google_custom_search_no_quota Demo.E_dup 1 [] [] [] 0 tt H1 H2).
Defined.

(** the API cannot be reached: the first request is the last event *)
Lemma google_custom_search_fails_fast_witness :
  let r := Google100.google_custom_search (E:=Demo.E_down) 10 [] [] [] 100
             tt in
  raised r
  /\ exists pre p o,
       events r = pre ++ [EvSearch p o]
       /\ api_failed o = true /\ some_api_failure pre = false.
Proof.
  cbv zeta.
  assert (H : raised (Google100.google_custom_search (E:=Demo.E_down) 10 []
                        [] [] 100 tt)).
  { exists (RequestException (Py.lit "connection refused")).
    vm_compute. reflexivity. }
  split; [exact H|].
  exact (google_custom_search_fails_fast Demo.E_down 10 [] [] [] 100 tt H).
Defined.

Lemma resolved_url_shape_witness :
  GoogleNews100.extract_real_article_url (E:=Demo.E_anchor) Demo.entry_both
  = Some Demo.A
  /\ Py.startswith Demo.A HTTP = true
  /\ (Py.contains NEWS_GOOGLE Demo.A = true ->
      FeedSpec.source_link Demo.entry_both Demo.A
      \/ FeedSpec.own_link Demo.entry_both Demo.A).
Proof.
  assert (H : GoogleNews100.extract_real_article_url (E:=Demo.E_anchor)
                Demo.entry_both = Some Demo.A) by reflexivity.
  split; [exact H|].
  exact (resolved_url_shape Demo.E_anchor Demo.entry_both Demo.A H).
Defined.

Lemma search_google_news_urls_no_quota_witness :
  (0 <= 0)%Z
  /\ res (GoogleNews100.search_google_news_urls (E:=Demo.E_dup) [] 0 tt)
     = Ret []
  /\ events (GoogleNews100.search_google_news_urls (E:=Demo.E_dup) [] 0 tt)
     = [EvFeed (GoogleNews100.rss_url (E:=Demo.E_dup) [])
          (feed_parse Demo.E_dup tt
             (GoogleNews100.rss_url (E:=Demo.E_dup) [])).1].
Proof.
  assert (H : (0 <= 0)%Z) by lia.
  split; [exact H|].
  exact (search_google_news_urls_no_quota Demo.E_dup [] 0 tt H).
Defined.

(** the content "hello", a blank line, "http://b", "world" *)
Lemma write_results_ambiguous_witness :
  Py.strip (Py.lit "hello") = Py.lit "hello" /\ Py.lit "hello" <> []
  /\ Py.strip Demo.B = Demo.B
  /\ Py.strip (Py.lit "world") = Py.lit "world" /\ Py.lit "world" <> []
  /\ write_results_text
       [(Demo.A, true,
         Py.lit "hello" ++ [Py.LF; Py.LF] ++ Demo.B ++ [Py.LF]
         ++ Py.lit "world")]
     = write_results_text
         [(Demo.A, true, Py.lit "hello"); (Demo.B, false, Py.lit "world")].
Proof.
  assert (H1 : Py.strip (Py.lit "hello") = Py.lit "hello") by reflexivity.
  assert (H2 : Py.lit "hello" <> []) by discriminate.
  assert (H3 : Py.strip Demo.B = Demo.B) by reflexivity.
  assert (H4 : Py.strip (Py.lit "world") = Py.lit "world") by reflexivity.
  assert (H5 : Py.lit "world" <> []) by discriminate.
  split; [exact H1|]. split; [exact H2|]. split; [exact H3|].
  split; [exact H4|]. split; [exact H5|].
  exact (write_results_ambiguous Demo.A (Py.lit "hello") Demo.B
           (Py.lit "world") true true false H1 H2 H3 H4 H5).
Defined.

(** A page of GoogleNews100.py behind a consent notice: the plain request
    gets the notice, the browser opens the page, the third button gives the
    consent, the five texts are tried although the consent is given, and
    the article is read. *)
Example consent_page_end_to_end :
  let r := GoogleNews100.extract_page_text (E:=DemoConsent.E_consent)
             Demo.A false in
  res r = Ret (true, DemoConsent.ARTICLE)
  /\ final r = true
  /\ events r
     = [EvGet Demo.A
          (HttpResponse (Response 200 (Some TEXT_HTML) DemoConsent.NOTICE));
        EvGoto Demo.A None;
        EvClickRole (Py.lit "Accept all") false;
        EvClickRole (Py.lit "Reject all") false;
        EvClickRole (Py.lit "Tout accepter") true;
        EvSleep 1000;
        EvClickText (Py.lit "Accept") false;
        EvClickText (Py.lit "Accepter") false;
        EvClickText (Py.lit "Tout accepter") false;
        EvClickText (Py.lit "I agree") false;
        EvClickText (Py.lit "J'accepte") false;
        EvContent (inr DemoConsent.ARTICLE)].
Proof. split; [|split]; vm_compute; reflexivity. Qed.

(** A run of Google100.py with a parser that fails: the first page aborts
    the run, the second page is not requested and no file is written. *)
Example parser_failure_end_to_end :
  let r := Google100.main (E:=DemoConsent.E_parser_down) 10
             [Py.lit "pneumologie"] [] [] 100 (Py.lit "out.txt") tt in
  res r = Raise (OtherException (Py.lit "parser"))
  /\ gets (events r) = [Demo.A]
  /\ List.filter is_write (events r) = [].
Proof. split; [|split]; vm_compute; reflexivity. Qed.

(** A run of each script in which [requests.get] on the second page raises
    an exception that is not a [RequestException]: the run is aborted after
    the first page was read, and nothing is written. *)
Example page_crash_end_to_end :
  let r := GoogleNews100.main (E:=DemoFail.E_crash) [Py.lit "pneumologie"]
             10 (Py.lit "out.txt") tt in
  let r' := Google100.main (E:=DemoFail.E_crash) 10 [Py.lit "pneumologie"]
              [] [] 100 (Py.lit "out.txt") tt in
  res r = Raise (OtherException DemoFail.PARSE)
  /\ gets (events r) = [Demo.A; Demo.B]
  /\ some_page_crash (events r) = true
  /\ List.filter is_write (events r) = []
  /\ res r' = Raise (OtherException DemoFail.PARSE)
  /\ List.filter is_write (events r') = [].
Proof. repeat split; vm_compute; reflexivity. Qed.

(** A run of GoogleNews100.py in which the output file cannot be opened:
    the two pages are processed, then the write raises. *)
Example write_failure_end_to_end :
  let r := GoogleNews100.main (E:=DemoFail.E_no_file) [Py.lit "pneumologie"]
             10 (Py.lit "out.txt") tt in
  res r = Raise (OtherException DemoFail.NO_FILE)
  /\ gets (events r) = [Demo.A; Demo.B]
  /\ write_failed (events r) = true
  /\ last (events r)
     = Some (EvWrite (Py.lit "out.txt")
               (write_results_text
                  [(Demo.A, true, Py.lit "hello");
                   (Demo.B, false, Py.lit "[INACCESSIBLE] HTTP 500")])
               (Some (OtherException DemoFail.NO_FILE))).
Proof. repeat split; vm_compute; reflexivity. Qed.
